(** * phylib.utils._misc

    A shallow embedding of the JSON helpers of [phylib/utils/_misc.py]
    ([_save_json], [_load_json], the custom encoder and decoder hook and the
    key normalisation), together with the parts of Python's [json],
    [base64] and [numpy] that those helpers call.

    Conventions of the embedding.
    - A Python [str] is a [string]; a character is read as the code point of
      the same number (0..255).  A [\uXXXX] escape above 255 leaves the
      model ([NotModelled]).
    - A Python [bytes] is a [list byte].
    - An integer is a [Z], without bound.  A Python float is kept as the
      format and the bit pattern it came from ([PyFloat]); its decimal text
      is not modelled: writing a float, or reading a number token with a
      fraction or an exponent, leaves the model ([NotModelled]).
    - An array is its dtype, its shape and the bytes of its buffer, in C
      order and little-endian; the dtypes are the eight integer and the
      three float dtypes, and the two complex dtypes.  A Python complex is
      kept like a float ([PyComplex]); [json] has no text for it.
    - A [dict] is an association list in insertion order; [dict_setitem]
      is the only way the code builds one.
    - An [assert] is executed: the interpreter does not run with [-O].
    - A raised exception is a value of [exn]; a computation that may raise
      has type [result A].  The text that [json.dump] writes is produced
      chunk after chunk, so a failing dump leaves the chunks written before
      the exception in the file: [emit] keeps both.

    The other utilities of the module ([_fullname], [_load_from_fullname],
    [_ensure_dir_exists], [_read_text], [_write_text], [_read_tsv] and
    [_write_tsv]) are embedded with the parts of [pathlib], [textwrap],
    [csv], [importlib] and the builtins that they call.
    - An exception of these functions is a value of [error], which holds
      the exceptions of [exn]; a computation that may raise has type
      [outcome A].
    - A path is absolute and free of links: the root, or a name in a
      directory.  The file system is a map from paths to regular files and
      directories, and every operation on it is permitted.  The conventions
      are those of POSIX: a line feed is written as it is, and a text that
      is read has its line ends turned into line feeds.
    - [Path.suffix] is the one of Python up to 3.12, [textwrap.dedent] the
      one of Python up to 3.13, [csv] the C module of Python from 3.11 on,
      with the dialect [excel] (minimal quoting, doubled quotes, no escape
      character, lines ended by a carriage return and a line feed) and the
      limit of 131072 characters for a field.
    - [int] and [str] have no limit on the number of digits.
    - The modules that can be imported are a table from names to modules,
      and a module is a table from names to objects.
    - The calls to the logger are left out.  [_load_pickle], [_save_pickle],
      [_read_python] and [_git_version] are outside the embedding: they run
      [joblib], [exec] and [git]. *)

From Stdlib Require Import ZArith NArith List String Ascii Bool Lia.
From Stdlib Require Import Decimal DecimalString DecimalFacts DecimalPos DecimalZ.
From Stdlib Require Import Strings.Byte Permutation Sorted OrderedTypeEx.
Import ListNotations.

Local Open Scope string_scope.
Local Open Scope Z_scope.

(** ** Exceptions and results *)

Inductive exn : Type :=
| AssertionError
| TypeError
| ValueError
| KeyError
| IOError
| JSONDecodeError
| BinasciiError
| UnboundLocalError
| NotModelled.

Inductive result (A : Type) : Type :=
| Ok (a : A)
| Raise (e : exn).

Arguments Ok {A} a.
Arguments Raise {A} e.

Definition bind {A B : Type} (r : result A) (k : A -> result B) : result B :=
  match r with
  | Ok a => k a
  | Raise e => Raise e
  end.

Notation "x <- r ;; k" := (bind r (fun x => k))
  (at level 61, r at next level, right associativity).
Notation "' p <- r ;; k" := (bind r (fun p => k))
  (at level 61, p pattern, r at next level, right associativity).

(** ** Characters *)

Definition dquote : ascii := ascii_of_nat 34.
Definition backslash : ascii := ascii_of_nat 92.
Definition newline : ascii := ascii_of_nat 10.

Definition code (c : ascii) : N := N_of_ascii c.

Definition in_range (lo hi : N) (c : ascii) : bool :=
  (lo <=? code c)%N && (code c <=? hi)%N.

(** ['0' <= c <= '9'] *)
Definition is_decimal (c : ascii) : bool := in_range 48 57 c.

(** One character of [str.isdigit]: the decimal digits and, below 256, the
    superscripts two, three and one (Numeric_Type=Digit). *)
Definition char_isdigit (c : ascii) : bool :=
  is_decimal c || (code c =? 178)%N || (code c =? 179)%N || (code c =? 185)%N.

Fixpoint string_forallb (p : ascii -> bool) (s : string) : bool :=
  match s with
  | EmptyString => true
  | String c r => p c && string_forallb p r
  end.

(** [str.isdigit]: all characters are digits and there is at least one. *)
Definition isdigit (s : string) : bool :=
  match s with
  | EmptyString => false
  | _ => string_forallb char_isdigit s
  end.

(** ** Integers as decimal text *)

(** [int.__repr__], also [str(k)] for an integer [k]. *)
Definition intstr (n : Z) : string := NilEmpty.string_of_int (Z.to_int n).

Definition digit_cons (c : ascii) (d : uint) : uint :=
  match code c with
  | 48%N => D0 d | 49%N => D1 d | 50%N => D2 d | 51%N => D3 d | 52%N => D4 d
  | 53%N => D5 d | 54%N => D6 d | 55%N => D7 d | 56%N => D8 d | _ => D9 d
  end.

(** The longest run of decimal digits at the head of [s], and what follows. *)
Fixpoint read_uint (s : string) : uint * string :=
  match s with
  | EmptyString => (Nil, EmptyString)
  | String c r =>
      if is_decimal c
      then let (d, r') := read_uint r in (digit_cons c d, r')
      else (Nil, s)
  end.

(** [int(k)] for a string [k] that passed [isdigit]: the superscript digits
    are digits for [isdigit] but not for [int], which raises [ValueError]. *)
Definition int_of_str (s : string) : result Z :=
  if string_forallb is_decimal s && negb (s =? "")%string
  then Ok (Z.of_uint (fst (read_uint s)))
  else Raise ValueError.

(** ** Dictionaries *)

Inductive key : Type :=
| KInt (n : Z)
| KStr (s : string).

Definition key_eqb (a b : key) : bool :=
  match a, b with
  | KInt x, KInt y => (x =? y)%Z
  | KStr x, KStr y => (x =? y)%string
  | _, _ => false
  end.

Section Dict.
Context {V : Type}.

(** [d[k] = v]: an existing key keeps its place, a new one goes last. *)
Fixpoint dict_setitem (d : list (key * V)) (k : key) (v : V) : list (key * V) :=
  match d with
  | [] => [(k, v)]
  | (k', v') :: r =>
      if key_eqb k' k then (k', v) :: r else (k', v') :: dict_setitem r k v
  end.

Fixpoint dict_get (d : list (key * V)) (k : key) : option V :=
  match d with
  | [] => None
  | (k', v) :: r => if key_eqb k' k then Some v else dict_get r k
  end.

(** [k in d] *)
Definition dict_contains (d : list (key * V)) (k : key) : bool :=
  match dict_get d k with Some _ => true | None => false end.

(** [dict(pairs)] *)
Definition dict_of_pairs (pairs : list (key * V)) : list (key * V) :=
  fold_left (fun d kv => dict_setitem d (fst kv) (snd kv)) pairs [].
End Dict.

(** An item of a dict with its value replaced by [f] of it. *)
Definition on_value {V W : Type} (f : V -> W) (kv : key * V) : key * W :=
  (fst kv, f (snd kv)).

(** ** Values *)

Inductive dtype : Type :=
| int8 | int16 | int32 | int64 | uint8 | uint16 | uint32 | uint64
| float16 | float32 | float64
| complex64 | complex128.

(** A numpy array: its dtype, its shape and its elements as the bytes of
    the C-contiguous buffer (what [np.ascontiguousarray(obj).data] holds). *)
Record ndarray : Type := mk_ndarray {
  nd_dtype : dtype;
  nd_shape : list Z;
  nd_data : list byte
}.

Unset Elimination Schemes.
Inductive pyval : Type :=
| PyNone
| PyBool (b : bool)
| PyInt (n : Z)
| PyFloat (t : dtype) (bits : Z)
| PyStr (s : string)
| PyList (l : list pyval)
| PyTuple (l : list pyval)
| PyDict (d : list (key * pyval))
| PyNdarray (a : ndarray)
| PyNpGeneric (t : dtype) (b : list byte)
| PyQByteArray (b : list byte)
| PyBytes (b : list byte)
| PyComplex (t : dtype) (bits : Z).
Set Elimination Schemes.

(** ** base64 *)

Module Base64.

Definition byte_of_N (n : N) : byte :=
  match Byte.of_N n with Some b => b | None => x00 end.

(** The alphabet: [A-Z], [a-z], [0-9], [+], [/]. *)
Definition char_of_sextet (n : N) : ascii :=
  if (n <? 26)%N then ascii_of_N (n + 65)
  else if (n <? 52)%N then ascii_of_N (n + 71)
  else if (n <? 62)%N then ascii_of_N (n - 4)
  else if (n =? 62)%N then "+"%char
  else "/"%char.

(** [table_a2b_base64]: the value of an alphabet character. *)
Definition sextet_of_char (c : ascii) : option N :=
  if in_range 65 90 c then Some (code c - 65)%N
  else if in_range 97 122 c then Some (code c - 71)%N
  else if in_range 48 57 c then Some (code c + 4)%N
  else if (c =? "+")%char then Some 62%N
  else if (c =? "/")%char then Some 63%N
  else None.

Definition pad : ascii := "="%char.

(** [base64.b64encode(b).decode('utf8')]: three bytes give four
    characters; a last group of one or two bytes is padded with [=]. *)
Fixpoint b64encode (b : list byte) : string :=
  match b with
  | [] => EmptyString
  | [x] =>
      let n := Byte.to_N x in
      String (char_of_sextet (n / 4))
        (String (char_of_sextet ((n mod 4) * 16))
           (String pad (String pad EmptyString)))
  | [x; y] =>
      let n := Byte.to_N x in
      let m := Byte.to_N y in
      String (char_of_sextet (n / 4))
        (String (char_of_sextet ((n mod 4) * 16 + m / 16))
           (String (char_of_sextet ((m mod 16) * 4))
              (String pad EmptyString)))
  | x :: y :: z :: r =>
      let n := Byte.to_N x in
      let m := Byte.to_N y in
      let o := Byte.to_N z in
      String (char_of_sextet (n / 4))
        (String (char_of_sextet ((n mod 4) * 16 + m / 16))
           (String (char_of_sextet ((m mod 16) * 4 + o / 64))
              (String (char_of_sextet (o mod 64)) (b64encode r))))
  end.

(** [binascii.a2b_base64] without strict mode, as a loop over the
    characters with the state [quad_pos], [leftchar], [pads]: characters
    outside the alphabet are skipped, a complete pad sequence ends the
    decoding, and an incomplete last quad is an error. *)
Fixpoint a2b_base64 (quad_pos leftchar pads : N) (s : string)
  : result (list byte) :=
  match s with
  | EmptyString =>
      if (quad_pos =? 0)%N then Ok [] else Raise BinasciiError
  | String c r =>
      if (c =? pad)%char then
        if (2 <=? quad_pos)%N && (4 <=? quad_pos + (pads + 1))%N
        then Ok []
        else a2b_base64 quad_pos leftchar
               (if (2 <=? quad_pos)%N then pads + 1 else pads)%N r
      else
        match sextet_of_char c with
        | None => a2b_base64 quad_pos leftchar pads r
        | Some v =>
            match quad_pos with
            | 0%N => a2b_base64 1 v 0 r
            | 1%N =>
                out <- a2b_base64 2 (v mod 16) 0 r ;;
                Ok (byte_of_N (leftchar * 4 + v / 16) :: out)
            | 2%N =>
                out <- a2b_base64 3 (v mod 4) 0 r ;;
                Ok (byte_of_N (leftchar * 16 + v / 4) :: out)
            | _ =>
                out <- a2b_base64 0 0 0 r ;;
                Ok (byte_of_N (leftchar * 64 + v) :: out)
            end
        end
  end.

(** [base64.b64decode(s)] for a [str] argument: the string is first
    encoded to ASCII, which raises [ValueError] on any other character. *)
Definition b64decode (s : string) : result (list byte) :=
  if string_forallb (fun c => (code c <? 128)%N) s
  then a2b_base64 0 0 0 s
  else Raise ValueError.

(** [QByteArray.fromBase64]: never fails; characters outside the
    alphabet (the padding too) are skipped, and every eight bits
    gathered give a byte. *)
Fixpoint fromBase64_loop (buf nbits : N) (s : list byte) : list byte :=
  match s with
  | [] => []
  | b :: r =>
      match sextet_of_char (ascii_of_byte b) with
      | None => fromBase64_loop buf nbits r
      | Some d =>
          let buf := (buf * 64 + d)%N in
          let nbits := (nbits + 6)%N in
          if (8 <=? nbits)%N
          then byte_of_N (buf / 2 ^ (nbits - 8))
                 :: fromBase64_loop (buf mod 2 ^ (nbits - 8)) (nbits - 8) r
          else fromBase64_loop buf nbits r
      end
  end.

Definition fromBase64 (s : list byte) : list byte := fromBase64_loop 0 0 s.

(** [QByteArray.toBase64().data()]: the base64 text as bytes. *)
Definition toBase64 (b : list byte) : list byte :=
  list_byte_of_string (b64encode b).

End Base64.

(** ** numpy *)

Module Numpy.

(** [dtype.itemsize], in bytes. *)
Definition itemsize (t : dtype) : nat :=
  match t with
  | int8 | uint8 => 1
  | int16 | uint16 => 2
  | int32 | uint32 => 4
  | int64 | uint64 => 8
  | float16 => 2
  | float32 => 4
  | float64 => 8
  | complex64 => 8
  | complex128 => 16
  end%nat.

Definition is_float (t : dtype) : bool :=
  match t with
  | float16 | float32 | float64 => true
  | _ => false
  end.

Definition is_complex (t : dtype) : bool :=
  match t with
  | complex64 | complex128 => true
  | _ => false
  end.

(** The eight dtypes of integers. *)
Definition is_integral (t : dtype) : bool := negb (is_float t) && negb (is_complex t).

Definition signed (t : dtype) : bool :=
  match t with
  | int8 | int16 | int32 | int64 => true
  | _ => false
  end.

(** [str(obj.dtype)] *)
Definition dtype_str (t : dtype) : string :=
  match t with
  | int8 => "int8" | int16 => "int16" | int32 => "int32" | int64 => "int64"
  | uint8 => "uint8" | uint16 => "uint16" | uint32 => "uint32"
  | uint64 => "uint64"
  | float16 => "float16" | float32 => "float32" | float64 => "float64"
  | complex64 => "complex64" | complex128 => "complex128"
  end.

(** [np.dtype(s)] on the names above; numpy knows many more spellings
    and types, none of which is modelled. *)
Definition dtype_of_str (s : string) : option dtype :=
  find (fun t => (dtype_str t =? s)%string)
    [int8; int16; int32; int64; uint8; uint16; uint32; uint64;
   float16; float32; float64; complex64; complex128].

(** [obj.ndim] *)
Definition ndim (a : ndarray) : nat := List.length (nd_shape a).

(** The number of elements of an array of the given shape. *)
Definition prod (shape : list Z) : Z := fold_right Z.mul 1 shape.

(** The invariant of an array: no negative dimension, and a buffer of
    [itemsize] bytes for each element. *)
Definition wf_ndarray (a : ndarray) : Prop :=
  Forall (fun n => 0 <= n) (nd_shape a) /\
  Z.of_nat (List.length (nd_data a)) = Z.of_nat (itemsize (nd_dtype a)) * prod (nd_shape a).

Fixpoint le_to_N (b : list byte) : N :=
  match b with
  | [] => 0
  | x :: r => Byte.to_N x + 256 * le_to_N r
  end%N.

(** The integer that the little-endian bytes of one element are. *)
Definition item_of_bytes (t : dtype) (b : list byte) : Z :=
  let n := Z.of_N (le_to_N b) in
  let w := 8 * Z.of_nat (itemsize t) in
  if signed t && (2 ^ (w - 1) <=? n) then n - 2 ^ w else n.

(** [n.to_bytes(k, 'little')] *)
Fixpoint le_of_N (k : nat) (n : N) : list byte :=
  match k with
  | O => []
  | S k => Base64.byte_of_N (n mod 256) :: le_of_N k (n / 256)
  end%N.

(** [np.iinfo(t).min <= n <= np.iinfo(t).max] *)
Definition fits (t : dtype) (n : Z) : bool :=
  let w := 8 * Z.of_nat (itemsize t) in
  if signed t then (- 2 ^ (w - 1) <=? n) && (n <? 2 ^ (w - 1))
  else (0 <=? n) && (n <? 2 ^ w).

(** The bytes of an element that is the integer [n]: its two's complement,
    little-endian. *)
Definition bytes_of_item (t : dtype) (n : Z) : list byte :=
  let w := 8 * Z.of_nat (itemsize t) in
  le_of_N (itemsize t) (Z.to_N (n mod 2 ^ w)).

(** [np.array(l, dtype=t)] for a list of integers in the range of a dtype
    of integers. *)
Definition array (t : dtype) (l : list Z) : ndarray :=
  mk_ndarray t [Z.of_nat (List.length l)] (List.concat (map (bytes_of_item t) l)).

Fixpoint chunks (k fuel : nat) (b : list byte) : list (list byte) :=
  match fuel, b with
  | S f, _ :: _ => firstn k b :: chunks k f (skipn k b)
  | _, _ => []
  end.

(** [x.item()]: the Python number that an element is, an integer, or the
    float or the complex number of its bit pattern. *)
Definition item (t : dtype) (b : list byte) : pyval :=
  if is_float t then PyFloat t (Z.of_N (le_to_N b))
  else if is_complex t then PyComplex t (Z.of_N (le_to_N b))
  else PyInt (item_of_bytes t b).

(** The bytes of the elements, in the order of the buffer. *)
Definition elements (a : ndarray) : list (list byte) :=
  chunks (itemsize (nd_dtype a)) (List.length (nd_data a)) (nd_data a).

(** The elements of an array of integers. *)
Definition ints (a : ndarray) : list Z :=
  map (item_of_bytes (nd_dtype a)) (elements a).

(** [obj.tolist()] of a one-dimensional array (the source calls it under
    [obj.ndim == 1] only): the list of the elements as Python numbers. *)
Definition tolist (a : ndarray) : pyval :=
  PyList (map (item (nd_dtype a)) (elements a)).

(** [np.frombuffer(data, dtype)]: a one-dimensional array over the bytes;
    the length of the buffer must be a multiple of the item size. *)
Definition frombuffer (data : list byte) (dt : pyval) : result ndarray :=
  match dt with
  | PyStr s =>
      match dtype_of_str s with
      | Some t =>
          if (List.length data mod itemsize t =? 0)%nat
          then Ok (mk_ndarray t [Z.of_nat (List.length data / itemsize t)] data)
          else Raise ValueError
      | None => Raise NotModelled
      end
  | _ => Raise NotModelled
  end.

Fixpoint shape_of_list (l : list pyval) : option (list Z) :=
  match l with
  | [] => Some []
  | PyInt n :: r => option_map (cons n) (shape_of_list r)
  | _ => None
  end.

(** [a.reshape(shape)] for a sequence of integers or a single integer.
    One dimension may be [-1] and is then inferred; the number of
    elements must not change. *)
Definition reshape (a : ndarray) (shape : pyval) : result ndarray :=
  let size := prod (nd_shape a) in
  match match shape with
        | PyList l | PyTuple l => shape_of_list l
        | PyInt n => Some [n]
        | _ => None
        end with
  | None => Raise NotModelled
  | Some sh =>
      if existsb (fun n => n <? -1) sh then Raise ValueError
      else
        match filter (fun n => n =? -1) sh with
        | [] =>
            if prod sh =? size
            then Ok (mk_ndarray (nd_dtype a) sh (nd_data a))
            else Raise ValueError
        | [_] =>
            let known := prod (filter (fun n => negb (n =? -1)) sh) in
            if (known =? 0) || negb (size mod known =? 0)
            then Raise ValueError
            else Ok (mk_ndarray (nd_dtype a)
                       (map (fun n => if n =? -1 then size / known else n) sh)
                       (nd_data a))
        | _ => Raise ValueError
        end
  end.

End Numpy.

(** ** The host environment *)

(** Whether [from PyQt5.QtCore import QByteArray] succeeds. *)
Record host : Type := mk_host { has_pyqt5 : bool }.

(** * JSON utility functions *)

(** [_encode_qbytearray] *)
Definition _encode_qbytearray (arr : list byte) : string :=
  let b := Base64.toBase64 arr in
  let data_b64 := Base64.b64encode b in
  data_b64.

(** [base64.b64decode] on a value: a [str] or [bytes] is decoded, anything
    else is a [TypeError]. *)
Definition b64decode_value (v : pyval) : result (list byte) :=
  match v with
  | PyStr s => Base64.b64decode s
  | PyBytes b => Base64.a2b_base64 0 0 0 (string_of_list_byte b)
  | _ => Raise TypeError
  end.

(** [_decode_qbytearray].  When the import fails the [except] clause passes
    and [return out] reads a local variable that was never bound. *)
Definition _decode_qbytearray (h : host) (data_b64 : pyval) : result pyval :=
  encoded <- b64decode_value data_b64 ;;
  let out := if has_pyqt5 h then Some (PyQByteArray (Base64.fromBase64 encoded))
             else None in
  match out with
  | Some out => Ok out
  | None => Raise UnboundLocalError
  end.

(** [_CustomEncoder.default] *)
Definition default (obj : pyval) : result pyval :=
  match obj with
  | PyNdarray a =>
      if (Numpy.ndim a =? 1)%nat && (hd 0 (nd_shape a) <=? 10)
      then Ok (Numpy.tolist a)
      else
        let data_b64 := Base64.b64encode (nd_data a) in
        Ok (PyDict [(KStr "__ndarray__", PyStr data_b64);
                    (KStr "dtype", PyStr (Numpy.dtype_str (nd_dtype a)));
                    (KStr "shape", PyTuple (map PyInt (nd_shape a)))])
  | PyQByteArray b =>
      Ok (PyDict [(KStr "__qbytearray__", PyStr (_encode_qbytearray b))])
  | PyNpGeneric t b => Ok (Numpy.item t b)
  | _ => Raise TypeError
  end.

(** [d[k]] for a string key: [KeyError] when absent. *)
Definition getitem (d : list (key * pyval)) (k : string) : result pyval :=
  match dict_get d (KStr k) with
  | Some v => Ok v
  | None => Raise KeyError
  end.

(** [_json_custom_hook] *)
Definition _json_custom_hook (h : host) (d : pyval) : result pyval :=
  match d with
  | PyDict m =>
      if dict_contains m (KStr "__ndarray__") then
        enc <- getitem m "__ndarray__" ;;
        data <- b64decode_value enc ;;
        dt <- getitem m "dtype" ;;
        a <- Numpy.frombuffer data dt ;;
        sh <- getitem m "shape" ;;
        a' <- Numpy.reshape a sh ;;
        Ok (PyNdarray a')
      else if dict_contains m (KStr "__qbytearray__") then
        enc <- getitem m "__qbytearray__" ;;
        _decode_qbytearray h enc
      else Ok d
  | _ => Ok d
  end.

(** Modelled from the spec: [_is_integer] of [phylib/utils/_types.py], which
    is not among the sources.  The spec has every integer key replaced by
    its decimal string and string keys passed through unchanged. *)
Definition _is_integer (k : key) : bool :=
  match k with
  | KInt _ => true
  | KStr _ => false
  end.

(** The key that one turn of the loop of [_intify_keys] stores. *)
Definition intified (k : key) : result key :=
  match k with
  | KStr s => if isdigit s then n <- int_of_str s ;; Ok (KInt n) else Ok k
  | KInt _ => Ok k
  end.

(** [_intify_keys]; the argument must be a [dict]. *)
Definition _intify_keys (d : pyval) : result pyval :=
  match d with
  | PyDict m =>
      out <- fold_left
               (fun acc kv =>
                  out <- acc ;;
                  k <- intified (fst kv) ;;
                  Ok (dict_setitem out k (snd kv)))
               m (Ok []) ;;
      Ok (PyDict out)
  | _ => Raise AssertionError
  end.

(** [str(k)] for a key: the decimal text of an integer, a string as it
    is.  It is also the text of the key in an object of the dump, where
    [json] turns an integer key into a string through [_intstr]. *)
Definition key_str (k : key) : string :=
  match k with
  | KStr s => s
  | KInt n => intstr n
  end.

(** The key that one turn of the loop of [_stringify_keys] stores. *)
Definition stringified (k : key) : key :=
  if _is_integer k then KStr (key_str k) else k.

(** [_stringify_keys]; the argument must be a [dict]. *)
Definition _stringify_keys (d : pyval) : result pyval :=
  match d with
  | PyDict m =>
      let out :=
        fold_left (fun out kv => dict_setitem out (stringified (fst kv)) (snd kv))
          m [] in
      Ok (PyDict out)
  | _ => Raise AssertionError
  end.

(** * The encoder of [json.dump] *)

Module Encoder.

(** What a generator of chunks has written, and the exception that ended
    it, if any. *)
Definition emit : Type := string * option exn.

Definition yield (s : string) : emit := (s, None).
Definition throw (e : exn) : emit := (EmptyString, Some e).

Definition andthen (a b : emit) : emit :=
  match snd a with
  | None => (fst a ++ fst b, snd b)
  | Some _ => a
  end.

Infix ">>" := andthen (at level 62, left associativity).

(** The chunks of a sequence, with [sep] between two of them. *)
Fixpoint emit_join (sep : string) (first : bool) (l : list emit) : emit :=
  match l with
  | [] => yield EmptyString
  | e :: r =>
      (if first then yield EmptyString else yield sep) >> e
        >> emit_join sep false r
  end.

Definition hex_digit (n : N) : ascii :=
  if (n <? 10)%N then ascii_of_N (n + 48) else ascii_of_N (n + 87).

(** [ESCAPE_DCT] and the [\uXXXX] form of [py_encode_basestring_ascii]:
    everything outside [' '..'~'], the quote and the backslash are
    escaped. *)
Definition escape_char (c : ascii) : string :=
  if (c =? dquote)%char then String backslash (String dquote EmptyString)
  else if (c =? backslash)%char then String backslash (String backslash EmptyString)
  else if (code c =? 10)%N then String backslash "n"
  else if (code c =? 13)%N then String backslash "r"
  else if (code c =? 9)%N then String backslash "t"
  else if (code c =? 12)%N then String backslash "f"
  else if (code c =? 8)%N then String backslash "b"
  else if in_range 32 126 c then String c EmptyString
  else String backslash
         (String "u" (String "0" (String "0"
            (String (hex_digit (code c / 16))
               (String (hex_digit (code c mod 16)) EmptyString))))).

Fixpoint escape (s : string) : string :=
  match s with
  | EmptyString => EmptyString
  | String c r => escape_char c ++ escape r
  end.

(** [encode_basestring_ascii], the [_encoder] of the default
    [ensure_ascii=True]. *)
Definition encode_basestring_ascii (s : string) : string :=
  String dquote (escape s ++ String dquote EmptyString).

Fixpoint spaces (n : nat) : string :=
  match n with
  | O => EmptyString
  | S m => String " " (spaces m)
  end.

(** ['\n' + _indent * _current_indent_level] with [indent=2]. *)
Definition newline_indent (lvl : nat) : string :=
  String newline (spaces (2 * lvl)).

(** [','  + newline_indent]: the item separator of an indented dump. *)
Definition item_separator (lvl : nat) : string :=
  String "," (newline_indent lvl).

(** [k1 < k2] on keys: integers by value, strings by code points;
    Python 3 refuses to order an integer against a string. *)
Definition key_lt (a b : key) : result bool :=
  match a, b with
  | KInt x, KInt y => Ok (x <? y)
  | KStr x, KStr y => Ok (String.ltb x y)
  | _, _ => Raise TypeError
  end.

Section Sorted.
Context {V : Type}.

Fixpoint insert_item (x : key * V) (l : list (key * V))
  : result (list (key * V)) :=
  match l with
  | [] => Ok [x]
  | y :: r =>
      lt <- key_lt (fst x) (fst y) ;;
      if (lt : bool) then Ok (x :: l)
      else r' <- insert_item x r ;; Ok (y :: r')
  end.

(** [sorted(dct.items())]: the items in increasing order of their keys
    (the keys of a dict are distinct, so the values are never
    compared), or the [TypeError] of a comparison. *)
Fixpoint sorted (l : list (key * V)) : result (list (key * V)) :=
  match l with
  | [] => Ok []
  | x :: r => r' <- sorted r ;; insert_item x r'
  end.
End Sorted.

(** The chunks of an item of an object: the key, the colon, the value. *)
Definition entry (kc : key * emit) : emit :=
  yield (encode_basestring_ascii (key_str (fst kc))) >> yield ": " >> snd kc.

Section Iterencode.
(** What the encoder does with an object that is none of [str], [None],
    [bool], [int], [list], [tuple], [dict]. *)
Variable _iterencode_other : nat -> pyval -> emit.

(** [_iterencode], [_iterencode_list] and [_iterencode_dict] of
    [json.encoder._make_iterencode] with [indent=2], [sort_keys=True]
    and the default separators; [lvl] is [_current_indent_level]. *)
Fixpoint _iterencode_with (lvl : nat) (o : pyval) {struct o} : emit :=
  match o with
  | PyStr s => yield (encode_basestring_ascii s)
  | PyNone => yield "null"
  | PyBool true => yield "true"
  | PyBool false => yield "false"
  | PyInt n => yield (intstr n)
  | PyFloat _ _ => throw NotModelled
  | PyList l | PyTuple l =>
      match l with
      | [] => yield "[]"
      | _ =>
          yield "[" >> yield (newline_indent (S lvl))
            >> emit_join (item_separator (S lvl)) true
                 (map (_iterencode_with (S lvl)) l)
            >> yield (newline_indent lvl) >> yield "]"
      end
  | PyDict d =>
      match d with
      | [] => yield "{}"
      | _ =>
          yield "{" >> yield (newline_indent (S lvl))
            >> match sorted (map (on_value (_iterencode_with (S lvl))) d) with
               | Raise e => throw e
               | Ok items =>
                   emit_join (item_separator (S lvl)) true (map entry items)
               end
            >> yield (newline_indent lvl) >> yield "}"
      end
  | _ => _iterencode_other lvl o
  end.
End Iterencode.

(** The encoder on strings, integers, lists, tuples and dicts only, on
    which [default] is not called. *)
Definition _iterencode_plain : nat -> pyval -> emit :=
  _iterencode_with (fun _ _ => throw NotModelled).

(** The encoder on what [default] returns.  [default] returns a list of
    numbers, a tag or a number, and of these it takes none but a complex
    number, which it refuses: after a second call in a row it has raised,
    or what is left is plain. *)
Definition _iterencode_again : nat -> pyval -> emit :=
  _iterencode_with
    (fun lvl o =>
       match default o with
       | Ok o' => _iterencode_plain lvl o'
       | Raise e => throw e
       end).

(** [_iterencode] with [cls=_CustomEncoder]: any other object goes
    through [default] and the result is encoded in its place, by
    [_iterencode] again. *)
Definition _iterencode : nat -> pyval -> emit :=
  _iterencode_with
    (fun lvl o =>
       match default o with
       | Ok o' => _iterencode_again lvl o'
       | Raise e => throw e
       end).

(** [json.dump(data, f, cls=_CustomEncoder, indent=2, sort_keys=True)]:
    the chunks written to [f]. *)
Definition dump (data : pyval) : emit := _iterencode 0 data.

End Encoder.

(** * The decoder of [json.loads] *)

Module Decoder.

(** [WHITESPACE_STR = ' \t\n\r'] *)
Definition is_ws (c : ascii) : bool :=
  (code c =? 32)%N || (code c =? 9)%N || (code c =? 10)%N || (code c =? 13)%N.

(** [_w(s, end).end()]: past the whitespace. *)
Fixpoint skip_ws (s : string) : string :=
  match s with
  | EmptyString => EmptyString
  | String c r => if is_ws c then skip_ws r else s
  end.

(** [s] without its prefix [p], when it starts with [p]. *)
Fixpoint strip_prefix (p s : string) : option string :=
  match p, s with
  | EmptyString, _ => Some s
  | String a p', String b s' => if (a =? b)%char then strip_prefix p' s' else None
  | _, _ => None
  end.

Definition hex_value (c : ascii) : option N :=
  if in_range 48 57 c then Some (code c - 48)%N
  else if in_range 97 102 c then Some (code c - 87)%N
  else if in_range 65 70 c then Some (code c - 55)%N
  else None.

(** [BACKSLASH]: the one-character escapes. *)
Definition unescape (e : ascii) : option ascii :=
  if (e =? dquote)%char then Some dquote
  else if (e =? backslash)%char then Some backslash
  else if (e =? "/")%char then Some "/"%char
  else if (e =? "b")%char then Some (ascii_of_nat 8)
  else if (e =? "f")%char then Some (ascii_of_nat 12)
  else if (e =? "n")%char then Some (ascii_of_nat 10)
  else if (e =? "r")%char then Some (ascii_of_nat 13)
  else if (e =? "t")%char then Some (ascii_of_nat 9)
  else None.

(** [scanstring] in strict mode, from the character after the opening
    quote: the string and the text after the closing quote. *)
Fixpoint scanstring (s : string) : result (string * string) :=
  match s with
  | EmptyString => Raise JSONDecodeError
  | String c r =>
      if (c =? dquote)%char then Ok (EmptyString, r)
      else if (c =? backslash)%char then
        match r with
        | EmptyString => Raise JSONDecodeError
        | String e r1 =>
            if (e =? "u")%char then
              match r1 with
              | String h1 (String h2 (String h3 (String h4 r2))) =>
                  match hex_value h1, hex_value h2, hex_value h3, hex_value h4 with
                  | Some a, Some b, Some c', Some d =>
                      if (a =? 0)%N && (b =? 0)%N
                      then '(t, r3) <- scanstring r2 ;;
                           Ok (String (ascii_of_N (c' * 16 + d)) t, r3)
                      else Raise NotModelled
                  | _, _, _, _ => Raise JSONDecodeError
                  end
              | _ => Raise JSONDecodeError
              end
            else
              match unescape e with
              | Some c' => '(t, r2) <- scanstring r1 ;; Ok (String c' t, r2)
              | None => Raise JSONDecodeError
              end
        end
      else if (code c <? 32)%N then Raise JSONDecodeError
      else '(t, r1) <- scanstring r ;; Ok (String c t, r1)
  end.

(** The integer part of [NUMBER_RE]: [0] or a run of digits that does not
    start with [0]. *)
Definition int_part (s : string) : option (uint * string) :=
  match s with
  | EmptyString => None
  | String c r =>
      if (c =? "0")%char then Some (D0 Nil, r)
      else if is_decimal c then Some (read_uint s)
      else None
  end.

Definition starts_with_decimal (s : string) : bool :=
  match s with
  | String d _ => is_decimal d
  | EmptyString => false
  end.

(** Whether a fraction [\.\d+] or an exponent [[eE][-+]?\d+] follows. *)
Definition frac_or_exp (s : string) : bool :=
  match s with
  | EmptyString => false
  | String c r =>
      if (c =? ".")%char then starts_with_decimal r
      else if (c =? "e")%char || (c =? "E")%char then
        match r with
        | String g r' =>
            if (g =? "+")%char || (g =? "-")%char
            then starts_with_decimal r'
            else is_decimal g
        | EmptyString => false
        end
      else false
  end.

(** The number branch of [scan_once]: [match_number] and the constants
    [NaN], [Infinity], [-Infinity].  Integers are modelled, floats are
    not. *)
Definition scan_number (s : string) : result (pyval * string) :=
  let '(neg, body) :=
    match s with
    | String c r => if (c =? "-")%char then (true, r) else (false, s)
    | EmptyString => (false, s)
    end in
  match int_part body with
  | Some (d, r) =>
      if frac_or_exp r then Raise NotModelled
      else Ok (PyInt (if (neg : bool) then - Z.of_uint d else Z.of_uint d), r)
  | None =>
      match strip_prefix "NaN" s, strip_prefix "Infinity" s,
            strip_prefix "-Infinity" s with
      | None, None, None => Raise JSONDecodeError
      | _, _, _ => Raise NotModelled
      end
  end.

Section Scan.
Variable object_hook : pyval -> result pyval.

Section Loops.
(** [scan_once] on the values inside the array or object. *)
Variable scan : string -> result (pyval * string).

(** The [while True] of [JSONArray]; [n] bounds the iterations. *)
Fixpoint array_loop (n : nat) (s : string) : result (list pyval * string) :=
  match n with
  | O => Raise NotModelled
  | S n =>
      '(value, r) <- scan s ;;
      match skip_ws r with
      | EmptyString => Raise JSONDecodeError
      | String c r1 =>
          if (c =? "]")%char then Ok ([value], r1)
          else if (c =? ",")%char then
            '(values, r2) <- array_loop n (skip_ws r1) ;;
            Ok (value :: values, r2)
          else Raise JSONDecodeError
      end
  end.

(** The [while True] of [JSONObject], from the character after the
    opening quote of a key. *)
Fixpoint object_loop (n : nat) (s : string)
  : result (list (key * pyval) * string) :=
  match n with
  | O => Raise NotModelled
  | S n =>
      '(k, r) <- scanstring s ;;
      match skip_ws r with
      | EmptyString => Raise JSONDecodeError
      | String c r1 =>
          if (c =? ":")%char then
            '(value, r2) <- scan (skip_ws r1) ;;
            match skip_ws r2 with
            | EmptyString => Raise JSONDecodeError
            | String c' r3 =>
                if (c' =? "}")%char then Ok ([(KStr k, value)], r3)
                else if (c' =? ",")%char then
                  match skip_ws r3 with
                  | EmptyString => Raise JSONDecodeError
                  | String q r4 =>
                      if (q =? dquote)%char then
                        '(pairs, r5) <- object_loop n r4 ;;
                        Ok ((KStr k, value) :: pairs, r5)
                      else Raise JSONDecodeError
                  end
                else Raise JSONDecodeError
            end
          else Raise JSONDecodeError
      end
  end.
End Loops.

(** [scan_once], with [JSONArray] and [JSONObject] unfolded at the
    brackets.  [fuel] bounds the nesting and the length of the loops;
    the length of the text is always enough. *)
Fixpoint scan_once (fuel : nat) (s : string) : result (pyval * string) :=
  match fuel with
  | O => Raise NotModelled
  | S fuel =>
      match s with
      | EmptyString => Raise JSONDecodeError
      | String c r =>
          if (c =? dquote)%char then
            '(str, r1) <- scanstring r ;; Ok (PyStr str, r1)
          else if (c =? "{")%char then
            match skip_ws r with
            | EmptyString => Raise JSONDecodeError
            | String c' r1 =>
                if (c' =? "}")%char then
                  pairs <- object_hook (PyDict []) ;; Ok (pairs, r1)
                else if (c' =? dquote)%char then
                  '(pairs, r2) <- object_loop (scan_once fuel) fuel r1 ;;
                  pairs <- object_hook (PyDict (dict_of_pairs pairs)) ;;
                  Ok (pairs, r2)
                else Raise JSONDecodeError
            end
          else if (c =? "[")%char then
            match skip_ws r with
            | EmptyString => Raise JSONDecodeError
            | String c' r1 =>
                if (c' =? "]")%char then Ok (PyList [], r1)
                else
                  '(values, r2) <- array_loop (scan_once fuel) fuel (skip_ws r) ;;
                  Ok (PyList values, r2)
            end
          else
            match strip_prefix "null" s, strip_prefix "true" s,
                  strip_prefix "false" s with
            | Some r1, _, _ => Ok (PyNone, r1)
            | _, Some r1, _ => Ok (PyBool true, r1)
            | _, _, Some r1 => Ok (PyBool false, r1)
            | None, None, None => scan_number s
            end
      end
  end.

(** [json.loads(s, object_hook=object_hook)]: one value, surrounded by
    whitespace only. *)
Definition loads (s : string) : result pyval :=
  '(obj, r) <- scan_once (S (String.length s)) (skip_ws s) ;;
  match skip_ws r with
  | EmptyString => Ok obj
  | _ => Raise JSONDecodeError
  end.
End Scan.

End Decoder.

(** * Files *)

(** The file at the path: [None] when it does not exist, else its text. *)
Definition file : Type := option string.

(** [_save_json].  [path.open('w')] truncates the file and every chunk of
    [json.dump] is written as it comes, so the file holds them also when
    the dump raises.  The parent directory is taken to be creatable
    ([_ensure_dir_exists] succeeds). *)
Definition _save_json (f : file) (data : pyval) : file * result unit :=
  match data with
  | PyDict _ =>
      match _stringify_keys data with
      | Raise e => (f, Raise e)
      | Ok data =>
          let chunks := Encoder.dump data in
          (Some (fst chunks),
           match snd chunks with None => Ok tt | Some e => Raise e end)
      end
  | _ => (f, Raise AssertionError)
  end.

(** [_load_json] *)
Definition _load_json (h : host) (f : file) : result pyval :=
  match f with
  | None => Raise IOError
  | Some contents =>
      if (contents =? "")%string then Ok (PyDict [])
      else
        out <- Decoder.loads (_json_custom_hook h) contents ;;
        _intify_keys out
  end.

(** * What a dump reads back as *)

(** The value that [json.loads] with the hook makes of the text that
    [json.dump] writes for a value: the specification that the round-trip
    theorem below proves of the two. *)

Fixpoint sequence {A : Type} (l : list (result A)) : result (list A) :=
  match l with
  | [] => Ok []
  | r :: t => a <- r ;; t' <- sequence t ;; Ok (a :: t')
  end.

Section Reloaded.
Variable object_hook : pyval -> result pyval.
Variable reloaded_other : pyval -> result pyval.

Fixpoint reloaded_with (o : pyval) {struct o} : result pyval :=
  match o with
  | PyNone | PyBool _ | PyInt _ | PyStr _ => Ok o
  | PyFloat _ _ => Raise NotModelled
  | PyList l | PyTuple l =>
      values <- sequence (map reloaded_with l) ;; Ok (PyList values)
  | PyDict d =>
      items <- Encoder.sorted (map (on_value reloaded_with) d) ;;
      pairs <- sequence (map (fun kr => v <- snd kr ;;
                                        Ok (KStr (key_str (fst kr)), v))
                             items) ;;
      object_hook (PyDict (dict_of_pairs pairs))
  | _ => reloaded_other o
  end.
End Reloaded.

Definition reloaded_plain (object_hook : pyval -> result pyval)
  : pyval -> result pyval :=
  reloaded_with object_hook (fun _ => Raise NotModelled).

Definition reloaded_again (object_hook : pyval -> result pyval)
  : pyval -> result pyval :=
  reloaded_with object_hook
    (fun o => o' <- default o ;; reloaded_plain object_hook o').

Definition reloaded (object_hook : pyval -> result pyval)
  : pyval -> result pyval :=
  reloaded_with object_hook
    (fun o => o' <- default o ;; reloaded_again object_hook o').

(** What may follow a value in a dump: the end of the text, a comma or a
    line break. *)
Definition delimited (s : string) : bool :=
  match s with
  | EmptyString => true
  | String c _ => (c =? ",")%char || (c =? newline)%char
  end.

(** The first character of a number token. *)
Definition number_start (c : ascii) : bool := is_decimal c || (c =? "-")%char.

(** The first character of a value in a dump. *)
Definition value_start (c : ascii) : bool :=
  number_start c || (c =? dquote)%char || (c =? "{")%char || (c =? "[")%char
  || (c =? "n")%char || (c =? "t")%char || (c =? "f")%char.

Definition starts_value (s : string) : bool :=
  match s with
  | EmptyString => false
  | String c _ => value_start c
  end.

(** A text that starts with a character which is not whitespace. *)
Definition starts_black (s : string) : bool :=
  match s with
  | EmptyString => false
  | String c _ => negb (Decoder.is_ws c)
  end.

(** The text of the items after the first, each behind the separator. *)
Fixpoint join_rest (sep : string) (ts : list string) : string :=
  match ts with
  | [] => EmptyString
  | t :: r => sep ++ t ++ join_rest sep r
  end.

(** [reads hook t v]: the text [t] is one value for the decoder, which
    makes [v] of it whatever delimiter follows. *)
Definition reads (object_hook : pyval -> result pyval) (t : string) (v : pyval)
  : Prop :=
  starts_value t = true /\
  forall fuel rest,
    (String.length t <= fuel)%nat -> delimited rest = true ->
    Decoder.scan_once object_hook fuel (t ++ rest) = Ok (v, rest).

(** An item of an indented object: the key, the colon and the value. *)
Definition entry_text (k t : string) : string :=
  Encoder.encode_basestring_ascii k ++ ": " ++ t.

Definition entry_of (x : string * string * pyval) : string :=
  entry_text (fst (fst x)) (snd (fst x)).

Definition pair_of (x : string * string * pyval) : key * pyval :=
  (KStr (fst (fst x)), snd x).

(** The array as a tagged object, as [default] builds it. *)
Definition tagged (a : ndarray) : pyval :=
  PyDict [(KStr "__ndarray__", PyStr (Base64.b64encode (nd_data a)));
          (KStr "dtype", PyStr (Numpy.dtype_str (nd_dtype a)));
          (KStr "shape", PyTuple (map PyInt (nd_shape a)))].

Definition is_small (a : ndarray) : bool :=
  (Numpy.ndim a =? 1)%nat && (hd 0 (nd_shape a) <=? 10).

(** [round_trips hook other reloaded_other o]: whenever the dump of [o]
    succeeds and [o] reads back as [v], the decoder makes [v] of the text
    of the dump. *)
Definition round_trips (object_hook : pyval -> result pyval)
           (other : nat -> pyval -> Encoder.emit)
           (reloaded_other : pyval -> result pyval) (o : pyval) : Prop :=
  forall lvl v,
    snd (Encoder._iterencode_with other lvl o) = None ->
    reloaded_with object_hook reloaded_other o = Ok v ->
    reads object_hook (fst (Encoder._iterencode_with other lvl o)) v.

(** * Inputs of the examples *)

(** [s] between double quotes. *)
Definition quoted (s : string) : string :=
  String dquote (s ++ String dquote EmptyString).

(** [isinstance(data, dict)] *)
Definition is_dict (o : pyval) : bool :=
  match o with
  | PyDict _ => true
  | _ => false
  end.

(** The text of an object with the two keys ["03"] and ["3"]. *)
Definition leading_zero_text : string :=
  "{" ++ quoted "03" ++ ": 1, " ++ quoted "3" ++ ": 2}".

(** The text of a blob tag; the payload is the base64 of [QUJD], itself the
    base64 of [ABC]. *)
Definition blob_text : string :=
  "{" ++ quoted "__qbytearray__" ++ ": " ++ quoted "UVVKRA==" ++ "}".

(** A mapping whose nested mapping has the keys [1] and ["b"]. *)
Definition mixed_nested : pyval :=
  PyDict [(KStr "a", PyDict [(KInt 1, PyInt 0); (KStr "b", PyInt 0)])].

(** A mapping whose nested mapping has the integer key [1]. *)
Definition int_nested : pyval :=
  PyDict [(KStr "a", PyDict [(KInt 1, PyInt 2)])].

(** A mapping whose nested mapping has the integer keys [2] and [10]. *)
Definition two_ten_nested : pyval :=
  PyDict [(KStr "a", PyDict [(KInt 10, PyNone); (KInt 2, PyNone)])].


(** The array [np.array([[1.0, -2.0]], dtype=np.float32)]. *)
Definition float_row : ndarray :=
  mk_ndarray float32 [1; 2] [x00; x00; x80; x3f; x00; x00; x00; xc0].

(** Whether a key is an integer. *)
Definition is_int_key (k : key) : bool :=
  match k with
  | KInt _ => true
  | KStr _ => false
  end.

(** * Mappings that save and load *)

(** The keys that [_json_custom_hook] takes for a tag. *)
Definition tag_key (s : string) : bool :=
  (s =? "__ndarray__")%string || (s =? "__qbytearray__")%string.

(** [Numpy.wf_ndarray], decided. *)
Definition wf_ndarrayb (a : ndarray) : bool :=
  forallb (fun n => 0 <=? n) (nd_shape a)
  && (Z.of_nat (List.length (nd_data a))
      =? Z.of_nat (Numpy.itemsize (nd_dtype a)) * Numpy.prod (nd_shape a)).

(** Keys that are all integers or all strings. *)
Definition one_kind (ks : list key) : bool :=
  forallb is_int_key ks || forallb (fun k => negb (is_int_key k)) ks.

(** The values below the top level that the dump takes and that load
    again: scalars, numpy integers, well-formed arrays, lists and tuples of
    such values, and mappings of such values whose keys are of one kind and
    none of them a tag. *)
Fixpoint storable (o : pyval) : bool :=
  match o with
  | PyNone | PyBool _ | PyInt _ | PyStr _ => true
  | PyNpGeneric t _ => Numpy.is_integral t
  | PyList l | PyTuple l => forallb storable l
  | PyDict d =>
      one_kind (map fst d)
      && forallb (fun kv => negb (tag_key (key_str (fst kv))) && storable (snd kv)) d
  | PyNdarray a =>
      wf_ndarrayb a && (negb (is_small a) || Numpy.is_integral (nd_dtype a))
  | PyFloat _ _ | PyComplex _ _ | PyQByteArray _ | PyBytes _ => false
  end.

(** A string key that [str.isdigit] accepts is made of decimal digits
    (and not of superscript digits, which [int] refuses). *)
Definition key_ok (k : key) : bool :=
  match k with
  | KStr s => implb (isdigit s) (string_forallb is_decimal s)
  | KInt _ => true
  end.

(** The items of a top-level mapping that saves and loads. *)
Definition storable_items (d : list (key * pyval)) : bool :=
  forallb (fun kv => negb (tag_key (key_str (fst kv))) && key_ok (fst kv)
                     && storable (snd kv)) d.

(** Every key of every mapping in the value is a string. *)
Fixpoint string_keys (o : pyval) : bool :=
  match o with
  | PyList l | PyTuple l => forallb string_keys l
  | PyDict d =>
      forallb (fun kv => negb (is_int_key (fst kv)) && string_keys (snd kv)) d
  | _ => true
  end.

(** [setitems f acc l]: the dict [acc] after [acc[f(k)] = v] for every item
    [(k, v)] of [l] in turn. *)
Definition setitems {V : Type} (f : key -> key) (acc l : list (key * V))
  : list (key * V) :=
  fold_left (fun out kv => dict_setitem out (f (fst kv)) (snd kv)) l acc.


(** * The same mapping *)

(** Two values that are the same mapping: the same items at every level,
    whatever the order in which a dict got them.  The keys of a dict are
    distinct. *)
Unset Elimination Schemes.
Inductive same_mapping : pyval -> pyval -> Prop :=
| same_value (v : pyval) : same_mapping v v
| same_list (l1 l2 : list pyval) :
    Forall2 same_mapping l1 l2 -> same_mapping (PyList l1) (PyList l2)
| same_tuple (l1 l2 : list pyval) :
    Forall2 same_mapping l1 l2 -> same_mapping (PyTuple l1) (PyTuple l2)
| same_dict (d1 d d2 : list (key * pyval)) :
    NoDup (map fst d1) ->
    Permutation d1 d ->
    Forall2 (fun a b => fst a = fst b /\ same_mapping (snd a) (snd b)) d d2 ->
    same_mapping (PyDict d1) (PyDict d2).
Set Elimination Schemes.

(** [before a b]: the key of the item [a] is less than the key of [b]. *)
Definition before {V : Type} (a b : key * V) : Prop :=
  Encoder.key_lt (fst a) (fst b) = Ok true.

(** The chunks of an object whose items are written in the order of
    [items]. *)
Definition object_chunks (lvl : nat) (items : list (key * Encoder.emit))
  : Encoder.emit :=
  Encoder.andthen
    (Encoder.andthen
       (Encoder.andthen
          (Encoder.andthen (Encoder.yield "{")
             (Encoder.yield (Encoder.newline_indent (S lvl))))
          (Encoder.emit_join (Encoder.item_separator (S lvl)) true
             (map Encoder.entry items)))
       (Encoder.yield (Encoder.newline_indent lvl)))
    (Encoder.yield "}").

(** The text that [_save_json] writes for [two_ten_nested]: the key ["2"]
    before the key ["10"]. *)
Definition two_ten_text : string :=
  String "{"
    (Encoder.newline_indent 1 ++ quoted "a" ++ ": {"
       ++ Encoder.newline_indent 2 ++ quoted "2" ++ ": null,"
       ++ Encoder.newline_indent 2 ++ quoted "10" ++ ": null"
       ++ Encoder.newline_indent 1 ++ "}"
       ++ Encoder.newline_indent 0 ++ "}").




(** * Mappings that come back as they were *)

(** Values that a save and a load give back as they were: [None],
    booleans, integers, strings, lists of such values, and the arrays that
    are stored with their dtype and shape. *)
Fixpoint faithful (o : pyval) : bool :=
  match o with
  | PyNone | PyBool _ | PyInt _ | PyStr _ => true
  | PyList l => forallb faithful l
  | PyNdarray a => wf_ndarrayb a && negb (is_small a)
  | _ => false
  end.

(** The keys that [_stringify_keys] and [_intify_keys] give back: the
    integers that are not negative and the strings that [str.isdigit]
    refuses. *)
Definition restorable_key (k : key) : bool :=
  match k with
  | KInt n => 0 <=? n
  | KStr s => negb (isdigit s)
  end.

(** The items of a mapping that a save and a load give back. *)
Definition restorable_item (kv : key * pyval) : bool :=
  restorable_key (fst kv) && negb (tag_key (key_str (fst kv))) && faithful (snd kv).

(** A character of the ASCII range. *)
Definition is_ascii (c : ascii) : bool := (code c <? 128)%N.

(** The superscript two, a digit for [str.isdigit] and not for [int]. *)
Definition superscript_two : string := String (ascii_of_nat 178) EmptyString.
(** One turn of the loop of [_intify_keys]. *)
Definition intify_step (acc : result (list (key * pyval))) (kv : key * pyval)
  : result (list (key * pyval)) :=
  out <- acc ;; k <- intified (fst kv) ;; Ok (dict_setitem out k (snd kv)).

(** The keys that [_intify_keys] leaves in a mapping. *)
Definition loaded_key (k : key) : Prop :=
  match k with
  | KInt n => 0 <= n
  | KStr s => isdigit s = false
  end.

(** A key that is a string. *)
Definition string_key (k : key) : Prop :=
  match k with
  | KStr _ => True
  | KInt _ => False
  end.

(** * Various Python utility functions *)

(** ** Exceptions *)

(** The exceptions of the functions below: those of the JSON functions and
    the ones of the file system, of iterators, of sequences, of the import
    system and of [csv]. *)
Inductive error : Type :=
| Builtin (e : exn)
| FileNotFoundError
| NotADirectoryError
| IsADirectoryError
| FileExistsError
| StopIteration
| IndexError
| ModuleNotFoundError
| AttributeError
| CsvError.

Inductive outcome (A : Type) : Type :=
| Done (a : A)
| Fail (e : error).

Arguments Done {A} a.
Arguments Fail {A} e.

Definition and_then {A B : Type} (r : outcome A) (k : A -> outcome B) : outcome B :=
  match r with
  | Done a => k a
  | Fail e => Fail e
  end.

Notation "x <-- r ;; k" := (and_then r (fun x => k))
  (at level 61, r at next level, right associativity).
Notation "' p <-- r ;; k" := (and_then r (fun p => k))
  (at level 61, p pattern, r at next level, right associativity).

(** A computation of the JSON part as one of this part. *)
Definition lift {A : Type} (r : result A) : outcome A :=
  match r with
  | Ok a => Done a
  | Raise e => Fail (Builtin e)
  end.

(** [assert b] *)
Definition assert (b : bool) : outcome unit :=
  if b then Done tt else Fail (Builtin AssertionError).

(** ** Strings *)

Definition tab : ascii := ascii_of_nat 9.
Definition carriage_return : ascii := ascii_of_nat 13.

(** [c in s] for a character [c]. *)
Fixpoint contains (c : ascii) (s : string) : bool :=
  match s with
  | EmptyString => false
  | String x r => (x =? c)%char || contains c r
  end.

(** [s.startswith(p)] *)
Definition startswith (s p : string) : bool :=
  match Decoder.strip_prefix p s with
  | Some _ => true
  | None => false
  end.

(** [s.rsplit(sep, 1)] when [sep] occurs in [s]: what is before and what is
    after its last occurrence. *)
Fixpoint rsplit_at (sep : ascii) (s : string) : option (string * string) :=
  match s with
  | EmptyString => None
  | String c r =>
      match rsplit_at sep r with
      | Some (a, b) => Some (String c a, b)
      | None => if (c =? sep)%char then Some (EmptyString, r) else None
      end
  end.

(** [s.rsplit(sep, 1)] *)
Definition rsplit (sep : ascii) (s : string) : list string :=
  match rsplit_at sep s with
  | Some (a, b) => [a; b]
  | None => [s]
  end.

(** [parts[i]] *)
Definition index {A : Type} (parts : list A) (i : nat) : outcome A :=
  match nth_error parts i with
  | Some a => Done a
  | None => Fail IndexError
  end.

(** What a text file gives when it is read with universal newlines, the
    default of [open]: [\r\n] and [\r] are read as [\n]. *)
Fixpoint universal_newlines (s : string) : string :=
  match s with
  | EmptyString => EmptyString
  | String c r =>
      if (c =? carriage_return)%char then
        String newline
          match r with
          | String c' r' =>
              if (c' =? newline)%char then universal_newlines r'
              else universal_newlines r
          | EmptyString => EmptyString
          end
      else String c (universal_newlines r)
  end.

(** The lines of a text as the iteration over a file gives them, each with
    its line end; the last line may have none. *)
Fixpoint lines_of (s : string) : list string :=
  match s with
  | EmptyString => []
  | String c r =>
      if (c =? newline)%char then String c EmptyString :: lines_of r
      else
        match lines_of r with
        | [] => [String c EmptyString]
        | l :: ls => String c l :: ls
        end
  end.

(** [f.readline()] on a file just opened: the first line, or the empty
    string at the end of the file. *)
Definition readline (s : string) : string := hd EmptyString (lines_of s).

(** [text.split('\n')]: the pieces between the line feeds. *)
Fixpoint split_lines (s : string) : list string :=
  match s with
  | EmptyString => [EmptyString]
  | String c r =>
      if (c =? newline)%char then EmptyString :: split_lines r
      else
        match split_lines r with
        | [] => [String c EmptyString]
        | l :: ls => String c l :: ls
        end
  end.

(** ['\n'.join(lines)] *)
Fixpoint join_lines (ls : list string) : string :=
  match ls with
  | [] => EmptyString
  | [l] => l
  | l :: r => l ++ String newline (join_lines r)
  end.

(** ** [int] of a string *)

Module Builtins.

(** [Py_ISSPACE]: the whitespace of ASCII. *)
Definition is_space (c : ascii) : bool :=
  in_range 9 13 c || (code c =? 32)%N.

(** [_PyUnicode_TransformDecimalAndSpaceToASCII] on the code points below
    256: the ASCII characters stay, the two other spaces (U+0085, U+00A0)
    become a space, and no other character is a decimal digit. *)
Definition to_ascii (c : ascii) : option ascii :=
  if (code c <? 127)%N then Some c
  else if (code c =? 133)%N || (code c =? 160)%N then Some " "%char
  else None.

Fixpoint transform (s : string) : option string :=
  match s with
  | EmptyString => Some EmptyString
  | String c r =>
      match to_ascii c, transform r with
      | Some c', Some r' => Some (String c' r')
      | _, _ => None
      end
  end.

Fixpoint skip_spaces (s : string) : string :=
  match s with
  | EmptyString => EmptyString
  | String c r => if is_space c then skip_spaces r else s
  end.

(** The digits of [long_from_string_base], with one underscore allowed
    between two digits: the digits read, most significant first, and what
    follows them; [None] when two underscores meet or the last character
    read is an underscore.  [prev] tells whether the character before was
    an underscore. *)
Fixpoint scan_digits (prev : bool) (s : string) : option (list ascii * string) :=
  match s with
  | EmptyString => if prev then None else Some ([], s)
  | String c r =>
      if is_decimal c then
        match scan_digits false r with
        | Some (ds, r') => Some (c :: ds, r')
        | None => None
        end
      else if (c =? "_")%char then
        if prev then None else scan_digits true r
      else if prev then None else Some ([], s)
  end.

Definition digit_value (c : ascii) : Z := Z.of_N (code c) - 48.

(** The number that the digits are in base ten. *)
Definition number (ds : list ascii) : Z :=
  fold_left (fun n c => 10 * n + digit_value c) ds 0.

(** [int(s)] for a string [s], in base ten ([PyLong_FromString]): spaces
    around, an optional sign, and digits with single underscores between
    them. *)
Definition int (s : string) : result Z :=
  match transform s with
  | None => Raise ValueError
  | Some s =>
      let s := skip_spaces s in
      let '(negative, s) :=
        match s with
        | String c r =>
            if (c =? "+")%char then (false, r)
            else if (c =? "-")%char then (true, r)
            else (false, s)
        | EmptyString => (false, s)
        end in
      if startswith s "_" then Raise ValueError
      else
        match scan_digits false s with
        | None | Some ([], _) => Raise ValueError
        | Some (ds, rest) =>
            match skip_spaces rest with
            | EmptyString => Ok (if (negative : bool) then - number ds else number ds)
            | _ => Raise ValueError
            end
        end
  end.

(** [str(v)] for the values whose text is modelled. *)
Definition str (v : pyval) : result string :=
  match v with
  | PyStr s => Ok s
  | PyInt n => Ok (intstr n)
  | PyBool true => Ok "True"
  | PyBool false => Ok "False"
  | PyNone => Ok "None"
  | _ => Raise NotModelled
  end.

End Builtins.

(** ** The file system *)

(** Paths are absolute and without links or dots: a path is the root or a
    name in a directory.  Every operation is permitted to the process, and
    a text is written and read in an encoding that has all its
    characters. *)

Module Pathlib.

Inductive path : Type :=
| root
| child (dir : path) (name : string).

Fixpoint path_eqb (p q : path) : bool :=
  match p, q with
  | root, root => true
  | child p' a, child q' b => (a =? b)%string && path_eqb p' q'
  | _, _ => false
  end.

(** [path.parent]; the root is its own parent. *)
Definition parent (p : path) : path :=
  match p with
  | root => root
  | child q _ => q
  end.

(** [path.name] *)
Definition name (p : path) : string :=
  match p with
  | root => EmptyString
  | child _ n => n
  end.

(** [path.suffix]: the name from its last dot on, when this dot is neither
    the first nor the last character of the name. *)
Definition suffix (p : path) : string :=
  match rsplit_at "." (name p) with
  | Some (String _ _, String c r) => String "." (String c r)
  | _ => EmptyString
  end.

(** What is at a path: a regular file with its text, or a directory. *)
Inductive node : Type :=
| File (contents : string)
| Dir.

(** The file system: what is at each path, if anything. *)
Definition fs : Type := path -> option node.

Definition update (t : fs) (p : path) (n : node) : fs :=
  fun q => if path_eqb q p then Some n else t q.

Inductive errno : Type := ENOENT | ENOTDIR | EEXIST | EISDIR.

(** The subclass of [OSError] that an error number is raised as. *)
Definition oserror (e : errno) : error :=
  match e with
  | ENOENT => FileNotFoundError
  | ENOTDIR => NotADirectoryError
  | EEXIST => FileExistsError
  | EISDIR => IsADirectoryError
  end.

(** [os.stat]: the path is walked from the root; a name that is missing
    is [ENOENT], a name looked up in a regular file is [ENOTDIR]. *)
Fixpoint stat (t : fs) (p : path) : errno + node :=
  match p with
  | root => match t root with Some n => inr n | None => inl ENOENT end
  | child q _ =>
      match stat t q with
      | inl e => inl e
      | inr (File _) => inl ENOTDIR
      | inr Dir => match t p with Some n => inr n | None => inl ENOENT end
      end
  end.

(** [path.exists()]: [ENOENT] and [ENOTDIR] are not raised, they mean
    that the path does not exist. *)
Definition exists_ (t : fs) (p : path) : bool :=
  match stat t p with
  | inr _ => true
  | inl _ => false
  end.

(** [path.is_dir()] *)
Definition is_dir (t : fs) (p : path) : bool :=
  match stat t p with
  | inr Dir => true
  | _ => false
  end.

(** [os.mkdir]: the parent is resolved first, then the name must be
    new. *)
Definition os_mkdir (t : fs) (p : path) : errno + fs :=
  match p with
  | root => inl EEXIST
  | child q _ =>
      match stat t q with
      | inl e => inl e
      | inr (File _) => inl ENOTDIR
      | inr Dir =>
          match t p with
          | Some _ => inl EEXIST
          | None => inr (update t p Dir)
          end
      end
  end.

(** [path.mkdir(parents=False, exist_ok=exist_ok)] *)
Definition mkdir (t : fs) (p : path) (exist_ok : bool) : fs * outcome unit :=
  match os_mkdir t p with
  | inr t' => (t', Done tt)
  | inl ENOENT => (t, Fail FileNotFoundError)
  | inl e =>
      if negb exist_ok || negb (is_dir t p) then (t, Fail (oserror e))
      else (t, Done tt)
  end.

(** [path.mkdir(parents=True, exist_ok=exist_ok)]: on [FileNotFoundError]
    the parent is made with its parents, and the directory is made
    again, without [parents]. *)
Fixpoint mkdir_parents (t : fs) (p : path) (exist_ok : bool) {struct p}
  : fs * outcome unit :=
  match os_mkdir t p with
  | inr t' => (t', Done tt)
  | inl ENOENT =>
      match p with
      | root => (t, Fail FileNotFoundError)
      | child q _ =>
          match mkdir_parents t q true with
          | (t1, Done _) => mkdir t1 p exist_ok
          | (t1, Fail e) => (t1, Fail e)
          end
      end
  | inl e =>
      if negb exist_ok || negb (is_dir t p) then (t, Fail (oserror e))
      else (t, Done tt)
  end.

(** [path.open('w')]: the file is made, or emptied when it is there. *)
Definition open_w (t : fs) (p : path) : errno + fs :=
  match p with
  | root => inl EISDIR
  | child q _ =>
      match stat t q with
      | inl e => inl e
      | inr (File _) => inl ENOTDIR
      | inr Dir =>
          match t p with
          | Some Dir => inl EISDIR
          | _ => inr (update t p (File EmptyString))
          end
      end
  end.

(** The text of the file that [path.open('r')] opens, as it is stored. *)
Definition open_r (t : fs) (p : path) : outcome string :=
  match stat t p with
  | inl e => Fail (oserror e)
  | inr Dir => Fail IsADirectoryError
  | inr (File s) => Done s
  end.

(** [path.write_text(data)]; a line feed is written as it is. *)
Definition write_text (t : fs) (p : path) (data : string) : fs * outcome unit :=
  match open_w t p with
  | inl e => (t, Fail (oserror e))
  | inr t' => (update t' p (File data), Done tt)
  end.

(** [path.read_text()] *)
Definition read_text (t : fs) (p : path) : outcome string :=
  s <-- open_r t p ;; Done (universal_newlines s).

End Pathlib.

Import Pathlib.

(** [_ensure_dir_exists] *)
Definition _ensure_dir_exists (t : fs) (path : path) : fs * outcome unit :=
  let '(t, r) :=
    if exists_ t path then (t, assert (is_dir t path))
    else mkdir_parents t path true in
  match r with
  | Fail e => (t, Fail e)
  | Done _ => (t, assert (exists_ t path && is_dir t path))
  end.

(** [_read_text] *)
Definition _read_text (t : fs) (path : path) : outcome string :=
  read_text t path.

(** ** [textwrap.dedent] *)

(** [dedent] with its two regular expressions, read on the lines of the
    text: in multi-line mode [^] and [$] match at the ends of the pieces
    between the line feeds. *)

Module Textwrap.

(** A character of the class [[ \t]]. *)
Definition is_blank (c : ascii) : bool := (c =? " ")%char || (c =? tab)%char.

(** A line that [_whitespace_only_re], [^[ \t]+$], matches. *)
Definition whitespace_only (l : string) : bool :=
  negb (l =? "")%string && string_forallb is_blank l.

(** [_whitespace_only_re.sub('', text)] on a line. *)
Definition blanked (l : string) : string :=
  if whitespace_only l then EmptyString else l.

(** The group that [_leading_whitespace_re] captures: the blanks at the
    head of a line. *)
Fixpoint leading (l : string) : string :=
  match l with
  | EmptyString => EmptyString
  | String c r => if is_blank c then String c (leading r) else EmptyString
  end.

(** Whether [_leading_whitespace_re] matches on a line: after the blanks
    at its head comes a character that is neither a blank nor a line
    feed. *)
Definition has_indent (l : string) : bool := negb (string_forallb is_blank l).

(** [_leading_whitespace_re.findall(text)] *)
Definition indents (ls : list string) : list string :=
  map leading (filter has_indent ls).

(** [margin[:i]] for the first [i] at which [margin] and [indent]
    differ. *)
Fixpoint up_to_difference (margin indent : string) : string :=
  match margin, indent with
  | String x m, String y i =>
      if (x =? y)%char then String x (up_to_difference m i) else EmptyString
  | _, _ => EmptyString
  end.

(** One turn of the loop over the indents. *)
Definition narrow (margin : option string) (indent : string) : option string :=
  match margin with
  | None => Some indent
  | Some m =>
      if startswith indent m then Some m
      else if startswith m indent then Some indent
      else Some (up_to_difference m indent)
  end.

(** [re.sub(r'(?m)^' + margin, '', text)] on a line. *)
Definition unindent (margin l : string) : string :=
  match Decoder.strip_prefix margin l with
  | Some r => r
  | None => l
  end.

(** [textwrap.dedent(text)] *)
Definition dedent (text : string) : string :=
  let ls := map blanked (split_lines text) in
  let margin := fold_left narrow (indents ls) None in
  match margin with
  | None | Some EmptyString => join_lines ls
  | Some m => join_lines (map (unindent m) ls)
  end.

End Textwrap.

(** [_write_text] *)
Definition _write_text (t : fs) (path : path) (contents : string)
  : fs * outcome unit :=
  let contents := Textwrap.dedent contents in
  match _ensure_dir_exists t (parent path) with
  | (t, Fail e) => (t, Fail e)
  | (t, Done _) => write_text t path contents
  end.

(** ** [csv] *)

(** The writer and the reader of [_csv.c] with the dialect that
    [_write_tsv] and [_read_tsv] use: the delimiter given, the double quote
    for [quotechar], [doublequote], no [escapechar], no [skipinitialspace],
    [QUOTE_MINIMAL], [\r\n] for [lineterminator] and no [strict] mode.  A
    NUL character is a character like another (CPython 3.11 and later). *)

Module Csv.

(** *** The writer *)

(** The characters of a field that make [QUOTE_MINIMAL] quote it. *)
Definition special (delimiter c : ascii) : bool :=
  (c =? delimiter)%char || (c =? dquote)%char
  || (c =? carriage_return)%char || (c =? newline)%char.

(** The loop of [join_append_data] over the characters of a field: what
    is copied, a quote doubled, and whether the field is to be quoted. *)
Fixpoint field_data (delimiter : ascii) (field : string) : string * bool :=
  match field with
  | EmptyString => (EmptyString, false)
  | String c r =>
      let '(copied, quoted) := field_data delimiter r in
      if (c =? dquote)%char then (String dquote (String c copied), true)
      else (String c copied, special delimiter c || quoted)
  end.

(** [join_append]: the record with one more field; [field] is [None] for
    the value [None], which is written as nothing. *)
Definition join_append (delimiter : ascii) (rec : string) (num_fields : nat)
           (field : option string) (quoted : bool) : string :=
  let '(copied, quoted') :=
    match field with
    | Some s => field_data delimiter s
    | None => (EmptyString, false)
    end in
  rec ++ (if (0 <? num_fields)%nat then String delimiter EmptyString else EmptyString)
      ++ (if quoted || quoted'
          then String dquote (copied ++ String dquote EmptyString)
          else copied).

(** The text of a field: a string as it is, [None] as no text, anything
    else through [str]. *)
Definition field_text (v : pyval) : result (option string) :=
  match v with
  | PyStr s => Ok (Some s)
  | PyNone => Ok None
  | _ => s <- Builtins.str v ;; Ok (Some s)
  end.

Fixpoint join_fields (delimiter : ascii) (rec : string) (num_fields : nat)
         (row : list pyval) : result (string * nat) :=
  match row with
  | [] => Ok (rec, num_fields)
  | v :: r =>
      field <- field_text v ;;
      join_fields delimiter (join_append delimiter rec num_fields field false)
        (S num_fields) r
  end.

(** [writer.writerow(row)]: the line that is written.  A record of one
    empty field is written as a pair of quotes. *)
Definition writerow (delimiter : ascii) (row : list pyval) : result string :=
  '(rec, num_fields) <- join_fields delimiter EmptyString 0 row ;;
  let rec :=
    if (0 <? num_fields)%nat && (rec =? "")%string
    then join_append delimiter rec (num_fields - 1) None true
    else rec in
  Ok (rec ++ String carriage_return (String newline EmptyString)).

(** [writer.writerows(rows)] on a file that holds [text]: the lines are
    written one after the other, and those before a row that cannot be
    written stay in the file. *)
Fixpoint writerows (delimiter : ascii) (text : string) (rows : list (list pyval))
  : string * result unit :=
  match rows with
  | [] => (text, Ok tt)
  | row :: r =>
      match writerow delimiter row with
      | Raise e => (text, Raise e)
      | Ok line => writerows delimiter (text ++ line) r
      end
  end.

(** *** The reader *)

(** The states of the parser that can be reached without an
    [escapechar]. *)
Inductive state : Type :=
| START_RECORD
| START_FIELD
| IN_FIELD
| IN_QUOTED_FIELD
| QUOTE_IN_QUOTED_FIELD
| EAT_CRNL.

Definition state_eqb (a b : state) : bool :=
  match a, b with
  | START_RECORD, START_RECORD | START_FIELD, START_FIELD | IN_FIELD, IN_FIELD
  | IN_QUOTED_FIELD, IN_QUOTED_FIELD
  | QUOTE_IN_QUOTED_FIELD, QUOTE_IN_QUOTED_FIELD | EAT_CRNL, EAT_CRNL => true
  | _, _ => false
  end.

(** The reader between two characters: its state, the fields of the record
    read so far and the characters of the field being read. *)
Record parser : Type := mk_parser {
  p_state : state;
  p_fields : list string;
  p_field : string
}.

(** [parse_reset] *)
Definition parse_reset : parser := mk_parser START_RECORD [] EmptyString.

(** [csv.field_size_limit()] *)
Definition field_limit : N := 131072.

(** [parse_add_char] *)
Definition parse_add_char (p : parser) (st : state) (c : ascii) : outcome parser :=
  if (field_limit <=? N.of_nat (String.length (p_field p)))%N then Fail CsvError
  else Done (mk_parser st (p_fields p) (p_field p ++ String c EmptyString)).

(** [parse_save_field] *)
Definition parse_save_field (p : parser) (st : state) : parser :=
  mk_parser st (p_fields p ++ [p_field p]) EmptyString.

Definition set_state (p : parser) (st : state) : parser :=
  mk_parser st (p_fields p) (p_field p).

Definition is_eol (c : option ascii) : bool :=
  match c with
  | None => true
  | Some c => (c =? newline)%char || (c =? carriage_return)%char
  end.

(** The state after the end of a field at a line end: [EOL] is [None]. *)
Definition after_line_end (c : option ascii) : state :=
  match c with
  | None => START_RECORD
  | Some _ => EAT_CRNL
  end.

(** [parse_process_char]; the end of a line, [EOL], is [None]. *)
Definition parse_process_char (delimiter : ascii) (p : parser) (c : option ascii)
  : outcome parser :=
  let start_field :=
    match c with
    | None => Done (parse_save_field p START_RECORD)
    | Some ch =>
        if is_eol c then Done (parse_save_field p EAT_CRNL)
        else if (ch =? dquote)%char then Done (set_state p IN_QUOTED_FIELD)
        else if (ch =? delimiter)%char then Done (parse_save_field p START_FIELD)
        else parse_add_char p IN_FIELD ch
    end in
  match p_state p with
  | START_RECORD =>
      match c with
      | None => Done p
      | Some ch => if is_eol c then Done (set_state p EAT_CRNL) else start_field
      end
  | START_FIELD => start_field
  | IN_FIELD =>
      match c with
      | None => Done (parse_save_field p START_RECORD)
      | Some ch =>
          if is_eol c then Done (parse_save_field p EAT_CRNL)
          else if (ch =? delimiter)%char then Done (parse_save_field p START_FIELD)
          else parse_add_char p IN_FIELD ch
      end
  | IN_QUOTED_FIELD =>
      match c with
      | None => Done p
      | Some ch =>
          if (ch =? dquote)%char then Done (set_state p QUOTE_IN_QUOTED_FIELD)
          else parse_add_char p IN_QUOTED_FIELD ch
      end
  | QUOTE_IN_QUOTED_FIELD =>
      match c with
      | None => Done (parse_save_field p START_RECORD)
      | Some ch =>
          if (ch =? dquote)%char then parse_add_char p IN_QUOTED_FIELD ch
          else if (ch =? delimiter)%char then Done (parse_save_field p START_FIELD)
          else if is_eol c then Done (parse_save_field p EAT_CRNL)
          else parse_add_char p IN_FIELD ch
      end
  | EAT_CRNL =>
      match c with
      | None => Done (set_state p START_RECORD)
      | Some ch => if is_eol c then Done p else Fail CsvError
      end
  end.

(** The loop of [Reader_iternext] over the characters of a line. *)
Fixpoint parse_line (delimiter : ascii) (p : parser) (line : string)
  : outcome parser :=
  match line with
  | EmptyString => Done p
  | String c r =>
      p' <-- parse_process_char delimiter p (Some c) ;;
      parse_line delimiter p' r
  end.

(** The loop of [Reader_iternext] over the lines, from the parser [p]:
    the record and the lines that are left.  At the end of the lines a
    field that was begun closes the record, otherwise the iteration
    stops. *)
Fixpoint read_record (delimiter : ascii) (p : parser) (lines : list string)
  : outcome (list string * list string) :=
  match lines with
  | [] =>
      if negb (p_field p =? "")%string || state_eqb (p_state p) IN_QUOTED_FIELD
      then Done (p_fields (parse_save_field p START_RECORD), [])
      else Fail StopIteration
  | line :: rest =>
      p1 <-- parse_line delimiter p line ;;
      p2 <-- parse_process_char delimiter p1 None ;;
      if state_eqb (p_state p2) START_RECORD then Done (p_fields p2, rest)
      else read_record delimiter p2 rest
  end.

(** [next(reader)] *)
Definition next (delimiter : ascii) (lines : list string)
  : outcome (list string * list string) :=
  read_record delimiter parse_reset lines.

End Csv.

(** ** Tables of two columns *)

(** A key of a dict as a value. *)
Definition key_value (k : key) : pyval :=
  match k with
  | KInt n => PyInt n
  | KStr s => PyStr s
  end.

(** [a, b = row]: the row must have two fields. *)
Definition unpack2 (row : list string) : outcome (string * string) :=
  match row with
  | [a; b] => Done (a, b)
  | _ => Fail (Builtin ValueError)
  end.

(** The loop [for row in reader] of [_read_tsv]; [fuel] bounds the number
    of rows, and the number of lines is enough. *)
Fixpoint read_rows (fuel : nat) (delimiter : ascii) (lines : list string)
         (data : list (key * pyval)) : outcome (list (key * pyval)) :=
  match fuel with
  | O => Fail (Builtin NotModelled)
  | S fuel =>
      match Csv.next delimiter lines with
      | Fail StopIteration => Done data
      | Fail e => Fail e
      | Done (row, rest) =>
          '(cluster_id, value) <-- unpack2 row ;;
          cluster_id <-- lift (Builtins.int cluster_id) ;;
          read_rows fuel delimiter rest
            (dict_setitem data (KInt cluster_id) (PyStr value))
      end
  end.

(** [_read_tsv]: the pair of the name of the field and the dict, or the
    empty dict alone when there is no file.  The messages to the logger
    are left out. *)
Definition _read_tsv (t : fs) (path : path) : outcome pyval :=
  let data := [] in
  if negb (exists_ t path) then Done (PyDict data)
  else
    text <-- read_text t path ;;
    let delimiter := if contains tab (readline text) then tab else ","%char in
    text <-- read_text t path ;;
    '(header, rest) <-- Csv.next delimiter (lines_of text) ;;
    '(_, field_name) <-- unpack2 header ;;
    data <-- read_rows (S (List.length rest)) delimiter rest data ;;
    Done (PyTuple [PyStr field_name; PyDict data]).

(** [data[cluster_id]] *)
Definition data_item (data : list (key * pyval)) (cluster_id : key) : result pyval :=
  match dict_get data cluster_id with
  | Some v => Ok v
  | None => Raise KeyError
  end.

(** [[(cluster_id, data[cluster_id]) for cluster_id in sorted(data)]] *)
Definition sorted_rows (data : list (key * pyval)) : result (list (list pyval)) :=
  keys <- Encoder.sorted (map (fun kv => (fst kv, tt)) data) ;;
  sequence (map (fun kt => v <- data_item data (fst kt) ;; Ok [key_value (fst kt); v])
              keys).

(** [_write_tsv].  The file is opened for writing with [newline=''], so
    the line ends of the writer are stored as they are; what was written
    before an exception stays in the file. *)
Definition _write_tsv (t : fs) (path : path) (field_name : pyval)
           (data : list (key * pyval)) : fs * outcome unit :=
  match _ensure_dir_exists t (parent path) with
  | (t, Fail e) => (t, Fail e)
  | (t, Done _) =>
      let delimiter := if (suffix path =? ".tsv")%string then tab else ","%char in
      match open_w t path with
      | inl e => (t, Fail (oserror e))
      | inr t =>
          match Csv.writerow delimiter [PyStr "cluster_id"; field_name] with
          | Raise e => (t, Fail (Builtin e))
          | Ok header =>
              match sorted_rows data with
              | Raise e => (update t path (File header), Fail (Builtin e))
              | Ok rows =>
                  let '(text, r) := Csv.writerows delimiter header rows in
                  (update t path (File text), lift r)
              end
          end
      end
  end.

(** ** Names of objects *)

(** An object that has a name in a module: a function or a class.  Two
    objects with the same module and name are told apart by [obj_id]. *)
Record object : Type := mk_object {
  __module__ : option string;
  __name__ : string;
  obj_id : nat
}.

(** The modules that can be imported, each with its attributes. *)
Definition modules : Type := string -> option (string -> option object).

(** [_fullname]; a module that is [None] or the empty string counts for
    none. *)
Definition _fullname (o : object) : string :=
  match __module__ o with
  | Some (String c m) => String c m ++ "." ++ __name__ o
  | _ => __name__ o
  end.

(** [importlib.import_module(name)] with no package: a relative name is a
    [TypeError], the empty name a [ValueError]. *)
Definition import_module (env : modules) (name : string)
  : outcome (string -> option object) :=
  if startswith name "." then Fail (Builtin TypeError)
  else if (name =? "")%string then Fail (Builtin ValueError)
  else
    match env name with
    | Some m => Done m
    | None => Fail ModuleNotFoundError
    end.

(** [getattr(module, name)] *)
Definition getattr (m : string -> option object) (name : string) : outcome object :=
  match m name with
  | Some o => Done o
  | None => Fail AttributeError
  end.

(** What [_load_from_fullname] is given: a string or an object. *)
Inductive name_or_object : Type :=
| Name (s : string)
| Object (o : object).

(** [_load_from_fullname]: the module is imported before [parts[1]] is
    looked at. *)
Definition _load_from_fullname (env : modules) (name : name_or_object)
  : outcome object :=
  match name with
  | Object o => Done o
  | Name s =>
      let parts := rsplit "." s in
      first <-- index parts 0 ;;
      m <-- import_module env first ;;
      second <-- index parts 1 ;;
      getattr m second
  end.

(** ** Well-formed file systems *)

(** The root is a directory, and what is at a path is in a directory. *)
Definition wf_fs (t : fs) : Prop :=
  t root = Some Dir /\
  forall p n, t (child p n) <> None -> t p = Some Dir.

(** [below p q]: [q] is [p] or a path under [p]. *)
Fixpoint below (p q : path) : bool :=
  path_eqb q p ||
  match q with
  | root => false
  | child q' _ => below p q'
  end.

(** No regular file is at the path or at a path above it. *)
Fixpoint no_file_above (t : fs) (p : path) : bool :=
  match t p with
  | Some (File _) => false
  | _ =>
      match p with
      | root => true
      | child q _ => no_file_above t q
      end
  end.

(** The number of names of a path. *)
Fixpoint depth (p : path) : nat :=
  match p with
  | root => 0
  | child q _ => S (depth q)
  end.

(** The file system with the directories down to [p] made where nothing
    was. *)
Definition with_dirs (t : fs) (p : path) : fs :=
  fun x =>
    match t x with
    | Some n => Some n
    | None => if below x p then Some Dir else None
    end.

(** A file system with nothing but the root. *)
Definition empty_fs : fs :=
  fun p => match p with root => Some Dir | child _ _ => None end.

(** An object of the module [phylib.utils], and the modules that hold it. *)
Definition Bunch : object := mk_object (Some "phylib.utils") "Bunch" 0.

Definition phylib_modules : modules :=
  fun m => if (m =? "phylib.utils")%string
           then Some (fun a => if (a =? "Bunch")%string then Some Bunch else None)
           else None.

(** ** Indented texts *)

(** A line with a margin before it; an empty line stays empty. *)
Definition indented (margin l : string) : string :=
  if (l =? "")%string then l else margin ++ l.

(** A line that starts with a character that is not a blank. *)
Definition starts_unindented (l : string) : bool :=
  match l with
  | String c _ => negb (Textwrap.is_blank c)
  | EmptyString => false
  end.

(** A line of a text: it holds no line feed, and it is not made of blanks
    only. *)
Definition text_line (l : string) : bool :=
  negb (contains newline l) && negb (Textwrap.whitespace_only l).

(** ** Tables that come back *)

(** The text of a value in a table: nothing for [None]. *)
Definition cell (v : pyval) : option string :=
  match Csv.field_text v with
  | Ok (Some s) => Some s
  | Ok None => Some EmptyString
  | Raise _ => None
  end.

(** A text that a table gives back: it holds no carriage return, which
    is read as a line feed, and it is not longer than the reader lets a
    field be. *)
Definition cell_text_ok (s : string) : bool :=
  negb (contains carriage_return s)
  && (N.of_nat (String.length s) <=? Csv.field_limit)%N.

Definition cell_ok (v : pyval) : bool :=
  match cell v with
  | Some s => cell_text_ok s
  | None => false
  end.

(** The value that is read for a value written. *)
Definition as_cell (v : pyval) : pyval :=
  PyStr match cell v with Some s => s | None => EmptyString end.

(** The text of a field in a line: between quotes when [field_data] says
    so. *)
Definition field_written (delimiter : ascii) (s : string) : string :=
  let '(copied, quoted) := Csv.field_data delimiter s in
  if quoted then String dquote (copied ++ String dquote EmptyString) else copied.

(** The line of a record of two fields, with the line end [eol]. *)
Definition line_of (delimiter : ascii) (eol a b : string) : string :=
  field_written delimiter a ++ String delimiter (field_written delimiter b ++ eol).

Definition crlf : string := String carriage_return (String newline EmptyString).
Definition lf : string := String newline EmptyString.

(** The lines of a table, one after the other. *)
Fixpoint lines_written (delimiter : ascii) (eol : string) (rows : list (string * string))
  : string :=
  match rows with
  | [] => EmptyString
  | (a, b) :: r => line_of delimiter eol a b ++ lines_written delimiter eol r
  end.

(** The delimiters of [_write_tsv]. *)
Definition is_delimiter (c : ascii) : bool := (c =? tab)%char || (c =? ",")%char.

(** The text that is written for a value. *)
Definition cell_text (v : pyval) : string :=
  match cell v with Some s => s | None => EmptyString end.

(** The two texts of the line of an item. *)
Definition item_cells (kv : key * pyval) : string * string :=
  (cell_text (key_value (fst kv)), cell_text (snd kv)).

(** The record that is written for an item. *)
Definition item_row (kv : key * pyval) : list pyval := [key_value (fst kv); snd kv].

(** An item that a table gives back: its key is an integer, and the texts
    of its key and of its value are texts that a table gives back. *)
Definition table_item (kv : key * pyval) : bool :=
  is_int_key (fst kv) && cell_ok (key_value (fst kv)) && cell_ok (snd kv).

(** The delimiter that [_write_tsv] takes for a path. *)
Definition delimiter_of (p : path) : ascii :=
  if (suffix p =? ".tsv")%string then tab else ","%char.

(** * Facts *)

(** [lia] with division and remainder by constants. *)
Ltac Zify.zify_post_hook ::= Z.to_euclidean_division_equations.

(** ** Strings *)

Lemma append_nil_r (s : string) : s ++ "" = s.
Proof. induction s as [|c s IH]; simpl; [reflexivity | now rewrite IH]. Qed.

Lemma append_assoc (a b c : string) : (a ++ b) ++ c = a ++ (b ++ c).
Proof. induction a as [|x a IH]; simpl; [reflexivity | now rewrite IH]. Qed.

Lemma length_append (a b : string) :
  String.length (a ++ b) = (String.length a + String.length b)%nat.
Proof. induction a as [|x a IH]; simpl; [reflexivity | now rewrite IH]. Qed.

Lemma string_forallb_append (p : ascii -> bool) (a b : string) :
  string_forallb p (a ++ b) = string_forallb p a && string_forallb p b.
Proof.
  induction a as [|x a IH]; simpl; [reflexivity|].
  now rewrite IH, andb_assoc.
Qed.

(** ** Finite case analyses *)

Lemma N_forall_below (k : nat) (p : N -> bool) :
  forallb p (map N.of_nat (seq 0 k)) = true ->
  forall n, (n < N.of_nat k)%N -> p n = true.
Proof.
  intros H n Hn. rewrite forallb_forall in H. apply H.
  rewrite <- (N2Nat.id n). apply in_map, in_seq. lia.
Qed.

Lemma ascii_forall (p : ascii -> bool) :
  forallb (fun n => p (ascii_of_N n)) (map N.of_nat (seq 0 256)) = true ->
  forall c, p c = true.
Proof.
  intros H c. rewrite <- (ascii_N_embedding c).
  apply (N_forall_below 256 (fun n => p (ascii_of_N n)) H).
  apply N_ascii_bounded.
Qed.

(** ** base64 *)

Lemma byte_of_to_N (b : byte) : Base64.byte_of_N (Byte.to_N b) = b.
Proof. unfold Base64.byte_of_N. now rewrite Byte.of_to_N. Qed.

Lemma to_N_lt (b : byte) : (Byte.to_N b < 256)%N.
Proof. pose proof (Byte.to_N_bounded b). lia. Qed.

Lemma sextet_of_char_of_sextet (n : N) :
  (n < 64)%N ->
  Base64.sextet_of_char (Base64.char_of_sextet n) = Some n /\
  (Base64.char_of_sextet n =? Base64.pad)%char = false /\
  (code (Base64.char_of_sextet n) <? 128)%N = true.
Proof.
  intros Hn.
  pose (p := fun n =>
    match Base64.sextet_of_char (Base64.char_of_sextet n) with
    | Some m => (m =? n)%N
    | None => false
    end
    && negb (Base64.char_of_sextet n =? Base64.pad)%char
    && (code (Base64.char_of_sextet n) <? 128)%N).
  assert (Hp : p n = true)
    by (apply (N_forall_below 64 p); [vm_compute; reflexivity | exact Hn]).
  unfold p in Hp.
  apply andb_prop in Hp as [Hp H3]. apply andb_prop in Hp as [H1 H2].
  destruct (Base64.sextet_of_char (Base64.char_of_sextet n)) as [m|];
    [|discriminate].
  apply N.eqb_eq in H1. subst m.
  rewrite negb_true_iff in H2. auto.
Qed.

Lemma list_ind3 {A : Type} (P : list A -> Prop) :
  P [] -> (forall x, P [x]) -> (forall x y, P [x; y]) ->
  (forall x y z r, P r -> P (x :: y :: z :: r)) ->
  forall l, P l.
Proof.
  intros H0 H1 H2 H3 l.
  enough (H : P l /\ (forall x, P (x :: l)) /\ (forall x y, P (x :: y :: l)))
    by apply H.
  induction l as [|a l (IHa & IHb & IHc)]; auto.
Qed.

Ltac sextet_step :=
  match goal with
  | |- context [Base64.sextet_of_char (Base64.char_of_sextet ?n)] =>
      let H := fresh in
      assert (H : (n < 64)%N) by lia;
      destruct (sextet_of_char_of_sextet n H) as (-> & -> & _); clear H
  end.

Lemma byte_of_N_eq (n : N) (x : byte) : n = Byte.to_N x -> Base64.byte_of_N n = x.
Proof. intros ->. apply byte_of_to_N. Qed.

Ltac bytes_eq :=
  repeat match goal with
         | |- Ok _ = Ok _ => apply f_equal
         | |- _ :: _ = _ :: _ => f_equal
         | |- Base64.byte_of_N _ = _ => apply byte_of_N_eq; lia
         end.

Lemma a2b_b64encode (b : list byte) :
  Base64.a2b_base64 0 0 0 (Base64.b64encode b) = Ok b.
Proof.
  induction b as [|x|x y|x y z r IH] using list_ind3.
  - reflexivity.
  - pose proof (to_N_lt x).
    cbn [Base64.b64encode Base64.a2b_base64].
    repeat sextet_step. cbn. bytes_eq.
  - pose proof (to_N_lt x). pose proof (to_N_lt y).
    cbn [Base64.b64encode Base64.a2b_base64].
    repeat sextet_step. cbn. bytes_eq.
  - pose proof (to_N_lt x). pose proof (to_N_lt y). pose proof (to_N_lt z).
    cbn [Base64.b64encode Base64.a2b_base64].
    repeat sextet_step.
    rewrite IH. cbn [bind]. bytes_eq.
Qed.

Lemma b64encode_ascii (b : list byte) :
  string_forallb (fun c => (code c <? 128)%N) (Base64.b64encode b) = true.
Proof.
  assert (Hc : forall n, (n < 64)%N -> (code (Base64.char_of_sextet n) <? 128)%N = true)
    by (intros n Hn; apply (sextet_of_char_of_sextet n Hn)).
  induction b as [|x|x y|x y z r IH] using list_ind3.
  - reflexivity.
  - pose proof (to_N_lt x).
    cbn [Base64.b64encode string_forallb].
    rewrite !Hc by lia. reflexivity.
  - pose proof (to_N_lt x). pose proof (to_N_lt y).
    cbn [Base64.b64encode string_forallb].
    rewrite !Hc by lia. reflexivity.
  - pose proof (to_N_lt x). pose proof (to_N_lt y). pose proof (to_N_lt z).
    cbn [Base64.b64encode string_forallb].
    rewrite !Hc by lia. rewrite IH. reflexivity.
Qed.

Lemma b64decode_b64encode (b : list byte) :
  Base64.b64decode (Base64.b64encode b) = Ok b.
Proof.
  unfold Base64.b64decode. rewrite b64encode_ascii. apply a2b_b64encode.
Qed.

(** ** Strings of the interchange text *)

Import Encoder Decoder.

Lemma scanstring_escape_char (c : ascii) (tail : string) :
  scanstring (escape_char c ++ tail) =
  ('(t, r) <- scanstring tail ;; Ok (String c t, r)).
Proof.
  destruct c as [[|] [|] [|] [|] [|] [|] [|] [|]]; reflexivity.
Qed.

Lemma scanstring_escape (s rest : string) :
  scanstring (escape s ++ String dquote rest) = Ok (s, rest).
Proof.
  induction s as [|c s IH]; [reflexivity|].
  cbn [escape]. rewrite append_assoc, scanstring_escape_char, IH.
  reflexivity.
Qed.

Lemma escape_char_nonempty (c : ascii) : (1 <= String.length (escape_char c))%nat.
Proof.
  destruct c as [[|] [|] [|] [|] [|] [|] [|] [|]]; cbn; lia.
Qed.

(** ** Integers of the interchange text *)

Lemma delimited_not_number (s : string) :
  delimited s = true -> starts_with_decimal s = false /\ frac_or_exp s = false.
Proof.
  destruct s as [|c r]; [now split|]. cbn [delimited]. intros H.
  apply orb_prop in H as [H|H]; apply Ascii.eqb_eq in H; subst c; now split.
Qed.

Lemma read_uint_string_of_uint (d : uint) (rest : string) :
  starts_with_decimal rest = false ->
  read_uint (NilEmpty.string_of_uint d ++ rest) = (d, rest).
Proof.
  intros H.
  induction d; cbn [NilEmpty.string_of_uint append read_uint];
    try (change (is_decimal _) with true; cbv iota; rewrite IHd; reflexivity).
  destruct rest as [|c r]; [reflexivity|].
  cbn in H. cbn [read_uint]. now rewrite H.
Qed.

Lemma pos_to_uint_normal (p : positive) : unorm (Pos.to_uint p) = Pos.to_uint p.
Proof.
  rewrite <- (Unsigned.to_of (Pos.to_uint p)), Unsigned.of_to. reflexivity.
Qed.

Lemma pos_to_uint_head (p : positive) :
  match Pos.to_uint p with
  | Nil | D0 _ => False
  | _ => True
  end.
Proof.
  pose proof (pos_to_uint_normal p) as Hn.
  pose proof (Unsigned.to_uint_nonzero p) as Hz.
  destruct (Pos.to_uint p) as [|d| | | | | | | | |] eqn:E; try exact I.
  - discriminate Hn.
  - rewrite unorm_D0 in Hn.
    assert (Hd : d = Nil).
    { destruct d; try reflexivity; exfalso;
        match type of Hn with
        | unorm ?u = _ =>
            pose proof (nb_digits_unorm u ltac:(discriminate)) as Hl
        end;
        rewrite Hn in Hl; cbn in Hl; lia. }
    subst d. now apply Hz.
Qed.

Lemma of_uint_pos_to_uint (p : positive) : Z.of_uint (Pos.to_uint p) = Z.pos p.
Proof. unfold Z.of_uint. now rewrite Unsigned.of_to. Qed.

Lemma int_part_nonzero (d : uint) (rest : string) :
  match d with Nil | D0 _ => False | _ => True end ->
  starts_with_decimal rest = false ->
  int_part (NilEmpty.string_of_uint d ++ rest) = Some (d, rest).
Proof.
  intros Hh H.
  pose proof (read_uint_string_of_uint d rest H) as Hr.
  destruct d; try contradiction;
    cbn [NilEmpty.string_of_uint append int_part read_uint] in *;
    change (is_decimal _) with true in *; cbv iota in *;
    now rewrite Hr.
Qed.

Lemma scan_number_intstr (n : Z) (rest : string) :
  delimited rest = true ->
  scan_number (intstr n ++ rest) = Ok (PyInt n, rest).
Proof.
  intros H. apply delimited_not_number in H as [Hd Hf].
  unfold intstr. destruct n as [|p|p]; cbn [Z.to_int NilEmpty.string_of_int].
  - cbn. now rewrite Hf.
  - unfold scan_number.
    pose proof (pos_to_uint_head p) as Hh.
    pose proof (int_part_nonzero _ rest Hh Hd) as Hi.
    pose proof (of_uint_pos_to_uint p) as Hv.
    destruct (Pos.to_uint p) eqn:E; try contradiction;
      cbn [NilEmpty.string_of_uint append] in *;
      change (Ascii.eqb _ "-") with false; cbv iota;
      rewrite Hi, Hf, Hv; reflexivity.
  - unfold scan_number. cbn [append].
    change (Ascii.eqb "-" "-") with true. cbv iota.
    rewrite (int_part_nonzero _ rest (pos_to_uint_head p) Hd), Hf.
    now rewrite of_uint_pos_to_uint.
Qed.

Lemma intstr_start (n : Z) :
  exists c r, intstr n = String c r /\ number_start c = true.
Proof.
  unfold intstr. destruct n as [|p|p]; cbn [Z.to_int NilEmpty.string_of_int].
  - now exists "0"%char, EmptyString.
  - pose proof (pos_to_uint_head p) as Hh.
    destruct (Pos.to_uint p); try contradiction;
      cbn [NilEmpty.string_of_uint]; eexists _, _; split; reflexivity.
  - eexists _, _; split; reflexivity.
Qed.

Lemma number_start_cases (c : ascii) :
  number_start c = true ->
  In c (list_ascii_of_string "0123456789-").
Proof.
  intros H.
  pose (p := fun c => implb (number_start c)
                        (existsb (Ascii.eqb c) (list_ascii_of_string "0123456789-"))).
  assert (Hp : p c = true) by (apply ascii_forall; vm_compute; reflexivity).
  unfold p in Hp. rewrite H in Hp. cbn [implb] in Hp.
  apply existsb_exists in Hp as (x & Hx & Heq).
  apply Ascii.eqb_eq in Heq. now subst x.
Qed.

Lemma scan_once_number (hook : pyval -> result pyval) (fuel : nat)
      (c : ascii) (r : string) :
  number_start c = true ->
  scan_once hook (S fuel) (String c r) = scan_number (String c r).
Proof.
  intros H. apply number_start_cases in H. cbn in H.
  repeat (destruct H as [<- | H]; [reflexivity|]). contradiction.
Qed.

(** ** Whitespace *)

Lemma skip_ws_spaces (n : nat) (s : string) : skip_ws (spaces n ++ s) = skip_ws s.
Proof. induction n as [|n IH]; [reflexivity | exact IH]. Qed.

Lemma skip_ws_newline_indent (lvl : nat) (s : string) :
  skip_ws (newline_indent lvl ++ s) = skip_ws s.
Proof. unfold newline_indent. cbn. apply skip_ws_spaces. Qed.

Lemma skip_ws_black (s : string) : starts_black s = true -> skip_ws s = s.
Proof.
  destruct s as [|c r]; [discriminate|]. cbn. intros H.
  apply negb_true_iff in H. now rewrite H.
Qed.

(** ** Induction on values *)

Lemma pyval_ind (P : pyval -> Prop) :
  P PyNone ->
  (forall b, P (PyBool b)) ->
  (forall n, P (PyInt n)) ->
  (forall t bits, P (PyFloat t bits)) ->
  (forall s, P (PyStr s)) ->
  (forall l, Forall P l -> P (PyList l)) ->
  (forall l, Forall P l -> P (PyTuple l)) ->
  (forall d, Forall (fun kv => P (snd kv)) d -> P (PyDict d)) ->
  (forall a, P (PyNdarray a)) ->
  (forall t b, P (PyNpGeneric t b)) ->
  (forall b, P (PyQByteArray b)) ->
  (forall b, P (PyBytes b)) ->
  (forall t bits, P (PyComplex t bits)) ->
  forall o, P o.
Proof.
  intros HNone HBool HInt HFloat HStr HList HTuple HDict HNd HNp HQ HB HC.
  fix IH 1.
  intros [ | b | n | t bits | s | l | l | d | a | t b | b | b | t bits ];
    [ exact HNone | apply HBool | apply HInt | apply HFloat | apply HStr | | |
    | apply HNd | apply HNp | apply HQ | apply HB | apply HC ].
  - apply HList. induction l as [|x l IHl]; constructor; [apply IH | exact IHl].
  - apply HTuple. induction l as [|x l IHl]; constructor; [apply IH | exact IHl].
  - apply HDict. induction d as [|[k v] d IHd]; constructor; [apply IH | exact IHd].
Qed.

(** ** Chunks *)

Lemma andthen_ok (a b : emit) :
  snd (a >> b) = None <-> snd a = None /\ snd b = None.
Proof.
  unfold andthen. destruct a as [s [e|]], b as [t [e'|]]; cbn; intuition discriminate.
Qed.

Lemma andthen_text (a b : emit) :
  snd a = None -> fst (a >> b) = fst a ++ fst b.
Proof. unfold andthen. now intros ->. Qed.

Lemma emit_join_ok (sep : string) (first : bool) (es : list emit) :
  snd (emit_join sep first es) = None <-> Forall (fun e => snd e = None) es.
Proof.
  revert first. induction es as [|e es IH]; intros first; cbn [emit_join].
  - split; [constructor | reflexivity].
  - rewrite !andthen_ok, IH. split.
    + intros [[_ He] Hr]. now constructor.
    + intros H. inversion H; subst. now destruct first.
Qed.

Lemma emit_join_rest (sep : string) (es : list emit) :
  Forall (fun e => snd e = None) es ->
  fst (emit_join sep false es) = join_rest sep (map fst es).
Proof.
  induction 1 as [|e es He Hes IH]; [reflexivity|].
  cbn [emit_join map join_rest].
  rewrite andthen_text, andthen_text, IH by (try apply andthen_ok; auto).
  cbn [yield fst]. now rewrite append_assoc.
Qed.

Lemma emit_join_first (sep : string) (e : emit) (es : list emit) :
  Forall (fun e => snd e = None) (e :: es) ->
  fst (emit_join sep true (e :: es)) = fst e ++ join_rest sep (map fst es).
Proof.
  intros H. inversion H; subst. cbn [emit_join].
  rewrite andthen_text, andthen_text, emit_join_rest by (try apply andthen_ok; auto).
  reflexivity.
Qed.

(** ** The decoder on the text of the encoder *)

Lemma value_start_spec (c : ascii) :
  value_start c = true ->
  is_ws c = false /\ (c =? "]")%char = false /\ (c =? "}")%char = false.
Proof.
  intros H.
  pose (p := fun c => implb (value_start c)
                        (negb (is_ws c) && negb (c =? "]")%char && negb (c =? "}")%char)).
  assert (Hp : p c = true) by (apply ascii_forall; vm_compute; reflexivity).
  unfold p in Hp. rewrite H in Hp. cbn [implb] in Hp.
  apply andb_prop in Hp as [Hp H3]. apply andb_prop in Hp as [H1 H2].
  rewrite negb_true_iff in *. auto.
Qed.

Lemma starts_value_inv (t : string) :
  starts_value t = true ->
  exists c r, t = String c r /\ value_start c = true.
Proof. destruct t as [|c r]; [discriminate|]. intros H. now exists c, r. Qed.

Lemma skip_ws_value (t s : string) :
  starts_value t = true -> skip_ws (t ++ s) = t ++ s.
Proof.
  intros H. apply starts_value_inv in H as (c & r & -> & Hc).
  apply value_start_spec in Hc as (Hw & _). cbn. now rewrite Hw.
Qed.

Lemma skip_ws_space (s : string) : skip_ws (String " " s) = skip_ws s.
Proof. reflexivity. Qed.

Lemma delimited_comma (s : string) : delimited (String "," s) = true.
Proof. reflexivity. Qed.

Lemma delimited_newline_indent (lvl : nat) (s : string) :
  delimited (newline_indent lvl ++ s) = true.
Proof. reflexivity. Qed.

Section Loops.
Variable hook : pyval -> result pyval.
Variable lvl : nat.
Variable rest : string.

Local Abbreviation sep := (item_separator (S lvl)).

(** The loop of [JSONArray] on the items of an indented list. *)
Lemma array_loop_reads (tvs : list (string * pyval)) :
  Forall (fun tv => reads hook (fst tv) (snd tv)) tvs ->
  forall t v f n,
    reads hook t v ->
    (String.length (t ++ join_rest sep (map fst tvs)) <= f)%nat ->
    (List.length tvs < n)%nat ->
    array_loop (scan_once hook f) n
      (t ++ join_rest sep (map fst tvs) ++ newline_indent lvl ++ String "]" rest)
    = Ok (v :: map snd tvs, rest).
Proof.
  induction 1 as [|[t2 v2] tvs H2 Htvs IH]; intros t v f n [Ht Hscan] Hf Hn;
    (destruct n as [|n]; [cbn in Hn; lia|]); cbn [array_loop map join_rest].
  - cbn [append]. rewrite Hscan;
      [| rewrite append_nil_r in Hf; exact Hf | apply delimited_newline_indent].
    cbn [bind]. rewrite skip_ws_newline_indent. reflexivity.
  - cbn [fst snd] in *. unfold item_separator at 1.
    cbn [append]. rewrite Hscan;
      [| rewrite length_append in Hf; lia | apply delimited_comma].
    cbn [bind skip_ws]. change (is_ws ",") with false. cbv iota.
    change (Ascii.eqb "," "]") with false.
    change (Ascii.eqb "," ",") with true. cbv iota.
    rewrite !append_assoc, skip_ws_newline_indent.
    rewrite skip_ws_value by apply H2.
    rewrite (IH t2 v2 f n H2).
    + reflexivity.
    + revert Hf. cbn [join_rest map fst]. rewrite !length_append. lia.
    + cbn in Hn. lia.
Qed.

(** The loop of [JSONObject] on the items of an indented object, from
    the character after the opening quote of the first key. *)
Lemma object_loop_reads (ktvs : list (string * string * pyval)) :
  Forall (fun x => reads hook (snd (fst x)) (snd x)) ktvs ->
  forall k t v f n,
    reads hook t v ->
    (String.length (t ++ join_rest sep (map entry_of ktvs)) <= f)%nat ->
    (List.length ktvs < n)%nat ->
    object_loop (scan_once hook f) n
      (escape k ++ String dquote
         (": " ++ t ++ join_rest sep (map entry_of ktvs)
            ++ newline_indent lvl ++ String "}" rest))
    = Ok ((KStr k, v) :: map pair_of ktvs, rest).
Proof.
  induction 1 as [|[[k2 t2] v2] ktvs H2 Hk IH]; intros k t v f n [Ht Hscan] Hf Hn;
    (destruct n as [|n]; [cbn in Hn; lia|]); cbn [object_loop map join_rest];
    rewrite scanstring_escape; cbn [bind append skip_ws];
    change (is_ws ":") with false; cbv iota;
    change (Ascii.eqb ":" ":") with true; cbv iota;
    rewrite skip_ws_space.
  - rewrite skip_ws_value by exact Ht.
    rewrite Hscan;
      [| rewrite append_nil_r in Hf; exact Hf | apply delimited_newline_indent].
    cbn [bind]. rewrite skip_ws_newline_indent. reflexivity.
  - cbn [fst snd] in *. rewrite skip_ws_value by exact Ht.
    unfold item_separator at 1. cbn [append]. rewrite Hscan;
      [| rewrite length_append in Hf; lia | apply delimited_comma].
    cbn [bind skip_ws]. change (is_ws ",") with false. cbv iota.
    change (Ascii.eqb "," "}") with false.
    change (Ascii.eqb "," ",") with true. cbv iota.
    rewrite !append_assoc, skip_ws_newline_indent.
    unfold entry_of at 1, entry_text, encode_basestring_ascii.
    cbn [fst snd append skip_ws].
    change (is_ws dquote) with false. cbv iota.
    rewrite Ascii.eqb_refl.
    rewrite !append_assoc. cbn [append].
    assert (IH' := IH k2 t2 v2 f n H2). cbn [append] in IH'.
    rewrite IH'.
    + reflexivity.
    + revert Hf. cbn [join_rest map]. unfold entry_of at 1, entry_text.
      cbn [fst snd]. rewrite !length_append. lia.
    + cbn in Hn. lia.
Qed.
End Loops.

(** ** Sorting the items of a dict *)

Section SortedFacts.
Context {V : Type}.

Lemma insert_item_perm (x : key * V) (l r : list (key * V)) :
  insert_item x l = Ok r -> Permutation (x :: l) r.
Proof.
  revert r. induction l as [|y l IH]; intros r; cbn [insert_item].
  - intros [= <-]. reflexivity.
  - destruct (key_lt (fst x) (fst y)) as [[|]|e]; cbn [bind]; try discriminate.
    + intros [= <-]. reflexivity.
    + destruct (insert_item x l) as [r'|e]; cbn [bind]; [|discriminate].
      intros [= <-]. rewrite perm_swap. now rewrite (IH r' eq_refl).
Qed.

Lemma sorted_perm (l r : list (key * V)) : sorted l = Ok r -> Permutation l r.
Proof.
  revert r. induction l as [|x l IH]; intros r; cbn [sorted].
  - intros [= <-]. reflexivity.
  - destruct (sorted l) as [r'|e]; cbn [bind]; [|discriminate].
    intros H. apply insert_item_perm in H. now rewrite (IH r' eq_refl).
Qed.
End SortedFacts.

Section SortedMap.
Context {V W : Type}.
Variable f : V -> W.

Local Abbreviation g := (on_value f).

Lemma insert_item_map (x : key * V) (l : list (key * V)) :
  insert_item (g x) (map g l)
  = match insert_item x l with
    | Ok r => Ok (map g r)
    | Raise e => Raise e
    end.
Proof.
  induction l as [|y l IH]; cbn [map insert_item]; [reflexivity|].
  cbn [g fst]. destruct (key_lt (fst x) (fst y)) as [[|]|e]; cbn [bind];
    try reflexivity.
  fold (g x). rewrite IH. now destruct (insert_item x l).
Qed.

Lemma sorted_map (l : list (key * V)) :
  sorted (map g l)
  = match sorted l with
    | Ok r => Ok (map g r)
    | Raise e => Raise e
    end.
Proof.
  induction l as [|x l IH]; cbn [map sorted]; [reflexivity|].
  rewrite IH. destruct (sorted l) as [r|e]; cbn [bind]; [|reflexivity].
  apply insert_item_map.
Qed.
End SortedMap.

(** ** The round trip of a value *)

Lemma scan_once_string (hook : pyval -> result pyval) (f : nat) (r : string) :
  scan_once hook (S f) (String dquote r)
  = ('(str, r1) <- scanstring r ;; Ok (PyStr str, r1)).
Proof. reflexivity. Qed.

Lemma scan_once_array (hook : pyval -> result pyval) (f : nat) (r : string) :
  scan_once hook (S f) (String "[" r)
  = match skip_ws r with
    | EmptyString => Raise JSONDecodeError
    | String c' r1 =>
        if (c' =? "]")%char then Ok (PyList [], r1)
        else '(values, r2) <- array_loop (scan_once hook f) f (skip_ws r) ;;
             Ok (PyList values, r2)
    end.
Proof. reflexivity. Qed.

Lemma scan_once_object (hook : pyval -> result pyval) (f : nat) (r : string) :
  scan_once hook (S f) (String "{" r)
  = match skip_ws r with
    | EmptyString => Raise JSONDecodeError
    | String c' r1 =>
        if (c' =? "}")%char then
          pairs <- hook (PyDict []) ;; Ok (pairs, r1)
        else if (c' =? dquote)%char then
          '(pairs, r2) <- object_loop (scan_once hook f) f r1 ;;
          pairs <- hook (PyDict (dict_of_pairs pairs)) ;;
          Ok (pairs, r2)
        else Raise JSONDecodeError
    end.
Proof. reflexivity. Qed.

Lemma reads_str (hook : pyval -> result pyval) (s : string) :
  reads hook (encode_basestring_ascii s) (PyStr s).
Proof.
  split; [reflexivity|]. intros [|f] rest Hf _; [cbn in Hf; lia|].
  unfold encode_basestring_ascii. cbn [append].
  rewrite scan_once_string, append_assoc. cbn [append].
  now rewrite scanstring_escape.
Qed.

Lemma reads_int (hook : pyval -> result pyval) (n : Z) :
  reads hook (intstr n) (PyInt n).
Proof.
  destruct (intstr_start n) as (c & r & E & Hc). split.
  - rewrite E. cbn. unfold value_start. now rewrite Hc.
  - intros [|f] rest Hf Hd; [rewrite E in Hf; cbn in Hf; lia|].
    pose proof (scan_number_intstr n rest Hd) as Hs.
    rewrite E in *. cbn [append] in *. now rewrite scan_once_number.
Qed.

(** The text of an indented list or object with at least one item. *)
Lemma bracket_text (o c : ascii) (a b sep : string) (e1 : emit) (es : list emit) :
  Forall (fun e => snd e = None) (e1 :: es) ->
  yield (String o EmptyString) >> yield a >> emit_join sep true (e1 :: es)
    >> yield b >> yield (String c EmptyString)
  = (String o (a ++ fst e1 ++ join_rest sep (map fst es) ++ b ++ String c EmptyString),
     None).
Proof.
  intros H. pose proof (emit_join_first sep e1 es H) as Ht.
  apply emit_join_ok with (sep := sep) (first := true) in H.
  destruct (emit_join sep true (e1 :: es)) as [t o']. cbn [fst snd] in *.
  subst. unfold andthen, yield. cbn [fst snd append].
  now rewrite !append_assoc.
Qed.

Lemma bracket_ok (o c a b : string) (m : emit) :
  snd (yield o >> yield a >> m >> yield b >> yield c) = None -> snd m = None.
Proof. rewrite !andthen_ok. tauto. Qed.

Lemma length_join_rest (sep : string) (ts : list string) :
  (1 <= String.length sep)%nat ->
  (List.length ts <= String.length (join_rest sep ts))%nat.
Proof.
  intros H. induction ts as [|t ts IH]; cbn [join_rest List.length]; [lia|].
  rewrite !length_append. lia.
Qed.

Lemma starts_value_length (t : string) :
  starts_value t = true -> (1 <= String.length t)%nat.
Proof. destruct t; [discriminate | cbn; lia]. Qed.

Section Brackets.
Variable hook : pyval -> result pyval.
Variable lvl : nat.

Local Abbreviation sep := (item_separator (S lvl)).

Lemma array_reads (t : string) (v : pyval) (tvs : list (string * pyval)) :
  reads hook t v ->
  Forall (fun tv => reads hook (fst tv) (snd tv)) tvs ->
  reads hook
    (String "[" (newline_indent (S lvl) ++ t ++ join_rest sep (map fst tvs)
                   ++ newline_indent lvl ++ "]"))
    (PyList (v :: map snd tvs)).
Proof.
  intros Ht Htvs. split; [reflexivity|].
  intros [|f] rest Hf Hd; [cbn in Hf; lia|].
  cbn [append]. rewrite scan_once_array.
  rewrite !append_assoc, skip_ws_newline_indent.
  rewrite skip_ws_value by apply Ht.
  destruct (starts_value_inv t (proj1 Ht)) as (c & r & E & Hc).
  apply value_start_spec in Hc as (_ & Hc & _).
  rewrite E at 1. cbn [append]. rewrite Hc. cbn [append].
  rewrite (array_loop_reads hook lvl rest tvs Htvs t v f f Ht).
  - reflexivity.
  - revert Hf. cbn [String.length]. rewrite !length_append. lia.
  - pose proof (length_join_rest (item_separator (S lvl)) (map fst tvs) ltac:(cbn; lia)) as Hl.
    rewrite length_map in Hl.
    pose proof (starts_value_length t (proj1 Ht)).
    revert Hf. cbn [String.length]. rewrite !length_append. lia.
Qed.

Lemma object_reads (k t : string) (v v' : pyval)
      (ktvs : list (string * string * pyval)) :
  reads hook t v ->
  Forall (fun x => reads hook (snd (fst x)) (snd x)) ktvs ->
  hook (PyDict (dict_of_pairs ((KStr k, v) :: map pair_of ktvs))) = Ok v' ->
  reads hook
    (String "{" (newline_indent (S lvl) ++ entry_text k t
                   ++ join_rest sep (map entry_of ktvs)
                   ++ newline_indent lvl ++ "}"))
    v'.
Proof.
  intros Ht Hk Hh. split; [reflexivity|].
  intros [|f] rest Hf Hd; [cbn in Hf; lia|].
  cbn [append]. rewrite scan_once_object.
  rewrite !append_assoc, skip_ws_newline_indent.
  unfold entry_text at 1, encode_basestring_ascii. cbn [append skip_ws].
  change (is_ws dquote) with false. cbv iota.
  change (Ascii.eqb dquote "}") with false. cbv iota.
  rewrite Ascii.eqb_refl. rewrite !append_assoc. cbn [append].
  assert (Hl := object_loop_reads hook lvl rest ktvs Hk k t v f f Ht).
  cbn [append] in Hl. rewrite Hl.
  - cbn [bind]. now rewrite Hh.
  - revert Hf. unfold entry_text. cbn [String.length].
    rewrite !length_append. lia.
  - pose proof (length_join_rest (item_separator (S lvl)) (map entry_of ktvs) ltac:(cbn; lia)) as Hj.
    rewrite length_map in Hj.
    revert Hf. unfold entry_text, encode_basestring_ascii.
    cbn [String.length]. rewrite !length_append. cbn [String.length]. lia.
Qed.
End Brackets.

Section Roundtrip.
Variable hook : pyval -> result pyval.
Variable other : nat -> pyval -> emit.
Variable reloaded_other : pyval -> result pyval.

Hypothesis other_reads :
  forall lvl o v,
    snd (other lvl o) = None -> reloaded_other o = Ok v ->
    reads hook (fst (other lvl o)) v.

Local Abbreviation enc := (_iterencode_with other).
Local Abbreviation rel := (reloaded_with hook reloaded_other).

Local Abbreviation P := (round_trips hook other reloaded_other).

Lemma items_read (lvl : nat) (l : list pyval) :
  Forall P l ->
  forall vs,
    Forall (fun e => snd e = None) (map (enc lvl) l) ->
    sequence (map rel l) = Ok vs ->
    exists tvs,
      map fst tvs = map fst (map (enc lvl) l) /\ map snd tvs = vs /\
      Forall (fun tv => reads hook (fst tv) (snd tv)) tvs.
Proof.
  induction 1 as [|o l Ho Hl IH]; intros vs He Hs; cbn [map sequence] in *.
  - injection Hs as <-. exists []. repeat split; constructor.
  - inversion He as [|? ? He1 He2]; subst.
    destruct (rel o) as [v|] eqn:Ev; cbn [bind] in Hs; [|discriminate].
    destruct (sequence (map rel l)) as [vs'|] eqn:Evs; cbn [bind] in Hs;
      [|discriminate].
    injection Hs as <-.
    destruct (IH vs' He2 eq_refl) as (tvs & H1 & H2 & H3).
    exists ((fst (enc lvl o), v) :: tvs). cbn [map fst snd].
    rewrite H1, H2. repeat split. constructor; [|exact H3].
    cbn [fst snd]. now apply Ho.
Qed.

Lemma entries_read (lvl : nat) (d : list (key * pyval)) :
  Forall (fun kv => P (snd kv)) d ->
  forall pairs,
    Forall (fun e => snd e = None)
      (map entry (map (on_value (enc lvl)) d)) ->
    sequence (map (fun kr => v <- snd kr ;; Ok (KStr (key_str (fst kr)), v))
                (map (on_value rel) d)) = Ok pairs ->
    exists ktvs,
      map (entry_of) ktvs
      = map fst (map entry (map (on_value (enc lvl)) d)) /\
      map pair_of ktvs = pairs /\
      Forall (fun x => reads hook (snd (fst x)) (snd x)) ktvs.
Proof.
  induction 1 as [|[k o] d Ho Hd IH]; intros pairs He Hs; cbn [map sequence] in *.
  - injection Hs as <-. exists []. repeat split; constructor.
  - change (on_value ?f (k, o)) with (k, f o) in *.
    inversion He as [|? ? He1 He2]; subst. cbn [fst snd] in *.
    destruct (rel o) as [v|] eqn:Ev; cbn [bind] in Hs; [|discriminate].
    match type of Hs with
    | context [sequence ?l] =>
        destruct (sequence l) as [ps|] eqn:Eps; cbn [bind] in Hs; [|discriminate]
    end.
    injection Hs as <-.
    destruct (IH ps He2 eq_refl) as (ktvs & H1 & H2 & H3).
    unfold entry in He1. cbn [fst snd] in He1.
    rewrite !andthen_ok in He1. destruct He1 as [_ He1].
    exists ((key_str k, fst (enc lvl o), v) :: ktvs). cbn [map].
    rewrite H1, H2. repeat split.
    + f_equal. unfold entry, entry_of, entry_text. cbn [fst snd].
      rewrite andthen_text by reflexivity.
      unfold andthen, yield. cbn [fst snd]. now rewrite append_assoc.
    + constructor; [|exact H3]. cbn [fst snd]. now apply Ho.
Qed.

Lemma list_reads (l : list pyval) (lvl : nat) (v : pyval) :
  Forall P l ->
  let e := match l with
           | [] => yield "[]"
           | _ :: _ =>
               yield "[" >> yield (newline_indent (S lvl))
                 >> emit_join (item_separator (S lvl)) true (map (enc (S lvl)) l)
                 >> yield (newline_indent lvl) >> yield "]"
           end in
  snd e = None ->
  (values <- sequence (map rel l) ;; Ok (PyList values)) = Ok v ->
  reads hook (fst e) v.
Proof.
  intros IH e He Hr. subst e.
  destruct (sequence (map rel l)) as [vs|] eqn:Evs; cbn [bind] in Hr;
    [|discriminate].
  injection Hr as <-.
  destruct l as [|x l].
  - injection Evs as <-. split; [reflexivity|].
    intros [|f] rest Hf _; [cbn in Hf; lia | reflexivity].
  - apply bracket_ok, emit_join_ok in He.
    destruct (items_read (S lvl) (x :: l) IH vs He Evs) as (tvs & H1 & H2 & H3).
    cbn [map] in He, H1 |- *. rewrite bracket_text by exact He.
    destruct tvs as [|[t v1] tvs]; [discriminate H1|].
    injection H1 as H1a H1b. rewrite <- H1a, <- H1b, <- H2. cbn [fst map snd].
    inversion H3 as [|? ? H3a H3b]; subst.
    apply array_reads; assumption.
Qed.

Lemma dict_reads (d : list (key * pyval)) (lvl : nat) (v : pyval) :
  Forall (fun kv => P (snd kv)) d ->
  let e := match d with
           | [] => yield "{}"
           | _ :: _ =>
               yield "{" >> yield (newline_indent (S lvl))
                 >> match sorted (map (on_value (enc (S lvl))) d) with
                    | Raise e => throw e
                    | Ok items =>
                        emit_join (item_separator (S lvl)) true (map entry items)
                    end
                 >> yield (newline_indent lvl) >> yield "}"
           end in
  snd e = None ->
  (items <- sorted (map (on_value rel) d) ;;
   pairs <- sequence (map (fun kr => v <- snd kr ;;
                                     Ok (KStr (key_str (fst kr)), v)) items) ;;
   hook (PyDict (dict_of_pairs pairs))) = Ok v ->
  reads hook (fst e) v.
Proof.
  intros IH e He Hr. subst e. destruct d as [|kv d].
  - cbn in Hr. split; [reflexivity|].
    intros [|f] rest Hf _; [cbn in Hf; lia|].
    cbn [yield fst append]. rewrite scan_once_object. cbn [skip_ws].
    change (is_ws "}") with false. cbv iota.
    change (Ascii.eqb "}" "}") with true. cbv iota.
    now rewrite Hr.
  - cbv iota in He |- *. set (d0 := kv :: d) in *.
    assert (Hne : d0 <> []) by discriminate. clearbody d0. clear kv d.
    pose proof He as He'. apply bracket_ok in He'.
    rewrite (sorted_map (enc (S lvl))) in He', He |- *.
    rewrite (sorted_map rel) in Hr.
    destruct (sorted d0) as [sd|e] eqn:Es; [|discriminate He'].
    cbn [bind] in Hr.
    pose proof (sorted_perm _ _ Es) as Hperm.
    rewrite Hperm in IH.
    apply emit_join_ok in He'.
    match type of Hr with
    | context [sequence ?l] =>
        destruct (sequence l) as [pairs|] eqn:Eps; cbn [bind] in Hr; [|discriminate]
    end.
    destruct (entries_read (S lvl) sd IH pairs He' Eps) as (ktvs & H1 & H2 & H3).
    destruct sd as [|[k1 o1] sd].
    { apply Permutation_sym, Permutation_nil in Hperm. contradiction. }
    destruct ktvs as [|[[k t] v1] ktvs]; [discriminate H1|].
    cbn [map] in He', H1 |- *. rewrite bracket_text by exact He'.
    assert (H1a := f_equal (hd EmptyString) H1).
    assert (H1b := f_equal (@tl string) H1).
    cbn [hd tl] in H1a, H1b. rewrite <- H1a, <- H1b. cbn [fst].
    inversion H3 as [|? ? H3a H3b]; subst.
    unfold entry_of at 1. cbn [fst snd] in *.
    now apply object_reads with (v := v1).
Qed.

Theorem iterencode_reads (o : pyval) : P o.
Proof.
  induction o as [ | b | n | t bits | s | l IH | l IH | d IH | a | t b | b | b
                 | t bits ]
    using pyval_ind;
    intros lvl v He Hr; unfold enc, rel in *;
    cbn [_iterencode_with reloaded_with] in *;
    try (now apply other_reads); try discriminate He.
  - injection Hr as <-. split; [reflexivity|].
    intros [|f] rest Hf _; [cbn in Hf; lia | reflexivity].
  - injection Hr as <-.
    destruct b; (split; [reflexivity|]);
      intros [|f] rest Hf _; (cbn in Hf; lia) || reflexivity.
  - injection Hr as <-. apply reads_int.
  - injection Hr as <-. apply reads_str.
  - eapply list_reads; eauto.
  - eapply list_reads; eauto.
  - eapply dict_reads; eauto.
Qed.
End Roundtrip.

(** The round trip of a value that needs no [default]. *)
Theorem plain_reads (hook : pyval -> result pyval) (o : pyval) (lvl : nat) (v : pyval) :
  snd (_iterencode_plain lvl o) = None ->
  reloaded_plain hook o = Ok v ->
  reads hook (fst (_iterencode_plain lvl o)) v.
Proof.
  apply (iterencode_reads hook (fun _ _ => throw NotModelled)
           (fun _ => Raise NotModelled)).
  intros ? ? ? H. discriminate H.
Qed.

(** The round trip of what [default] returns. *)
Theorem again_reads (hook : pyval -> result pyval) (o : pyval) (lvl : nat)
        (v : pyval) :
  snd (_iterencode_again lvl o) = None ->
  reloaded_again hook o = Ok v ->
  reads hook (fst (_iterencode_again lvl o)) v.
Proof.
  apply (iterencode_reads hook
           (fun lvl o => match default o with
                         | Ok o' => _iterencode_plain lvl o'
                         | Raise e => throw e
                         end)
           (fun o => o' <- default o ;; reloaded_plain hook o')).
  intros lvl' o' v' He Hr.
  destruct (default o') as [o''|e]; [|discriminate He].
  now apply plain_reads.
Qed.

(** The round trip of a value: when the dump of [o] succeeds and [o] reads
    back as [v], the decoder makes [v] of the text of the dump. *)
Theorem iterencode_reloaded (hook : pyval -> result pyval) (o : pyval) (lvl : nat)
        (v : pyval) :
  snd (_iterencode lvl o) = None ->
  reloaded hook o = Ok v ->
  reads hook (fst (_iterencode lvl o)) v.
Proof.
  apply (iterencode_reads hook
           (fun lvl o => match default o with
                         | Ok o' => _iterencode_again lvl o'
                         | Raise e => throw e
                         end)
           (fun o => o' <- default o ;; reloaded_again hook o')).
  intros lvl' o' v' He Hr.
  destruct (default o') as [o''|e]; [|discriminate He].
  now apply again_reads.
Qed.

Lemma loads_reads (hook : pyval -> result pyval) (t : string) (v : pyval) :
  reads hook t v -> loads hook t = Ok v /\ t <> EmptyString.
Proof.
  intros [Hs Hscan]. split.
  - unfold loads. pose proof (skip_ws_value t EmptyString Hs) as Hw.
    rewrite append_nil_r in Hw. rewrite Hw.
    specialize (Hscan (S (String.length t)) EmptyString ltac:(lia) eq_refl).
    rewrite append_nil_r in Hscan. now rewrite Hscan.
  - intros ->. discriminate Hs.
Qed.

(** Saving and loading again: the file holds the dump of the mapping with
    its keys made strings, and loading gives the value that this dump reads
    back as, with its keys made integers. *)
Theorem save_load (h : host) (f : file) (d d1 : list (key * pyval)) (v : pyval) :
  _stringify_keys (PyDict d) = Ok (PyDict d1) ->
  snd (dump (PyDict d1)) = None ->
  reloaded (_json_custom_hook h) (PyDict d1) = Ok v ->
  _save_json f (PyDict d) = (Some (fst (dump (PyDict d1))), Ok tt) /\
  _load_json h (Some (fst (dump (PyDict d1)))) = _intify_keys v.
Proof.
  intros Hs Hd Hr. split.
  - unfold _save_json. rewrite Hs, Hd. reflexivity.
  - unfold _load_json.
    destruct (loads_reads _ _ _ (iterencode_reloaded _ _ 0 _ Hd Hr)) as [Hl Hne].
    unfold dump. apply String.eqb_neq in Hne. rewrite Hne, Hl. reflexivity.
Qed.

(** ** Arrays *)

Lemma dtype_of_dtype_str (t : dtype) : Numpy.dtype_of_str (Numpy.dtype_str t) = Some t.
Proof. destruct t; reflexivity. Qed.

Lemma itemsize_pos (t : dtype) : (0 < Numpy.itemsize t)%nat.
Proof. destruct t; cbn; lia. Qed.

Lemma prod_nonneg (shape : list Z) :
  Forall (fun n => 0 <= n) shape -> 0 <= Numpy.prod shape.
Proof.
  induction 1 as [|n shape Hn Hs IH]; cbn; [lia|]. now apply Z.mul_nonneg_nonneg.
Qed.

Lemma shape_of_list_ints (shape : list Z) :
  Numpy.shape_of_list (map PyInt shape) = Some shape.
Proof.
  induction shape as [|n shape IH]; cbn; [reflexivity | now rewrite IH].
Qed.

Lemma wf_frombuffer (a : ndarray) :
  Numpy.wf_ndarray a ->
  Numpy.frombuffer (nd_data a) (PyStr (Numpy.dtype_str (nd_dtype a)))
  = Ok (mk_ndarray (nd_dtype a) [Numpy.prod (nd_shape a)] (nd_data a)).
Proof.
  intros [Hsh Hlen]. unfold Numpy.frombuffer. rewrite dtype_of_dtype_str.
  pose proof (prod_nonneg _ Hsh) as Hp.
  pose proof (itemsize_pos (nd_dtype a)) as Hi.
  assert (E : List.length (nd_data a)
              = (Z.to_nat (Numpy.prod (nd_shape a)) * Numpy.itemsize (nd_dtype a))%nat) by nia.
  rewrite E, Nat.Div0.mod_mul, Nat.div_mul by lia. cbn [Nat.eqb].
  now rewrite Z2Nat.id.
Qed.

Lemma wf_reshape (t : dtype) (shape : list Z) (data : list byte) :
  Forall (fun n => 0 <= n) shape ->
  Numpy.reshape (mk_ndarray t [Numpy.prod shape] data) (PyList (map PyInt shape))
  = Ok (mk_ndarray t shape data).
Proof.
  intros Hsh. unfold Numpy.reshape. rewrite shape_of_list_ints.
  assert (He : existsb (fun n => n <? -1) shape = false).
  { induction Hsh as [|n shape Hn Hs IH]; cbn; [reflexivity|].
    rewrite IH. destruct (Z.ltb_spec n (-1)); [lia | reflexivity]. }
  assert (Hf : filter (fun n => n =? -1) shape = []).
  { clear He. induction Hsh as [|n shape Hn Hs IH]; cbn; [reflexivity|].
    destruct (Z.eqb_spec n (-1)); [lia | exact IH]. }
  rewrite He, Hf. cbn [nd_shape nd_dtype nd_data Numpy.prod fold_right].
  rewrite Z.mul_1_r, Z.eqb_refl. reflexivity.
Qed.

Section DumpOk.
Variable other : nat -> pyval -> emit.
Variable hook : pyval -> result pyval.
Variable reloaded_other : pyval -> result pyval.

Local Abbreviation enc := (_iterencode_with other).
Local Abbreviation rel := (reloaded_with hook reloaded_other).

Lemma list_dump_ok (lvl : nat) (l : list pyval) :
  Forall (fun o => snd (enc (S lvl) o) = None) l ->
  snd (enc lvl (PyList l)) = None /\ snd (enc lvl (PyTuple l)) = None.
Proof.
  intros H. unfold enc. cbn [_iterencode_with].
  destruct l as [|x l]; [now split|].
  rewrite !andthen_ok, emit_join_ok, Forall_map. repeat split; exact H.
Qed.

Lemma dict_dump_ok (lvl : nat) (d sd : list (key * pyval)) :
  sorted d = Ok sd ->
  Forall (fun kv => snd (enc (S lvl) (snd kv)) = None) d ->
  snd (enc lvl (PyDict d)) = None.
Proof.
  intros Hs H. unfold enc. cbn [_iterencode_with].
  destruct d as [|x d]; [reflexivity|].
  rewrite (sorted_map (_iterencode_with other (S lvl))), Hs.
  rewrite (sorted_perm _ _ Hs) in H.
  rewrite !andthen_ok, emit_join_ok, !Forall_map. repeat split.
  revert H. apply Forall_impl. intros [k o] Ho.
  unfold entry, on_value. cbn [fst snd] in *.
  rewrite !andthen_ok. auto.
Qed.

Lemma ints_dump_ok (lvl : nat) (l : list Z) :
  Forall (fun o => snd (enc lvl o) = None) (map PyInt l).
Proof. rewrite Forall_map. apply Forall_forall. reflexivity. Qed.

Lemma ints_reloaded (l : list Z) :
  sequence (map rel (map PyInt l)) = Ok (map PyInt l).
Proof.
  induction l as [|n l IH]; cbn [map sequence]; [reflexivity|].
  unfold rel at 1. cbn [reloaded_with bind]. now rewrite IH.
Qed.
End DumpOk.

Lemma reloaded_with_dict (hook ro : pyval -> result pyval) (d : list (key * pyval)) :
  reloaded_with hook ro (PyDict d)
  = (items <- sorted (map (on_value (reloaded_with hook ro)) d) ;;
     pairs <- sequence (map (fun kr => v <- snd kr ;;
                                       Ok (KStr (key_str (fst kr)), v)) items) ;;
     hook (PyDict (dict_of_pairs pairs))).
Proof. reflexivity. Qed.

Lemma reloaded_with_tuple (hook ro : pyval -> result pyval) (l : list pyval) :
  reloaded_with hook ro (PyTuple l)
  = (values <- sequence (map (reloaded_with hook ro) l) ;; Ok (PyList values)).
Proof. reflexivity. Qed.

Lemma sorted_tagged {V : Type} (x y z : V) :
  sorted [(KStr "__ndarray__", x); (KStr "dtype", y); (KStr "shape", z)]
  = Ok [(KStr "__ndarray__", x); (KStr "dtype", y); (KStr "shape", z)].
Proof. reflexivity. Qed.

Lemma default_small (a : ndarray) :
  is_small a = true -> default (PyNdarray a) = Ok (Numpy.tolist a).
Proof. unfold default, is_small. now intros ->. Qed.

Lemma default_tagged (a : ndarray) :
  is_small a = false -> default (PyNdarray a) = Ok (tagged a).
Proof. unfold default, is_small. now intros ->. Qed.

Lemma hook_tagged (h : host) (a : ndarray) :
  Numpy.wf_ndarray a ->
  _json_custom_hook h
    (PyDict [(KStr "__ndarray__", PyStr (Base64.b64encode (nd_data a)));
             (KStr "dtype", PyStr (Numpy.dtype_str (nd_dtype a)));
             (KStr "shape", PyList (map PyInt (nd_shape a)))])
  = Ok (PyNdarray a).
Proof.
  intros Hwf. unfold _json_custom_hook.
  change (dict_contains _ (KStr "__ndarray__")) with true. cbv iota.
  change (getitem _ "__ndarray__") with (Ok (PyStr (Base64.b64encode (nd_data a)))).
  cbn [bind b64decode_value]. rewrite b64decode_b64encode. cbn [bind].
  change (getitem _ "dtype") with (Ok (PyStr (Numpy.dtype_str (nd_dtype a)))).
  cbn [bind]. rewrite (wf_frombuffer a Hwf). cbn [bind].
  change (getitem _ "shape") with (Ok (PyList (map PyInt (nd_shape a)))).
  cbn [bind]. rewrite wf_reshape by apply Hwf. cbn [bind].
  now destruct a.
Qed.

Lemma tagged_dump_ok (lvl : nat) (a : ndarray) :
  snd (_iterencode_again lvl (tagged a)) = None.
Proof.
  unfold _iterencode_again, tagged.
  eapply dict_dump_ok; [apply sorted_tagged|].
  repeat constructor. cbn [snd].
  apply list_dump_ok, ints_dump_ok.
Qed.

Lemma tagged_reloaded (h : host) (a : ndarray) :
  Numpy.wf_ndarray a ->
  reloaded_again (_json_custom_hook h) (tagged a) = Ok (PyNdarray a).
Proof.
  intros Hwf. unfold reloaded_again, tagged.
  rewrite reloaded_with_dict. cbn [map]. unfold on_value. cbn [fst snd].
  rewrite sorted_tagged, reloaded_with_tuple, ints_reloaded.
  cbn [bind map sequence fst snd key_str reloaded_with].
  now apply hook_tagged.
Qed.

Lemma integral_inv (t : dtype) :
  Numpy.is_integral t = true -> Numpy.is_float t = false /\ Numpy.is_complex t = false.
Proof. now destruct t. Qed.

Lemma item_integral (t : dtype) (b : list byte) :
  Numpy.is_integral t = true -> Numpy.item t b = PyInt (Numpy.item_of_bytes t b).
Proof.
  intros H. apply integral_inv in H as [Hf Hc]. unfold Numpy.item.
  now rewrite Hf, Hc.
Qed.

Lemma tolist_ints (a : ndarray) :
  Numpy.is_integral (nd_dtype a) = true ->
  Numpy.tolist a = PyList (map PyInt (Numpy.ints a)).
Proof.
  intros H. unfold Numpy.tolist, Numpy.ints. rewrite map_map. f_equal.
  apply map_ext. intros b. now apply item_integral.
Qed.

Lemma small_dump_ok (lvl : nat) (a : ndarray) :
  Numpy.is_integral (nd_dtype a) = true ->
  snd (_iterencode_again lvl (Numpy.tolist a)) = None.
Proof. intros H. rewrite tolist_ints by exact H. apply list_dump_ok, ints_dump_ok. Qed.

Lemma small_reloaded (hook : pyval -> result pyval) (a : ndarray) :
  Numpy.is_integral (nd_dtype a) = true ->
  reloaded_again hook (Numpy.tolist a) = Ok (Numpy.tolist a).
Proof.
  intros H. rewrite tolist_ints by exact H.
  unfold reloaded_again. cbn [reloaded_with].
  now rewrite ints_reloaded.
Qed.

(** A one-item object: nothing to sort, and no tag among the keys. *)
Lemma singleton_reloaded (h : host) (k : string) (o v : pyval) :
  reloaded (_json_custom_hook h) o = Ok v ->
  (k =? "__ndarray__")%string = false ->
  (k =? "__qbytearray__")%string = false ->
  reloaded (_json_custom_hook h) (PyDict [(KStr k, o)]) = Ok (PyDict [(KStr k, v)]).
Proof.
  intros Hr H1 H2. unfold reloaded in *.
  rewrite reloaded_with_dict. cbn [map]. unfold on_value.
  cbn [map fst snd sorted insert_item bind sequence key_str].
  rewrite Hr. cbn [bind]. unfold _json_custom_hook, dict_contains, dict_of_pairs.
  cbn [fold_left dict_setitem fst snd dict_get key_eqb]. now rewrite H1, H2.
Qed.

Lemma singleton_dump_ok (lvl : nat) (k : key) (o : pyval) :
  snd (_iterencode (S lvl) o) = None ->
  snd (_iterencode lvl (PyDict [(k, o)])) = None.
Proof.
  intros H. unfold _iterencode. eapply dict_dump_ok; [reflexivity|].
  now repeat constructor.
Qed.

(** ** Keys that cannot be ordered *)

Lemma key_lt_kind (a b : key) :
  match key_lt a b with
  | Ok _ => is_int_key a = is_int_key b
  | Raise e => e = TypeError /\ is_int_key a <> is_int_key b
  end.
Proof. destruct a, b; cbn; auto; split; auto; discriminate. Qed.

Section Kinds.
Context {V : Type}.

Lemma insert_item_raise (x : key * V) (l : list (key * V)) (e : exn) :
  insert_item x l = Raise e -> e = TypeError.
Proof.
  induction l as [|y l IH]; cbn [insert_item]; [discriminate|].
  pose proof (key_lt_kind (fst x) (fst y)) as Hk.
  destruct (key_lt (fst x) (fst y)) as [[|]|e']; cbn [bind].
  - discriminate.
  - destruct (insert_item x l); cbn [bind]; [discriminate|].
    intros [= <-]. now apply IH.
  - intros [= <-]. apply Hk.
Qed.

Lemma sorted_raise (l : list (key * V)) (e : exn) :
  sorted l = Raise e -> e = TypeError.
Proof.
  induction l as [|x l IH]; cbn [sorted]; [discriminate|].
  destruct (sorted l) as [r|e']; cbn [bind].
  - apply insert_item_raise.
  - intros [= <-]. now apply IH.
Qed.

(** The items that [sorted] puts in order have keys of one kind. *)
Lemma sorted_one_kind (l r : list (key * V)) :
  sorted l = Ok r ->
  forall x y, In x l -> In y l -> is_int_key (fst x) = is_int_key (fst y).
Proof.
  revert r. induction l as [|a l IH]; intros r Hs; [contradiction|].
  cbn [sorted] in Hs.
  destruct (sorted l) as [r'|] eqn:Er; cbn [bind] in Hs; [|discriminate].
  specialize (IH r' eq_refl).
  assert (Ha : forall y, In y l -> is_int_key (fst a) = is_int_key (fst y)).
  { intros y Hy. pose proof (sorted_perm _ _ Er) as Hp.
    destruct r' as [|b r'].
    - apply Permutation_sym, Permutation_nil in Hp. subst l. contradiction.
    - cbn [insert_item] in Hs.
      pose proof (key_lt_kind (fst a) (fst b)) as Hk.
      destruct (key_lt (fst a) (fst b)); cbn [bind] in Hs; [|discriminate].
      rewrite Hk. apply IH; [|exact Hy].
      apply Permutation_in with (l := b :: r'); [now symmetry | now left]. }
  intros x y [<-|Hx] [<-|Hy]; auto. symmetry. auto.
Qed.

(** A dict with an integer key and a string key cannot be sorted. *)
Lemma sorted_mixed (l : list (key * V)) (n : Z) (s : string) :
  In (KInt n) (map fst l) -> In (KStr s) (map fst l) ->
  sorted l = Raise TypeError.
Proof.
  intros Hn Hs. apply in_map_iff in Hn as (x & Ex & Hx).
  apply in_map_iff in Hs as (y & Ey & Hy).
  destruct (sorted l) as [r|e] eqn:E.
  - pose proof (sorted_one_kind _ _ E x y Hx Hy) as Hk.
    rewrite Ex, Ey in Hk. discriminate Hk.
  - f_equal. now apply sorted_raise with (l := l).
Qed.
End Kinds.

Lemma andthen_raise (a b : emit) (e : exn) :
  snd a = None -> snd b = Some e -> snd (a >> b) = Some e.
Proof. unfold andthen. now intros ->. Qed.

Lemma andthen_raised (a b : emit) (e : exn) :
  snd a = Some e -> snd (a >> b) = Some e.
Proof. unfold andthen. intros H. now rewrite H. Qed.

Lemma mixed_dict_raises (lvl : nat) (d : list (key * pyval)) (n : Z) (s : string) :
  In (KInt n) (map fst d) -> In (KStr s) (map fst d) ->
  snd (_iterencode lvl (PyDict d)) = Some TypeError.
Proof.
  intros Hn Hs. unfold _iterencode. cbn [_iterencode_with].
  destruct d as [|kv d]; [contradiction|].
  rewrite sorted_map, (sorted_mixed _ n s Hn Hs).
  apply andthen_raised, andthen_raised, andthen_raise; reflexivity.
Qed.

Lemma stringify_singleton (k : key) (v : pyval) :
  exists k', _stringify_keys (PyDict [(k, v)]) = Ok (PyDict [(k', v)]).
Proof. destruct k; eexists; reflexivity. Qed.

(** ** Keys with leading zeros *)

Lemma decimal_isdigit (s : string) :
  string_forallb is_decimal s = true -> string_forallb char_isdigit s = true.
Proof.
  induction s as [|c s IH]; [reflexivity|]. cbn [string_forallb].
  intros H. apply andb_prop in H as [Hc Hs].
  rewrite (IH Hs). unfold char_isdigit. now rewrite Hc.
Qed.

Lemma of_uint_nonneg (d : uint) : 0 <= Z.of_uint d.
Proof. unfold Z.of_uint. apply N2Z.is_nonneg. Qed.

Lemma intstr_leading_zero (n : Z) (s : string) : intstr n = String "0" s -> s = EmptyString.
Proof.
  unfold intstr. destruct n as [|p|p]; cbn [Z.to_int NilEmpty.string_of_int].
  - now intros [= <-].
  - pose proof (pos_to_uint_head p) as Hh.
    destruct (Pos.to_uint p); try contradiction; discriminate.
  - discriminate.
Qed.

(** ** Small arrays *)









(** ** The elements of an array *)

Lemma chunks_nil (k fuel : nat) : Numpy.chunks k fuel [] = [].
Proof. now destruct fuel. Qed.




Lemma length_le_of_N (k : nat) (n : N) : List.length (Numpy.le_of_N k n) = k.
Proof.
  revert n. induction k as [|k IH]; intros n; cbn [Numpy.le_of_N List.length];
    [reflexivity | now rewrite IH].
Qed.

Lemma le_to_N_le_of_N (k : nat) (n : N) :
  (n < 256 ^ N.of_nat k)%N -> Numpy.le_to_N (Numpy.le_of_N k n) = n.
Proof.
  revert n. induction k as [|k IH]; intros n Hn;
    cbn [Numpy.le_of_N Numpy.le_to_N].
  - cbn in Hn. lia.
  - rewrite Nat2N.inj_succ, N.pow_succ_r' in Hn.
    rewrite IH by (apply N.Div0.div_lt_upper_bound; lia).
    unfold Base64.byte_of_N.
    destruct (Byte.of_N (n mod 256)) as [x|] eqn:E.
    + apply Byte.to_of_N in E. rewrite E.
      pose proof (N.div_mod n 256 ltac:(lia)). lia.
    + apply Byte.of_N_None_iff in E. pose proof (N.mod_lt n 256 ltac:(lia)). lia.
Qed.


(** The width of an element in bits, as a power of two. *)
Lemma width_pow (t : dtype) :
  2 ^ (8 * Z.of_nat (Numpy.itemsize t)) = Z.of_N (256 ^ N.of_nat (Numpy.itemsize t)).
Proof. destruct t; reflexivity. Qed.

Lemma half_width (t : dtype) :
  2 * 2 ^ (8 * Z.of_nat (Numpy.itemsize t) - 1) = 2 ^ (8 * Z.of_nat (Numpy.itemsize t)).
Proof. destruct t; reflexivity. Qed.

Lemma length_bytes_of_item (t : dtype) (z : Z) :
  List.length (Numpy.bytes_of_item t z) = Numpy.itemsize t.
Proof. apply length_le_of_N. Qed.

(** The integer of the bytes of an integer that fits. *)
Lemma item_of_bytes_of_item (t : dtype) (z : Z) :
  Numpy.fits t z = true -> Numpy.item_of_bytes t (Numpy.bytes_of_item t z) = z.
Proof.
  unfold Numpy.fits, Numpy.item_of_bytes, Numpy.bytes_of_item.
  pose proof (width_pow t) as Hw. pose proof (half_width t) as Hh.
  set (w := 8 * Z.of_nat (Numpy.itemsize t)) in *.
  assert (Hp : 0 < 2 ^ w) by (rewrite Hw; lia).
  pose proof (Z.mod_pos_bound z (2 ^ w) Hp) as Hm.
  intros Hf. rewrite le_to_N_le_of_N by lia. rewrite Z2N.id by lia.
  destruct (Numpy.signed t); cbn [andb].
  - apply andb_prop in Hf as [H1 H2]. apply Z.leb_le in H1. apply Z.ltb_lt in H2.
    destruct (Z.leb_spec (2 ^ (w - 1)) (z mod 2 ^ w)) as [H|H].
    + destruct (Z.lt_ge_cases z 0) as [Hz|Hz].
      * rewrite <- (Z.mod_unique z (2 ^ w) (-1) (z + 2 ^ w)); lia.
      * rewrite Z.mod_small in H by lia. lia.
    + destruct (Z.lt_ge_cases z 0) as [Hz|Hz].
      * rewrite <- (Z.mod_unique z (2 ^ w) (-1) (z + 2 ^ w)) in H; lia.
      * apply Z.mod_small. lia.
  - apply andb_prop in Hf as [H1 H2]. apply Z.leb_le in H1. apply Z.ltb_lt in H2.
    apply Z.mod_small. lia.
Qed.





Lemma chunks_app (k : nat) (e : list byte) :
  (0 < k)%nat -> List.length e = k ->
  forall fuel b, (List.length (e ++ b)%list <= fuel)%nat ->
    Numpy.chunks k fuel (e ++ b)%list
    = e :: Numpy.chunks k (fuel - 1) b.
Proof.
  intros Hk He fuel b Hf.
  destruct e as [|x e]; [cbn in He; lia|].
  destruct fuel as [|fuel]; [cbn in Hf; lia|].
  cbn [List.app Numpy.chunks]. rewrite Nat.sub_1_r. cbn [Nat.pred].
  change (x :: (e ++ b)%list) with ((x :: e) ++ b)%list.
  rewrite <- He, firstn_app, skipn_app, firstn_all, skipn_all, Nat.sub_diag.
  cbn [firstn skipn]. now rewrite List.app_nil_r.
Qed.

Lemma chunks_fuel (k : nat) :
  (0 < k)%nat ->
  forall f1 f2 b, (List.length b <= f1)%nat -> (List.length b <= f2)%nat ->
                  Numpy.chunks k f1 b = Numpy.chunks k f2 b.
Proof.
  intros Hk. induction f1 as [|f1 IH]; intros f2 b H1 H2.
  - destruct b; [now rewrite !chunks_nil | cbn in H1; lia].
  - destruct b as [|x r]; [now rewrite !chunks_nil|].
    destruct f2 as [|f2]; [cbn in H2; lia|].
    cbn [Numpy.chunks]. f_equal. apply IH; rewrite length_skipn;
      cbn [List.length] in *; lia.
Qed.

Lemma chunks_concat_items (k : nat) (es : list (list byte)) :
  (0 < k)%nat -> Forall (fun e => List.length e = k) es ->
  forall fuel, (List.length (List.concat es) <= fuel)%nat ->
               Numpy.chunks k fuel (List.concat es) = es.
Proof.
  intros Hk. induction 1 as [|e es He Hes IH]; intros fuel Hf;
    cbn [List.concat] in *.
  - apply chunks_nil.
  - rewrite chunks_app by assumption. f_equal. apply IH.
    rewrite length_app in Hf. lia.
Qed.

(** The array of a list of integers that fit: it is well-formed, of one
    dimension, and its integers are those of the list. *)
Lemma ints_of_array (t : dtype) (l : list Z) :
  forallb (Numpy.fits t) l = true ->
  Numpy.wf_ndarray (Numpy.array t l) /\ Numpy.ints (Numpy.array t l) = l.
Proof.
  intros Hf.
  assert (Hlen : forall l, List.length (List.concat (map (Numpy.bytes_of_item t) l))
                           = (List.length l * Numpy.itemsize t)%nat).
  { clear. induction l as [|z l IH]; [reflexivity|].
    cbn [map List.concat List.length]. rewrite length_app, length_bytes_of_item, IH.
    lia. }
  split.
  - split; cbn [Numpy.array nd_shape nd_dtype nd_data].
    + repeat constructor. lia.
    + rewrite Hlen. cbn [Numpy.prod fold_right]. lia.
  - unfold Numpy.ints, Numpy.elements. cbn [Numpy.array nd_shape nd_dtype nd_data].
    rewrite chunks_concat_items.
    + rewrite map_map. rewrite <- (map_id l) at 2. apply map_ext_in.
      intros z Hz. apply item_of_bytes_of_item.
      rewrite forallb_forall in Hf. now apply Hf.
    + apply itemsize_pos.
    + rewrite Forall_map. apply Forall_forall. intros z _.
      apply length_bytes_of_item.
    + lia.
Qed.

(** ** Complex numbers *)






(** ** Dicts built by assignment *)

Lemma key_eqb_eq (a b : key) : key_eqb a b = true <-> a = b.
Proof.
  destruct a as [x|x], b as [y|y]; cbn; split; try discriminate.
  - intros H. apply Z.eqb_eq in H. now subst.
  - intros [= ->]. apply Z.eqb_refl.
  - intros H. apply String.eqb_eq in H. now subst.
  - intros [= ->]. apply String.eqb_refl.
Qed.

Section Setitem.
Context {V : Type}.

Lemma setitem_keys (d : list (key * V)) (k : key) (v : V) (k' : key) :
  In k' (map fst (dict_setitem d k v)) <-> In k' (map fst d) \/ k' = k.
Proof.
  induction d as [|[k1 v1] d IH]; cbn [dict_setitem map In fst].
  - intuition.
  - destruct (key_eqb k1 k) eqn:E; cbn [map In fst].
    + apply key_eqb_eq in E. subst k1. intuition.
    + rewrite IH. intuition.
Qed.

Lemma setitem_Forall (Q : key * V -> Prop) (d : list (key * V)) (k : key) (v : V) :
  Forall Q d -> Q (k, v) -> Forall Q (dict_setitem d k v).
Proof.
  intros Hd Hq. induction Hd as [|[k1 v1] d H1 Hd IH]; cbn [dict_setitem].
  - now repeat constructor.
  - destruct (key_eqb k1 k) eqn:E.
    + apply key_eqb_eq in E. subst k1. now constructor.
    + now constructor.
Qed.

Lemma setitems_keys (f : key -> key) (l acc : list (key * V)) (k : key) :
  In k (map fst (setitems f acc l))
  <-> In k (map fst acc) \/ exists k0, In k0 (map fst l) /\ k = f k0.
Proof.
  unfold setitems. revert acc.
  induction l as [|[k1 v1] l IH]; intros acc; cbn [fold_left map In fst snd].
  - split; [auto | intros [H | (k0 & [] & _)]; exact H].
  - rewrite IH, setitem_keys. split.
    + intros [[H | ->] | (k0 & H & ->)]; eauto.
    + intros [H | (k0 & [<- | H] & ->)]; eauto.
Qed.

Lemma setitems_Forall (Q : key * V -> Prop) (f : key -> key) (l acc : list (key * V)) :
  Forall Q acc -> Forall (fun kv => Q (f (fst kv), snd kv)) l ->
  Forall Q (setitems f acc l).
Proof.
  unfold setitems. intros Ha Hl. revert acc Ha.
  induction Hl as [|[k1 v1] l H1 Hl IH]; intros acc Ha; cbn [fold_left]; [exact Ha|].
  apply IH. now apply setitem_Forall.
Qed.

Lemma dict_of_pairs_setitems (pairs : list (key * V)) :
  dict_of_pairs pairs = setitems (fun k => k) [] pairs.
Proof. reflexivity. Qed.

Lemma dict_get_In (d : list (key * V)) (k : key) (v : V) :
  dict_get d k = Some v -> In k (map fst d).
Proof.
  induction d as [|[k1 v1] d IH]; cbn [dict_get map In fst]; [discriminate|].
  destruct (key_eqb k1 k) eqn:E; [|auto].
  apply key_eqb_eq in E. auto.
Qed.
End Setitem.

(** The loop of [_intify_keys] when no [int] raises. *)
Lemma intify_fold (g : key -> key) (l acc : list (key * pyval)) :
  Forall (fun kv => intified (fst kv) = Ok (g (fst kv))) l ->
  fold_left (fun acc kv => out <- acc ;; k <- intified (fst kv) ;;
                           Ok (dict_setitem out k (snd kv))) l (Ok acc)
  = Ok (setitems g acc l).
Proof.
  unfold setitems. intros H. revert acc.
  induction H as [|kv l Hk Hl IH]; intros acc; cbn [fold_left bind]; [reflexivity|].
  rewrite Hk. cbn [bind]. apply IH.
Qed.

(** ** Keys that come back *)

Lemma string_of_uint_decimal (d : uint) :
  string_forallb is_decimal (NilEmpty.string_of_uint d) = true.
Proof. induction d; cbn [NilEmpty.string_of_uint string_forallb]; auto. Qed.

Lemma intstr_decimal (n : Z) : 0 <= n -> string_forallb is_decimal (intstr n) = true.
Proof.
  unfold intstr. destruct n as [|p|p]; cbn [Z.to_int NilEmpty.string_of_int]; intros H.
  - reflexivity.
  - apply string_of_uint_decimal.
  - lia.
Qed.

Lemma int_of_intstr (n : Z) : 0 <= n -> int_of_str (intstr n) = Ok n.
Proof.
  intros H. unfold int_of_str. rewrite intstr_decimal by exact H.
  destruct (intstr_start n) as (c & r & E & _).
  assert (Hne : (intstr n =? "")%string = false) by now rewrite E.
  rewrite Hne. cbn [negb andb]. f_equal.
  unfold intstr in *. destruct n as [|p|p]; cbn [Z.to_int NilEmpty.string_of_int] in *.
  - reflexivity.
  - pose proof (read_uint_string_of_uint (Pos.to_uint p) EmptyString eq_refl) as Hr.
    rewrite append_nil_r in Hr. rewrite Hr. apply of_uint_pos_to_uint.
  - lia.
Qed.

(** A key that is an integer of the spec (not negative) comes back as
    itself. *)
Lemma intified_stringified_int (n : Z) :
  0 <= n -> intified (stringified (KInt n)) = Ok (KInt n).
Proof.
  intros H. cbn [stringified _is_integer key_str intified].
  assert (Hd : isdigit (intstr n) = true).
  { pose proof (decimal_isdigit _ (intstr_decimal n H)) as Hc.
    destruct (intstr_start n) as (c & r & E & _). unfold isdigit.
    rewrite E in *. exact Hc. }
  now rewrite Hd, int_of_intstr.
Qed.

(** A string key that is not made of digits comes back as itself. *)
Lemma intified_stringified_str (s : string) :
  isdigit s = false -> intified (stringified (KStr s)) = Ok (KStr s).
Proof. intros H. cbn [stringified _is_integer intified]. now rewrite H. Qed.

Lemma intstr_key_ok (n : Z) : key_ok (KStr (intstr n)) = true.
Proof.
  cbn [key_ok]. destruct (Z.leb_spec 0 n) as [H|H].
  - rewrite intstr_decimal by exact H. apply implb_true_r.
  - destruct n as [|p|p]; try lia. reflexivity.
Qed.

Lemma intified_total (k : key) :
  key_ok k = true -> exists k', intified k = Ok k'.
Proof.
  destruct k as [n|s]; cbn [key_ok intified]; [eauto|].
  destruct (isdigit s) eqn:Ed; [|eauto]. cbn [implb]. intros Hs.
  unfold int_of_str. rewrite Hs.
  assert (Hne : (s =? "")%string = false) by (destruct s; [discriminate Ed | reflexivity]).
  rewrite Hne. cbn. eauto.
Qed.

(** ** Mappings that save and load *)

Section OneKind.
Context {V : Type}.

Lemma insert_item_same_kind (x : key * V) (l : list (key * V)) :
  Forall (fun y => is_int_key (fst y) = is_int_key (fst x)) l ->
  exists r, insert_item x l = Ok r.
Proof.
  induction 1 as [|y l Hy Hl (r & IH)]; cbn [insert_item]; [eauto|].
  pose proof (key_lt_kind (fst x) (fst y)) as Hk.
  destruct (key_lt (fst x) (fst y)) as [[|]|e]; cbn [bind].
  - eauto.
  - rewrite IH. cbn [bind]. eauto.
  - destruct Hk as [_ Hk]. now rewrite Hy in Hk.
Qed.

Lemma one_kind_cons (k : key) (ks : list key) :
  one_kind (k :: ks) = true ->
  one_kind ks = true /\ Forall (fun k' => is_int_key k' = is_int_key k) ks.
Proof.
  unfold one_kind. cbn [forallb]. intros H.
  apply orb_prop in H as [H|H]; apply andb_prop in H as [Hk Hks].
  - rewrite Hks. split; [reflexivity|].
    apply Forall_forall. intros k' Hk'.
    rewrite forallb_forall in Hks. now rewrite Hk, (Hks k' Hk').
  - rewrite Hks, orb_true_r. split; [reflexivity|].
    apply Forall_forall. intros k' Hk'.
    rewrite forallb_forall in Hks. specialize (Hks k' Hk').
    apply negb_true_iff in Hk, Hks. now rewrite Hk, Hks.
Qed.

(** Items whose keys are of one kind can be sorted. *)
Lemma sorted_one_kind_ok (l : list (key * V)) :
  one_kind (map fst l) = true -> exists r, sorted l = Ok r.
Proof.
  induction l as [|x l IH]; cbn [map sorted]; [eauto|].
  intros H. apply one_kind_cons in H as [Hl Hx].
  destruct (IH Hl) as (r' & Er). rewrite Er. cbn [bind].
  apply insert_item_same_kind.
  rewrite <- (sorted_perm _ _ Er). now rewrite Forall_map in Hx.
Qed.
End OneKind.

Lemma wf_ndarrayb_wf (a : ndarray) : wf_ndarrayb a = true -> Numpy.wf_ndarray a.
Proof.
  unfold wf_ndarrayb, Numpy.wf_ndarray. intros H.
  apply andb_prop in H as [Hs Hl]. split.
  - apply Forall_forall. intros n Hn. rewrite forallb_forall in Hs.
    now apply Z.leb_le, Hs.
  - now apply Z.eqb_eq.
Qed.

Lemma storable_dump_ok (o : pyval) :
  storable o = true -> forall lvl, snd (_iterencode lvl o) = None.
Proof.
  induction o as [ | b | n | t bits | s | l IH | l IH | d IH | a | t b | b | b | t bits ]
    using pyval_ind; cbn [storable]; intros Hs lvl;
    try reflexivity; try discriminate.
  - now destruct b.
  - refine (proj1 (list_dump_ok _ lvl l _)).
    rewrite forallb_forall in Hs. rewrite Forall_forall in *.
    intros o Ho. now apply IH, Hs.
  - refine (proj2 (list_dump_ok _ lvl l _)).
    rewrite forallb_forall in Hs. rewrite Forall_forall in *.
    intros o Ho. now apply IH, Hs.
  - apply andb_prop in Hs as [Hk Hv].
    destruct (sorted_one_kind_ok d Hk) as (sd & Es).
    unfold _iterencode. eapply dict_dump_ok; [exact Es|].
    rewrite forallb_forall in Hv. rewrite Forall_forall in *.
    intros kv Hkv. specialize (Hv kv Hkv). apply andb_prop in Hv as [_ Hv].
    now apply IH.
  - unfold _iterencode. cbn [_iterencode_with].
    apply andb_prop in Hs as [_ Hs].
    destruct (is_small a) eqn:E.
    + rewrite default_small by exact E. apply small_dump_ok. exact Hs.
    + rewrite default_tagged by exact E. apply tagged_dump_ok.
  - unfold _iterencode. cbn [_iterencode_with default].
    now rewrite item_integral.
Qed.

Section Reloads.
Variable h : host.

Local Abbreviation rel := (reloaded (_json_custom_hook h)).

Lemma sequence_string_keys (l : list pyval) :
  Forall (fun o => exists v, rel o = Ok v /\ string_keys v = true) l ->
  exists vs, sequence (map rel l) = Ok vs /\ forallb string_keys vs = true.
Proof.
  induction 1 as [|o l (v & Ev & Hv) Hl (vs & Evs & Hvs)]; cbn [map sequence].
  - now exists [].
  - rewrite Ev, Evs. cbn [bind]. exists (v :: vs). cbn [forallb].
    now rewrite Hv, Hvs.
Qed.

Lemma sequence_pairs (sd : list (key * pyval)) :
  Forall (fun kv => exists v, rel (snd kv) = Ok v /\ string_keys v = true) sd ->
  exists pairs,
    sequence (map (fun kr => v <- snd kr ;; Ok (KStr (key_str (fst kr)), v))
                (map (on_value rel) sd)) = Ok pairs /\
    map fst pairs = map (fun kv => KStr (key_str (fst kv))) sd /\
    Forall (fun p => string_keys (snd p) = true) pairs.
Proof.
  induction 1 as [|[k o] sd (v & Ev & Hv) Hl (pairs & Ep & Hk & Hp)];
    cbn [map sequence].
  - exists []. repeat split. constructor.
  - change (on_value ?f (k, o)) with (k, f o). cbn [fst snd] in *.
    rewrite Ev, Ep. cbn [bind].
    exists ((KStr (key_str k), v) :: pairs). cbn [map fst snd].
    rewrite Hk. repeat split. now constructor.
Qed.

(** A mapping of values that load, with keys of one kind and no tag,
    loads as a mapping with the texts of its keys for keys. *)
Lemma reloaded_dict (d : list (key * pyval)) :
  one_kind (map fst d) = true ->
  Forall (fun kv => tag_key (key_str (fst kv)) = false /\
                    exists v, rel (snd kv) = Ok v /\ string_keys v = true) d ->
  exists out,
    rel (PyDict d) = Ok (PyDict out) /\
    (forall k, In k (map fst out)
               <-> exists k0, In k0 (map fst d) /\ k = KStr (key_str k0)) /\
    Forall (fun kv => string_keys (snd kv) = true) out.
Proof.
  intros Hk Hd.
  destruct (sorted_one_kind_ok d Hk) as (sd & Es).
  pose proof (sorted_perm _ _ Es) as Hperm.
  assert (Hsd : Forall (fun kv => exists v, rel (snd kv) = Ok v /\ string_keys v = true) sd).
  { rewrite <- Hperm. revert Hd. apply Forall_impl. tauto. }
  destruct (sequence_pairs sd Hsd) as (pairs & Ep & Hkeys & Hvals).
  assert (Hout : forall k, In k (map fst (dict_of_pairs pairs))
                           <-> exists k0, In k0 (map fst d) /\ k = KStr (key_str k0)).
  { intros k. rewrite dict_of_pairs_setitems, setitems_keys, Hkeys. cbn [map In].
    split.
    - intros [[] | (k1 & Hk1 & ->)].
      apply in_map_iff in Hk1 as ([k0 v0] & <- & Hin). exists k0. split; [|reflexivity].
      apply in_map_iff. exists (k0, v0). split; [reflexivity|].
      now apply Permutation_in with (l := sd); [symmetry|].
    - intros (k0 & Hin & ->). right. exists (KStr (key_str k0)). split; [|reflexivity].
      apply in_map_iff in Hin as ([k0' v0] & <- & Hin).
      apply in_map_iff. exists (k0', v0). split; [reflexivity|].
      now apply Permutation_in with (l := d). }
  exists (dict_of_pairs pairs). repeat split.
  - unfold reloaded. rewrite reloaded_with_dict. fold (reloaded (_json_custom_hook h)).
    rewrite sorted_map, Es. cbn [bind]. rewrite Ep. cbn [bind].
    unfold _json_custom_hook.
    assert (Hno : forall s, tag_key s = true ->
                            dict_contains (dict_of_pairs pairs) (KStr s) = false).
    { intros s Hs. unfold dict_contains.
      destruct (dict_get (dict_of_pairs pairs) (KStr s)) as [v|] eqn:Eg; [|reflexivity].
      apply dict_get_In, Hout in Eg as (k0 & Hin & [= ->]).
      apply in_map_iff in Hin as (kv & <- & Hin).
      rewrite Forall_forall in Hd. destruct (Hd kv Hin) as [Ht _].
      now rewrite Ht in Hs. }
    now rewrite !Hno.
  - apply Hout.
  - apply Hout.
  - rewrite dict_of_pairs_setitems. apply setitems_Forall; [constructor|].
    revert Hvals. apply Forall_impl. auto.
Qed.

Lemma string_keys_dict (out : list (key * pyval)) :
  (forall k, In k (map fst out) -> is_int_key k = false) ->
  Forall (fun kv => string_keys (snd kv) = true) out ->
  string_keys (PyDict out) = true.
Proof.
  intros Hk Hv. cbn [string_keys]. apply forallb_forall. intros kv Hin.
  rewrite Forall_forall in Hv. rewrite (Hv kv Hin), andb_true_r.
  apply negb_true_iff, Hk, in_map, Hin.
Qed.

Lemma storable_reloaded (o : pyval) :
  storable o = true -> exists v, rel o = Ok v /\ string_keys v = true.
Proof.
  induction o as [ | b | n | t bits | s | l IH | l IH | d IH | a | t b | b | b | t bits ]
    using pyval_ind; cbn [storable]; intros Hs;
    try (eexists; split; reflexivity); try discriminate.
  - destruct (sequence_string_keys l) as (vs & Evs & Hvs).
    { rewrite forallb_forall in Hs. rewrite Forall_forall in *. auto. }
    exists (PyList vs). unfold reloaded in *. cbn [reloaded_with].
    now rewrite Evs.
  - destruct (sequence_string_keys l) as (vs & Evs & Hvs).
    { rewrite forallb_forall in Hs. rewrite Forall_forall in *. auto. }
    exists (PyList vs). unfold reloaded in *. cbn [reloaded_with].
    now rewrite Evs.
  - apply andb_prop in Hs as [Hk Hv].
    destruct (reloaded_dict d Hk) as (out & Eo & Hkeys & Hvals).
    { rewrite forallb_forall in Hv. rewrite Forall_forall in *.
      intros kv Hin. specialize (Hv kv Hin). apply andb_prop in Hv as [Ht Hv].
      apply negb_true_iff in Ht. auto. }
    exists (PyDict out). split; [exact Eo|].
    apply string_keys_dict; [|exact Hvals].
    intros k Hin. apply Hkeys in Hin as (k0 & _ & ->). reflexivity.
  - unfold reloaded. cbn [reloaded_with].
    apply andb_prop in Hs as [Hwf Hs]. destruct (is_small a) eqn:E.
    + cbn [negb orb] in Hs.
      rewrite default_small by exact E. cbn [bind].
      rewrite small_reloaded by exact Hs.
      eexists. split; [reflexivity|]. rewrite tolist_ints by exact Hs.
      cbn [string_keys].
      apply forallb_forall. intros v Hv. apply in_map_iff in Hv as (z & <- & _).
      reflexivity.
    + rewrite default_tagged by exact E. cbn [bind].
      rewrite tagged_reloaded by now apply wf_ndarrayb_wf.
      eexists. split; reflexivity.
  - unfold reloaded. cbn [reloaded_with default bind].
    rewrite item_integral by exact Hs. eexists. split; reflexivity.
Qed.
End Reloads.

Lemma stringified_str (k : key) : stringified k = KStr (key_str k).
Proof. now destruct k. Qed.

Lemma storable_items_inv (d : list (key * pyval)) :
  storable_items d = true ->
  Forall (fun kv => tag_key (key_str (fst kv)) = false /\
                    key_ok (fst kv) = true /\ storable (snd kv) = true) d.
Proof.
  unfold storable_items. rewrite forallb_forall, Forall_forall.
  intros H kv Hin. specialize (H kv Hin).
  apply andb_prop in H as [H H3]. apply andb_prop in H as [H1 H2].
  apply negb_true_iff in H1. auto.
Qed.

Lemma key_ok_stringified (k : key) : key_ok k = true -> key_ok (KStr (key_str k)) = true.
Proof. destruct k as [n|s]; [intros _; apply intstr_key_ok | auto]. Qed.

(** ** The order of the keys *)

Lemma ltb_compare (a b : string) : String.ltb a b = true <-> String.compare a b = Lt.
Proof. unfold String.ltb. destruct (String.compare a b); intuition discriminate. Qed.

Lemma string_ltb_trans (a b c : string) :
  String.ltb a b = true -> String.ltb b c = true -> String.ltb a c = true.
Proof.
  rewrite !ltb_compare.
  change String.compare with String_as_OT.cmp. rewrite !String_as_OT.cmp_lt.
  apply String_as_OT.lt_trans.
Qed.

Lemma string_ltb_asym (a b : string) : String.ltb a b = true -> String.ltb b a = false.
Proof.
  rewrite ltb_compare. intros H. unfold String.ltb.
  now rewrite String.compare_antisym, H.
Qed.

Lemma string_ltb_total (a b : string) :
  String.ltb a b = false -> String.ltb b a = false -> a = b.
Proof.
  unfold String.ltb. intros H1 H2.
  destruct (String.compare a b) eqn:E; try discriminate H1.
  - now apply String.compare_eq_iff.
  - rewrite String.compare_antisym, E in H2. discriminate H2.
Qed.

Lemma key_lt_trans (a b c : key) :
  key_lt a b = Ok true -> key_lt b c = Ok true -> key_lt a c = Ok true.
Proof.
  destruct a, b, c; cbn; try discriminate; intros [= H1] [= H2]; f_equal.
  - apply Z.ltb_lt in H1, H2. apply Z.ltb_lt. lia.
  - eauto using string_ltb_trans.
Qed.

Lemma key_lt_asym (a b : key) : key_lt a b = Ok true -> key_lt b a = Ok false.
Proof.
  destruct a, b; cbn; try discriminate; intros [= H]; f_equal.
  - apply Z.ltb_lt in H. apply Z.ltb_ge. lia.
  - now apply string_ltb_asym.
Qed.

Lemma key_lt_total (a b : key) :
  key_lt a b = Ok false -> key_lt b a = Ok false -> a = b.
Proof.
  destruct a, b; cbn; try discriminate; intros [= H1] [= H2]; f_equal.
  - apply Z.ltb_ge in H1, H2. lia.
  - now apply string_ltb_total.
Qed.

Section SortedOrder.
Context {V : Type}.

Lemma insert_item_sorted (x : key * V) (l r : list (key * V)) :
  StronglySorted before l ->
  ~ In (fst x) (map fst l) ->
  insert_item x l = Ok r ->
  StronglySorted before r.
Proof.
  intros Hl. revert r.
  induction Hl as [|y l Hl IH Hy]; intros r Hx Hi; cbn [insert_item] in Hi.
  - injection Hi as <-. repeat constructor.
  - destruct (key_lt (fst x) (fst y)) as [[|]|] eqn:E; cbn [bind] in Hi;
      try discriminate.
    + injection Hi as <-. constructor; [now constructor|].
      constructor; [exact E|].
      revert Hy. apply Forall_impl. intros z Hz. unfold before in *.
      eauto using key_lt_trans.
    + destruct (insert_item x l) as [r'|] eqn:Er; cbn [bind] in Hi; [|discriminate].
      injection Hi as <-. cbn [map In] in Hx.
      constructor.
      * apply IH; [tauto | reflexivity].
      * rewrite <- (insert_item_perm _ _ _ Er). constructor; [|exact Hy].
        unfold before.
        pose proof (key_lt_kind (fst y) (fst x)) as Hk.
        pose proof (key_lt_kind (fst x) (fst y)) as Hk'. rewrite E in Hk'.
        destruct (key_lt (fst y) (fst x)) as [[|]|] eqn:E'; [reflexivity | |].
        -- exfalso. apply Hx. left. now apply key_lt_total.
        -- destruct Hk as [_ Hk]. now rewrite Hk' in Hk.
Qed.

(** [sorted] puts the items of a dict in the strict order of their keys. *)
Lemma sorted_sorted (l r : list (key * V)) :
  NoDup (map fst l) -> sorted l = Ok r -> StronglySorted before r.
Proof.
  revert r. induction l as [|x l IH]; intros r Hn Hs; cbn [sorted] in Hs.
  - injection Hs as <-. constructor.
  - destruct (sorted l) as [r'|] eqn:Er; cbn [bind] in Hs; [|discriminate].
    cbn [map] in Hn. inversion Hn as [|? ? Hx Hn']; subst.
    apply (insert_item_sorted x r'); [now apply IH | | exact Hs].
    now rewrite <- (sorted_perm _ _ Er).
Qed.

(** Two sorted lists of the same items are the same list. *)
Lemma sorted_unique (l1 l2 : list (key * V)) :
  StronglySorted before l1 -> StronglySorted before l2 ->
  Permutation l1 l2 -> l1 = l2.
Proof.
  intros H1. revert l2.
  induction H1 as [|a l1 H1 IH Ha]; intros l2 H2 Hp.
  - now apply Permutation_nil in Hp.
  - destruct H2 as [|b l2 H2 Hb].
    + now apply Permutation_sym, Permutation_nil in Hp.
    + assert (Eab : a = b).
      { assert (Hin1 : In a (b :: l2)) by (rewrite <- Hp; now left).
        assert (Hin2 : In b (a :: l1)) by (rewrite Hp; now left).
        destruct Hin1 as [<-|Hin1]; [reflexivity|].
        destruct Hin2 as [<-|Hin2]; [reflexivity|].
        rewrite Forall_forall in Ha, Hb.
        pose proof (Ha _ Hin2) as Hab. pose proof (Hb _ Hin1) as Hba.
        unfold before in *. apply key_lt_asym in Hab. congruence. }
      subst b. f_equal. apply IH; [exact H2|].
      now apply Permutation_cons_inv in Hp.
Qed.

Lemma one_kind_of_sorted (l r : list (key * V)) :
  sorted l = Ok r -> one_kind (map fst l) = true.
Proof.
  intros Hs. pose proof (sorted_one_kind _ _ Hs) as Hk.
  unfold one_kind. destruct l as [|x l]; [reflexivity|].
  destruct (is_int_key (fst x)) eqn:Ex.
  - apply orb_true_iff. left. apply forallb_forall.
    intros k Hin. apply in_map_iff in Hin as (y & <- & Hy).
    rewrite <- Ex. symmetry. apply Hk; [now left | exact Hy].
  - apply orb_true_iff. right. apply forallb_forall.
    intros k Hin. apply in_map_iff in Hin as (y & <- & Hy).
    apply negb_true_iff. rewrite <- Ex. symmetry. apply Hk; [now left | exact Hy].
Qed.

Lemma one_kind_perm (ks ks' : list key) :
  Permutation ks ks' -> one_kind ks = true -> one_kind ks' = true.
Proof.
  unfold one_kind. intros Hp H. apply orb_true_iff in H. apply orb_true_iff.
  destruct H as [H|H]; [left | right]; rewrite forallb_forall in *;
    intros k Hk; apply H; now rewrite Hp.
Qed.

(** [sorted] does not depend on the order of insertion. *)
Lemma sorted_perm_invariant (l l' : list (key * V)) :
  NoDup (map fst l) -> Permutation l l' -> sorted l = sorted l'.
Proof.
  intros Hn Hp.
  assert (Hn' : NoDup (map fst l'))
    by (eapply Permutation_NoDup; [apply Permutation_map, Hp | exact Hn]).
  destruct (sorted l) as [r|e] eqn:E.
  - pose proof (one_kind_of_sorted _ _ E) as Hk.
    apply (one_kind_perm _ (map fst l')) in Hk; [|now apply Permutation_map].
    destruct (sorted_one_kind_ok l' Hk) as (r' & E'). rewrite E'. f_equal.
    apply sorted_unique; eauto using sorted_sorted.
    now rewrite <- (sorted_perm _ _ E), <- (sorted_perm _ _ E').
  - pose proof (sorted_raise _ _ E) as ->.
    destruct (sorted l') as [r'|e'] eqn:E'.
    + pose proof (one_kind_of_sorted _ _ E') as Hk.
      apply (one_kind_perm _ (map fst l)) in Hk;
        [|now apply Permutation_map, Permutation_sym].
      destruct (sorted_one_kind_ok l Hk) as (r & Er).
      rewrite E in Er. discriminate Er.
    + now apply sorted_raise in E' as ->.
Qed.
End SortedOrder.

(** ** The dump of the same mapping *)

Lemma list_dump_congr (other : nat -> pyval -> emit) (lvl : nat) (l l2 : list pyval) :
  map (_iterencode_with other (S lvl)) l = map (_iterencode_with other (S lvl)) l2 ->
  _iterencode_with other lvl (PyList l) = _iterencode_with other lvl (PyList l2) /\
  _iterencode_with other lvl (PyTuple l) = _iterencode_with other lvl (PyTuple l2).
Proof.
  intros H. cbn [_iterencode_with].
  destruct l, l2; try discriminate H; [now split|]. now rewrite H.
Qed.

Lemma dict_dump_sorted (other : nat -> pyval -> emit) (lvl : nat)
      (d : list (key * pyval)) :
  d <> [] ->
  _iterencode_with other lvl (PyDict d)
  = yield "{" >> yield (newline_indent (S lvl))
      >> match sorted (map (on_value (_iterencode_with other (S lvl))) d) with
         | Raise e => throw e
         | Ok items => emit_join (item_separator (S lvl)) true (map entry items)
         end
      >> yield (newline_indent lvl) >> yield "}".
Proof. destruct d; [contradiction | reflexivity]. Qed.

Lemma dict_dump_congr (other : nat -> pyval -> emit) (lvl : nat)
      (d d2 : list (key * pyval)) :
  sorted (map (on_value (_iterencode_with other (S lvl))) d)
  = sorted (map (on_value (_iterencode_with other (S lvl))) d2) ->
  List.length d = List.length d2 ->
  _iterencode_with other lvl (PyDict d) = _iterencode_with other lvl (PyDict d2).
Proof.
  intros H Hl. destruct d as [|x d], d2 as [|y d2]; try discriminate Hl.
  - reflexivity.
  - rewrite !dict_dump_sorted by discriminate. now rewrite H.
Qed.

Lemma map_fst_on_value {V W : Type} (f : V -> W) (l : list (key * V)) :
  map fst (map (on_value f) l) = map fst l.
Proof. rewrite map_map. reflexivity. Qed.

Theorem same_mapping_dump (v : pyval) :
  forall w, same_mapping v w -> forall lvl, _iterencode lvl v = _iterencode lvl w.
Proof.
  induction v as [ | b | n | t bits | s | l IH | l IH | d IH | a | t b | b | b | t bits ]
    using pyval_ind;
    intros w H; inversion H; subst; try reflexivity; intros lvl.
  - refine (proj1 (list_dump_congr _ lvl l l2 _)).
    match goal with H : Forall2 _ l l2 |- _ => induction H as [|x y l l2 Hxy Hl IHl] end;
      [reflexivity|].
    inversion IH as [|? ? IHx IHl']; subst. cbn [map]. f_equal.
    + now apply IHx.
    + apply IHl; [exact IHl' | now constructor].
  - refine (proj2 (list_dump_congr _ lvl l l2 _)).
    match goal with H : Forall2 _ l l2 |- _ => induction H as [|x y l l2 Hxy Hl IHl] end;
      [reflexivity|].
    inversion IH as [|? ? IHx IHl']; subst. cbn [map]. f_equal.
    + now apply IHx.
    + apply IHl; [exact IHl' | now constructor].
  - match goal with
    | Hn : NoDup (map fst d), Hp : Permutation d ?m, Hf : Forall2 _ ?m ?d2 |- _ =>
        rename m into dm; rename Hn into Hnodup; rename Hp into Hperm; rename Hf into Hsame
    end.
    apply dict_dump_congr.
    + rewrite (sorted_perm_invariant _ (map (on_value (_iterencode (S lvl))) dm)).
      * f_equal. rewrite Hperm in IH. clear - IH Hsame.
        induction Hsame as [|x y dm d2 [Hk Hv] Hl IHl]; [reflexivity|].
        inversion IH as [|? ? IHx IHl']; subst. cbn [map]. f_equal.
        -- unfold on_value. rewrite Hk. f_equal. now apply IHx.
        -- now apply IHl.
      * now rewrite map_fst_on_value.
      * now apply Permutation_map.
    + rewrite (Permutation_length Hperm). eapply Forall2_length, Hsame.
Qed.

(** ** The keys of the top-level mapping *)

Section Fresh.
Context {V : Type}.

Lemma setitem_fresh (d : list (key * V)) (k : key) (v : V) :
  ~ In k (map fst d) -> dict_setitem d k v = (d ++ [(k, v)])%list.
Proof.
  induction d as [|[k1 v1] d IH]; cbn [dict_setitem map In fst app]; [reflexivity|].
  intros H. destruct (key_eqb k1 k) eqn:E.
  - apply key_eqb_eq in E. tauto.
  - rewrite IH by tauto. reflexivity.
Qed.

(** Without two keys that [f] makes equal, the loop stores one item for
    each item, in the same order. *)
Lemma setitems_fresh (f : key -> key) (l acc : list (key * V)) :
  NoDup (map fst acc ++ map f (map fst l))%list ->
  setitems f acc l = (acc ++ map (fun kv => (f (fst kv), snd kv)) l)%list.
Proof.
  unfold setitems. revert acc.
  induction l as [|[k v] l IH]; intros acc Hn; cbn [fold_left map fst snd].
  - now rewrite List.app_nil_r.
  - cbn [map fst] in Hn. rewrite setitem_fresh.
    + rewrite IH; [now rewrite <- List.app_assoc|].
      rewrite List.map_app. cbn [map fst]. rewrite <- List.app_assoc. exact Hn.
    + apply NoDup_remove_2 in Hn. intros Hin. apply Hn, in_or_app. now left.
Qed.
End Fresh.

Lemma stringify_fresh (d : list (key * pyval)) :
  NoDup (map (fun kv => key_str (fst kv)) d) ->
  _stringify_keys (PyDict d)
  = Ok (PyDict (map (fun kv => (stringified (fst kv), snd kv)) d)) /\
  NoDup (map fst (map (fun kv => (stringified (fst kv), snd kv)) d)).
Proof.
  intros Hn.
  assert (Hn' : NoDup (map stringified (map fst d))).
  { rewrite map_map. clear - Hn.
    induction d as [|[k v] d IH]; cbn [map fst] in *; [constructor|].
    inversion Hn as [|? ? Hk Hd]; subst. constructor; [|now apply IH].
    rewrite stringified_str. intros Hin. apply Hk.
    apply in_map_iff in Hin as (kv & E & Hin). rewrite stringified_str in E.
    injection E as E. apply in_map_iff. now exists kv. }
  split.
  - unfold _stringify_keys. f_equal. f_equal.
    apply (setitems_fresh stringified d []). exact Hn'.
  - now rewrite !map_map in *.
Qed.

Lemma save_json_dict (f : file) (d d1 : list (key * pyval)) :
  _stringify_keys (PyDict d) = Ok (PyDict d1) ->
  _save_json f (PyDict d)
  = (Some (fst (dump (PyDict d1))),
     match snd (dump (PyDict d1)) with None => Ok tt | Some e => Raise e end).
Proof. intros H. unfold _save_json. now rewrite H. Qed.

(** * The claims *)

(** C1, as the spec has it, fails: the integer key of a nested mapping
    comes back as a string.  [{"a": {1: 2}}] loads as [{"a": {"1": 2}}]. *)
Lemma nested_key_not_restored :
  _load_json (mk_host true) (fst (_save_json None int_nested))
  = Ok (PyDict [(KStr "a", PyDict [(KStr "1", PyInt 2)])]) /\
  _load_json (mk_host true) (fst (_save_json None int_nested)) <> Ok int_nested.
Proof. split; [reflexivity | discriminate]. Qed.

(** C1, amended.  A mapping whose items are storable saves, and loads as a
    mapping in which every top-level key that was an integer of the spec
    (not negative) is that integer again, every top-level string key that
    is not made of digits is that string again, every key comes from a key
    of the mapping through [stringified] and [intified], and below the top
    level every key of every mapping is a string: the keys are made
    integers at the top level only. *)
Theorem keys_restored_at_top (h : host) (f : file) (d : list (key * pyval)) :
  storable_items d = true ->
  exists text out,
    _save_json f (PyDict d) = (Some text, Ok tt) /\
    _load_json h (Some text) = Ok (PyDict out) /\
    (forall n, 0 <= n -> In (KInt n) (map fst d) -> In (KInt n) (map fst out)) /\
    (forall s, isdigit s = false -> In (KStr s) (map fst d) -> In (KStr s) (map fst out)) /\
    (forall k, In k (map fst out) ->
               exists k0, In k0 (map fst d) /\ intified (stringified k0) = Ok k) /\
    Forall (fun kv => string_keys (snd kv) = true) out.
Proof.
  intros Hd. apply storable_items_inv in Hd.
  set (d1 := setitems stringified [] d).
  assert (Hs : _stringify_keys (PyDict d) = Ok (PyDict d1)) by reflexivity.
  assert (Hk1 : forall k, In k (map fst d1)
                          <-> exists k0, In k0 (map fst d) /\ k = KStr (key_str k0)).
  { intros k. unfold d1. rewrite setitems_keys. cbn [map In]. split.
    - intros [[] | (k0 & Hin & ->)]. exists k0. now rewrite stringified_str.
    - intros (k0 & Hin & ->). right. exists k0. now rewrite stringified_str. }
  assert (Hq1 : Forall (fun kv => tag_key (key_str (fst kv)) = false /\
                                  key_ok (fst kv) = true /\
                                  storable (snd kv) = true) d1).
  { unfold d1. apply setitems_Forall; [constructor|].
    revert Hd. apply Forall_impl. intros [k v] (Ht & Hk & Hv). cbn [fst snd] in *.
    rewrite stringified_str. cbn [key_str]. auto using key_ok_stringified. }
  assert (Hone : one_kind (map fst d1) = true).
  { unfold one_kind. apply orb_true_iff. right. apply forallb_forall.
    intros k Hin. apply Hk1 in Hin as (k0 & _ & ->). reflexivity. }
  assert (Hst : storable (PyDict d1) = true).
  { cbn [storable]. rewrite Hone. cbn [andb]. apply forallb_forall.
    intros kv Hin. rewrite Forall_forall in Hq1.
    destruct (Hq1 kv Hin) as (Ht & _ & Hv). now rewrite Ht, Hv. }
  destruct (reloaded_dict h d1 Hone) as (out1 & Er & Ho1 & Hv1).
  { revert Hq1. apply Forall_impl. intros kv (Ht & _ & Hv).
    split; [exact Ht|]. now apply storable_reloaded. }
  destruct (save_load h f d d1 (PyDict out1) Hs (storable_dump_ok _ Hst 0%nat) Er)
    as (Hsave & Hload).
  assert (Hkeys1 : forall k, In k (map fst out1)
                             <-> exists k0, In k0 (map fst d) /\ k = stringified k0).
  { intros k. rewrite Ho1. split.
    - intros (k1 & Hin & ->). apply Hk1 in Hin as (k0 & Hin & ->).
      exists k0. now rewrite stringified_str.
    - intros (k0 & Hin & ->). exists (KStr (key_str k0)).
      split; [|now rewrite stringified_str]. apply Hk1. eauto. }
  set (g := fun k => match intified k with Ok k' => k' | Raise _ => k end).
  assert (Hg : forall k0 v, In (k0, v) d ->
                            intified (stringified k0) = Ok (g (stringified k0))).
  { intros k0 v Hin. rewrite Forall_forall in Hd.
    destruct (Hd _ Hin) as (_ & Hok & _). cbn [fst] in Hok.
    apply key_ok_stringified, intified_total in Hok as (k' & Ek).
    unfold g. now rewrite stringified_str, Ek. }
  assert (Hint : _intify_keys (PyDict out1) = Ok (PyDict (setitems g [] out1))).
  { unfold _intify_keys. rewrite (intify_fold g); [reflexivity|].
    apply Forall_forall. intros kv Hin.
    assert (Hin' : In (fst kv) (map fst out1)) by now apply in_map.
    apply Hkeys1 in Hin' as (k0 & Hin0 & ->).
    apply in_map_iff in Hin0 as ([k0' v0] & <- & Hin0). eauto. }
  exists (fst (dump (PyDict d1))), (setitems g [] out1).
  split; [exact Hsave|]. split; [now rewrite Hload|].
  assert (Hfinal : forall k0, In k0 (map fst d) ->
                              In (g (stringified k0)) (map fst (setitems g [] out1))).
  { intros k0 Hin. apply setitems_keys. right. exists (stringified k0).
    split; [|reflexivity]. apply Hkeys1. eauto. }
  repeat split.
  - intros n Hn Hin. specialize (Hfinal _ Hin).
    unfold g in Hfinal. now rewrite intified_stringified_int in Hfinal.
  - intros s Hs' Hin. specialize (Hfinal _ Hin).
    unfold g in Hfinal. now rewrite intified_stringified_str in Hfinal.
  - intros k Hin. apply setitems_keys in Hin as [[] | (k1 & Hin & ->)].
    apply Hkeys1 in Hin as (k0 & Hin & ->). exists k0. split; [exact Hin|].
    apply in_map_iff in Hin as ([k0' v0] & <- & Hin). eauto.
  - apply setitems_Forall; [constructor|].
    revert Hv1. apply Forall_impl. auto.
Qed.

(** An instance. *)
Lemma keys_restored_at_top_witness :
  exists text out,
    _save_json None
      (PyDict [(KInt 3, PyList [PyInt 1]); (KStr "group", PyDict [(KInt 1, PyNone)])])
    = (Some text, Ok tt) /\
    _load_json (mk_host false) (Some text) = Ok (PyDict out) /\
    (forall n, 0 <= n ->
               In (KInt n) (map fst [(KInt 3, PyList [PyInt 1]);
                                     (KStr "group", PyDict [(KInt 1, PyNone)])]) ->
               In (KInt n) (map fst out)) /\
    (forall s, isdigit s = false ->
               In (KStr s) (map fst [(KInt 3, PyList [PyInt 1]);
                                     (KStr "group", PyDict [(KInt 1, PyNone)])]) ->
               In (KStr s) (map fst out)) /\
    (forall k, In k (map fst out) ->
               exists k0,
                 In k0 (map fst [(KInt 3, PyList [PyInt 1]);
                                 (KStr "group", PyDict [(KInt 1, PyNone)])]) /\
                 intified (stringified k0) = Ok k) /\
    Forall (fun kv => string_keys (snd kv) = true) out.
Proof.
  apply (keys_restored_at_top (mk_host false) None
           [(KInt 3, PyList [PyInt 1]); (KStr "group", PyDict [(KInt 1, PyNone)])]).
  reflexivity.
Defined.

(** C2.  An array with more than ten elements or more than one dimension,
    saved under the key [0] and loaded again, is the same array: same
    dtype, same shape, same bytes, hence same elements. *)
Theorem ndarray_roundtrip (h : host) (f : file) (a : ndarray) :
  Numpy.wf_ndarray a ->
  10 < Numpy.prod (nd_shape a) \/ (1 < Numpy.ndim a)%nat ->
  exists text,
    _save_json f (PyDict [(KInt 0, PyNdarray a)]) = (Some text, Ok tt) /\
    _load_json h (Some text) = Ok (PyDict [(KInt 0, PyNdarray a)]).
Proof.
  intros Hwf Hbig.
  assert (Hs : is_small a = false).
  { unfold is_small, Numpy.ndim, Numpy.prod in *.
    destruct (nd_shape a) as [|n [|m sh]]; cbn in *; try reflexivity.
    destruct (Z.leb_spec n 10); [lia | reflexivity]. }
  exists (fst (dump (PyDict [(KStr "0", PyNdarray a)]))).
  apply (save_load h f _ _ (PyDict [(KStr "0", PyNdarray a)])).
  - reflexivity.
  - apply singleton_dump_ok. unfold _iterencode. cbn [_iterencode_with].
    rewrite default_tagged by exact Hs. apply tagged_dump_ok.
  - apply singleton_reloaded; try reflexivity.
    unfold reloaded. cbn [reloaded_with]. rewrite default_tagged by exact Hs.
    cbn [bind]. now apply tagged_reloaded.
Qed.

(** An instance. *)
Lemma ndarray_roundtrip_witness :
  exists text,
    _save_json None (PyDict [(KInt 0, PyNdarray float_row)]) = (Some text, Ok tt) /\
    _load_json (mk_host false) (Some text) = Ok (PyDict [(KInt 0, PyNdarray float_row)]).
Proof.
  apply (ndarray_roundtrip (mk_host false) None float_row).
  - split; [repeat constructor; discriminate | reflexivity].
  - right. cbn. lia.
Defined.

(** C3.  Without PyQt5 a blob tag does not decode to the raw bytes:
    [_decode_qbytearray] never returns, and loading the text of a blob tag
    raises [UnboundLocalError]. *)
Theorem blob_without_pyqt5 :
  (forall data v, _decode_qbytearray (mk_host false) data <> Ok v) /\
  _load_json (mk_host false) (Some blob_text) = Raise UnboundLocalError.
Proof.
  split; [|reflexivity].
  intros data v. unfold _decode_qbytearray.
  destruct (b64decode_value data); cbn; discriminate.
Qed.

(** C4.  On an input that is not a mapping [_save_json] fails: the
    [assert isinstance(data, dict)] of its first line raises
    [AssertionError], the failure of the precondition on the type of the
    input, and the file is left as it was. *)
Theorem save_non_mapping (f : file) (data : pyval) :
  is_dict data = false ->
  _save_json f data = (f, Raise AssertionError).
Proof. destruct data; try reflexivity. discriminate. Qed.

(** An instance. *)
Lemma save_non_mapping_witness :
  _save_json (Some "{}") (PyInt 1) = (Some "{}", Raise AssertionError).
Proof. apply (save_non_mapping (Some "{}") (PyInt 1)). reflexivity. Defined.

(** C5, as the spec has it, fails: the keys of a nested object are not
    written in the lexicographic order of their strings.  For
    [{"a": {10: None, 2: None}}] the key ["2"] is written before the key
    ["10"], and ["2"] is not less than ["10"]. *)
Lemma nested_keys_not_lexicographic :
  _save_json None two_ten_nested = (Some two_ten_text, Ok tt) /\
  String.ltb "2" "10" = false.
Proof. split; reflexivity. Qed.

(** C5, amended.  The same mapping -- the same items at every level,
    inserted in any order, no two top-level keys with the same text --
    saves as the same text with the same outcome.  The items of the
    top-level object are written in the order of their keys as strings
    (by code points).  The items of any object are written in the order
    of the keys of the dict, integers by value and strings by code points.
    The indentation is [newline_indent] of the level. *)
Theorem same_mapping_same_text :
  (forall f1 f2 d1 d2,
      same_mapping (PyDict d1) (PyDict d2) ->
      NoDup (map (fun kv => key_str (fst kv)) d1) ->
      _save_json f1 (PyDict d1) = _save_json f2 (PyDict d2)) /\
  (forall f d,
      d <> [] ->
      NoDup (map (fun kv => key_str (fst kv)) d) ->
      exists items,
        Permutation (map (fun kv => (stringified (fst kv), snd kv)) d) items /\
        StronglySorted
          (fun a b => String.ltb (key_str (fst a)) (key_str (fst b)) = true) items /\
        let chunks := object_chunks 0 (map (on_value (_iterencode 1)) items) in
        _save_json f (PyDict d)
        = (Some (fst chunks),
           match snd chunks with None => Ok tt | Some e => Raise e end)) /\
  (forall lvl d items,
      d <> [] ->
      NoDup (map fst d) ->
      sorted d = Ok items ->
      Permutation d items /\
      StronglySorted before items /\
      _iterencode lvl (PyDict d)
      = object_chunks lvl (map (on_value (_iterencode (S lvl))) items)).
Proof.
  assert (H3 : forall lvl d items,
             d <> [] -> NoDup (map fst d) -> sorted d = Ok items ->
             Permutation d items /\ StronglySorted before items /\
             _iterencode lvl (PyDict d)
             = object_chunks lvl (map (on_value (_iterencode (S lvl))) items)).
  { intros lvl d items Hne Hn Hs. repeat split.
    - now apply sorted_perm.
    - now apply sorted_sorted with (l := d).
    - unfold _iterencode at 1. rewrite dict_dump_sorted by exact Hne.
      now rewrite sorted_map, Hs. }
  split; [|split; [|exact H3]].
  - intros f1 f2 d1 d2 Hsame Hn.
    inversion Hsame as [v | | | da dm db Hnd Hperm Hf2]; subst.
    + destruct (stringify_fresh d2 Hn) as [Hs _].
      now rewrite !(save_json_dict _ _ _ Hs).
    + assert (Hkeys : map fst dm = map fst d2).
      { clear - Hf2. induction Hf2 as [|x y dm d2 [Hk _] Hl IHl]; [reflexivity|].
        cbn [map]. now rewrite Hk, IHl. }
      assert (Hn2 : NoDup (map (fun kv => key_str (fst kv)) d2)).
      { rewrite <- (map_map fst key_str), <- Hkeys, (map_map fst key_str).
        eapply Permutation_NoDup; [|exact Hn].
        now apply Permutation_map. }
      destruct (stringify_fresh d1 Hn) as [Hs1 Hnd1].
      destruct (stringify_fresh d2 Hn2) as [Hs2 _].
      rewrite (save_json_dict _ _ _ Hs1), (save_json_dict _ _ _ Hs2).
      unfold dump.
      rewrite (same_mapping_dump _ (PyDict (map (fun kv => (stringified (fst kv), snd kv)) d2)));
        [reflexivity|].
      apply same_dict with (d := map (fun kv => (stringified (fst kv), snd kv)) dm).
      * exact Hnd1.
      * now apply Permutation_map.
      * clear - Hf2. induction Hf2 as [|x y dm d2 [Hk Hv] Hl IHl]; cbn [map];
          constructor; [|exact IHl].
        cbn [fst snd]. now rewrite Hk.
  - intros f d Hne Hn.
    destruct (stringify_fresh d Hn) as [Hs Hnd].
    set (d1 := map (fun kv => (stringified (fst kv), snd kv)) d) in *.
    assert (Hne1 : d1 <> []) by (unfold d1; destruct d; [contradiction | discriminate]).
    assert (Hk : one_kind (map fst d1) = true).
    { unfold one_kind. apply orb_true_iff. right. apply forallb_forall.
      intros k Hin. unfold d1 in Hin. rewrite map_map in Hin.
      apply in_map_iff in Hin as (kv & <- & _). cbn [fst].
      now rewrite stringified_str. }
    destruct (sorted_one_kind_ok d1 Hk) as (items & Es).
    destruct (H3 0%nat d1 items Hne1 Hnd Es) as (Hp & Hso & He).
    exists items. split; [exact Hp|]. split.
    + assert (Hstr : Forall (fun a => exists s, fst a = KStr s) items).
      { rewrite <- Hp. unfold d1. rewrite Forall_map. apply Forall_forall.
        intros kv _. cbn [fst]. rewrite stringified_str. eauto. }
      clear - Hso Hstr. induction Hso as [|a items Hso IH Ha]; constructor.
      * inversion Hstr; subst. now apply IH.
      * inversion Hstr as [|? ? (s & Ea) Hst]; subst.
        rewrite Forall_forall in *. intros b Hb.
        specialize (Ha b Hb). destruct (Hst b Hb) as (s' & Eb).
        unfold before in Ha. rewrite Ea, Eb in *. cbn in *. now injection Ha.
    + cbv zeta. rewrite (save_json_dict _ _ _ Hs). unfold dump. now rewrite He.
Qed.

(** An instance. *)
Lemma same_mapping_same_text_witness :
  _save_json None (PyDict [(KInt 2, PyNone); (KStr "a", PyDict [(KInt 1, PyNone); (KInt 0, PyNone)])])
  = _save_json None (PyDict [(KStr "a", PyDict [(KInt 0, PyNone); (KInt 1, PyNone)]); (KInt 2, PyNone)]).
Proof.
  apply (proj1 same_mapping_same_text).
  - apply same_dict
      with (d := [(KStr "a", PyDict [(KInt 1, PyNone); (KInt 0, PyNone)]); (KInt 2, PyNone)]).
    + repeat constructor; cbn; intuition discriminate.
    + apply perm_swap.
    + repeat constructor.
      apply same_dict with (d := [(KInt 0, PyNone); (KInt 1, PyNone)]).
      * repeat constructor; cbn; intuition discriminate.
      * apply perm_swap.
      * repeat constructor.
  - repeat constructor; cbn; intuition discriminate.
Defined.




(** C7.  Decoding the empty text gives the empty mapping: [_load_json] on a
    file of length zero returns [{}] and raises nothing. *)
Theorem load_empty_text (h : host) : _load_json h (Some EmptyString) = Ok (PyDict []).
Proof. reflexivity. Qed.

(** C8.  The text [{"03": 1, "3": 2}] loads as [{3: 2}]: both keys become
    the integer 3 and the value of the first is lost.  A key of digits
    with a leading zero becomes an integer whose decimal string is not the
    key, so it never comes back as it was. *)
Theorem leading_zero_keys :
  (forall h, _load_json h (Some leading_zero_text) = Ok (PyDict [(KInt 3, PyInt 2)])) /\
  (forall s v,
      string_forallb is_decimal s = true -> s <> EmptyString ->
      exists n,
        _intify_keys (PyDict [(KStr (String "0" s), v)]) = Ok (PyDict [(KInt n, v)]) /\
        _stringify_keys (PyDict [(KInt n, v)]) = Ok (PyDict [(KStr (intstr n), v)]) /\
        intstr n <> String "0" s).
Proof.
  split; [reflexivity|].
  intros s v Hs Hne.
  exists (Z.of_uint (fst (read_uint (String "0" s)))). repeat split.
  - unfold _intify_keys. cbn [fold_left bind fst snd intified].
    assert (Hi : isdigit (String "0" s) = true).
    { unfold isdigit. cbn [string_forallb].
      change (char_isdigit "0") with true. now apply decimal_isdigit. }
    rewrite Hi. unfold int_of_str. cbn [string_forallb].
    change (is_decimal "0") with true. rewrite Hs. reflexivity.
  - intros H. now apply intstr_leading_zero in H.
Qed.

(** An instance. *)
Lemma leading_zero_keys_witness :
  exists n,
    _intify_keys (PyDict [(KStr "007", PyNone)]) = Ok (PyDict [(KInt n, PyNone)]) /\
    _stringify_keys (PyDict [(KInt n, PyNone)]) = Ok (PyDict [(KStr (intstr n), PyNone)]) /\
    intstr n <> "007".
Proof.
  apply (proj2 leading_zero_keys "07" PyNone); [reflexivity | discriminate].
Defined.

(** C9.  [_load_json] accepts only a text whose value is a mapping: when
    [json.loads] makes of a text that is not empty a value that is not a
    dict, the assertion of [_intify_keys] fails; the text [[1, 2]] is such
    a text. *)
Theorem load_non_mapping :
  (forall h, _load_json h (Some "[1, 2]") = Raise AssertionError) /\
  (forall h contents v,
      contents <> EmptyString ->
      loads (_json_custom_hook h) contents = Ok v ->
      is_dict v = false ->
      _load_json h (Some contents) = Raise AssertionError).
Proof.
  split; [reflexivity|].
  intros h contents v Hne Hl Hd. unfold _load_json.
  apply String.eqb_neq in Hne. rewrite Hne, Hl. cbn [bind].
  destruct v; try reflexivity. discriminate Hd.
Qed.

(** An instance. *)
Lemma load_non_mapping_witness :
  _load_json (mk_host true) (Some "null") = Raise AssertionError.
Proof.
  apply (proj2 load_non_mapping (mk_host true) "null" PyNone);
    [discriminate | reflexivity | reflexivity].
Defined.

(** C10.  [_stringify_keys] works on the top-level mapping only, so a
    nested mapping keeps its keys, and [json.dump] with [sort_keys] cannot
    order an integer key against a string key: [_save_json] raises
    [TypeError] on [{"a": {1: 0, "b": 0}}], and on every mapping with one
    item whose value is a mapping with an integer key and a string key.  The
    file then holds the chunks written before the exception. *)
Theorem nested_mixed_keys :
  _save_json None mixed_nested
  = (Some (String "{" (newline_indent 1 ++ quoted "a" ++ ": {" ++ newline_indent 2)),
     Raise TypeError) /\
  (forall f k d n s,
      In (KInt n) (map fst d) -> In (KStr s) (map fst d) ->
      snd (_save_json f (PyDict [(k, PyDict d)])) = Raise TypeError).
Proof.
  split; [reflexivity|].
  intros f k d n s Hn Hs. unfold _save_json.
  destruct (stringify_singleton k (PyDict d)) as (k' & ->).
  cbn [snd]. unfold dump.
  assert (H : snd (_iterencode 0 (PyDict [(k', PyDict d)])) = Some TypeError).
  { unfold _iterencode at 1. cbn [_iterencode_with map].
    unfold on_value at 1. cbn [fst snd sorted insert_item bind map emit_join].
    fold _iterencode.
    pose proof (mixed_dict_raises 1 d n s Hn Hs) as Hd.
    apply andthen_raised, andthen_raised, andthen_raise; [reflexivity|].
    apply andthen_raised, andthen_raise; [reflexivity|].
    unfold entry. cbn [fst snd]. now apply andthen_raise. }
  now rewrite H.
Qed.

(** An instance. *)
Lemma nested_mixed_keys_witness :
  snd (_save_json None (PyDict [(KInt 7, PyDict [(KStr "x", PyNone); (KInt 3, PyNone)])]))
  = Raise TypeError.
Proof.
  apply (proj2 nested_mixed_keys None (KInt 7) _ 3 "x"); cbn; auto.
Defined.

(** * More of the JSON functions *)

(** ** Texts of whitespace *)

Lemma skip_ws_all (s : string) : string_forallb is_ws s = true -> skip_ws s = EmptyString.
Proof.
  induction s as [|c s IH]; cbn [string_forallb skip_ws]; [reflexivity|].
  intros H. apply andb_prop in H as [-> H]. auto.
Qed.

(** X1.  A file that holds whitespace only is not the empty file: loading it
    raises [JSONDecodeError]. *)
Theorem load_blank_text (h : host) (s : string) :
  s <> EmptyString -> string_forallb is_ws s = true ->
  _load_json h (Some s) = Raise JSONDecodeError.
Proof.
  intros Hne Hws. unfold _load_json.
  apply String.eqb_neq in Hne. rewrite Hne.
  unfold loads. now rewrite (skip_ws_all _ Hws).
Qed.

(** An instance. *)
Lemma load_blank_text_witness :
  _load_json (mk_host true) (Some (String newline " ")) = Raise JSONDecodeError.
Proof.
  apply (load_blank_text (mk_host true) (String newline " ")); [discriminate | reflexivity].
Defined.

(** ** The keys of a loaded mapping *)

Lemma intified_raise (k : key) (e : exn) : intified k = Raise e -> e = ValueError.
Proof.
  destruct k as [n|s]; cbn [intified]; [discriminate|].
  destruct (isdigit s); [|discriminate].
  unfold int_of_str. destruct (_ && _); cbn [bind]; congruence.
Qed.

Lemma intify_fold_raise (l : list (key * pyval)) (e : exn) :
  fold_left intify_step l (Raise e) = Raise e.
Proof. induction l as [|kv l IH]; [reflexivity | exact IH]. Qed.

Lemma intify_fold_raises (l : list (key * pyval)) (acc : result (list (key * pyval)))
      (e : exn) :
  (forall e', acc = Raise e' -> e' = ValueError) ->
  fold_left intify_step l acc = Raise e -> e = ValueError.
Proof.
  revert acc. induction l as [|kv l IH]; cbn [fold_left]; intros acc Hacc H.
  - now apply Hacc.
  - apply IH in H; [exact H|]. intros e' He'. unfold intify_step in He'.
    destruct acc as [out|e0]; cbn [bind] in He'.
    + destruct (intified (fst kv)) as [k|e1] eqn:E; cbn [bind] in He'; [discriminate|].
      injection He' as <-. now apply intified_raise in E.
    + injection He' as <-. now apply Hacc.
Qed.

Lemma intify_fold_bad (l : list (key * pyval)) (acc : result (list (key * pyval)))
      (kv : key * pyval) (e : exn) :
  In kv l -> intified (fst kv) = Raise e ->
  exists e', fold_left intify_step l acc = Raise e'.
Proof.
  revert acc. induction l as [|x l IH]; intros acc Hin Hk; [destruct Hin|].
  destruct Hin as [<-|Hin]; cbn [fold_left].
  - unfold intify_step at 2. destruct acc as [out|e0]; cbn [bind].
    + rewrite Hk. cbn [bind]. rewrite intify_fold_raise. eauto.
    + rewrite intify_fold_raise. eauto.
  - now apply IH.
Qed.

Lemma intified_loaded (k k' : key) :
  string_key k -> intified k = Ok k' -> loaded_key k'.
Proof.
  destruct k as [n|s]; cbn [string_key intified]; [tauto|]. intros _.
  destruct (isdigit s) eqn:E.
  - unfold int_of_str. destruct (_ && _); cbn [bind]; [|discriminate].
    intros [= <-]. apply of_uint_nonneg.
  - now intros [= <-].
Qed.

Lemma intify_fold_loaded (l : list (key * pyval)) (acc : result (list (key * pyval)))
      (out : list (key * pyval)) :
  Forall (fun kv => string_key (fst kv)) l ->
  (forall a, acc = Ok a -> Forall (fun kv => loaded_key (fst kv)) a) ->
  fold_left intify_step l acc = Ok out ->
  Forall (fun kv => loaded_key (fst kv)) out.
Proof.
  intros Hl. revert acc. induction Hl as [|kv l Hkv Hl IH]; cbn [fold_left];
    intros acc Hacc H.
  - now apply Hacc.
  - apply IH in H; [exact H|]. intros a Ha. unfold intify_step in Ha.
    destruct acc as [o|e]; cbn [bind] in Ha; [|discriminate].
    destruct (intified (fst kv)) as [k|e] eqn:E; cbn [bind] in Ha; [|discriminate].
    injection Ha as <-. apply setitem_Forall; [now apply Hacc|].
    cbn [fst]. eapply intified_loaded; eauto.
Qed.

Section Parsed.
Variable h : host.

Local Abbreviation hook := (_json_custom_hook h).

Lemma object_loop_keys (scan : string -> result (pyval * string)) (n : nat) :
  forall s pairs r,
    object_loop scan n s = Ok (pairs, r) ->
    Forall (fun kv : key * pyval => string_key (fst kv)) pairs.
Proof.
  induction n as [|n IH]; intros s pairs r H; cbn [object_loop] in H; [discriminate|].
  destruct (scanstring s) as [[k r0]|]; cbn [bind] in H; [|discriminate].
  destruct (skip_ws r0) as [|c r1]; [discriminate|].
  destruct (c =? ":")%char; [|discriminate].
  destruct (scan (skip_ws r1)) as [[value r2]|]; cbn [bind] in H; [|discriminate].
  destruct (skip_ws r2) as [|c' r3]; [discriminate|].
  destruct (c' =? "}")%char.
  - injection H as <- <-. repeat constructor.
  - destruct (c' =? ",")%char; [|discriminate].
    destruct (skip_ws r3) as [|q r4]; [discriminate|].
    destruct (q =? dquote)%char; [|discriminate].
    destruct (object_loop scan n r4) as [[pairs' r5]|] eqn:E; cbn [bind] in H;
      [|discriminate].
    injection H as <- <-. constructor; [exact I|]. eapply IH; eauto.
Qed.

Lemma decode_qbytearray_not_dict (v : pyval) (m : list (key * pyval)) :
  _decode_qbytearray h v <> Ok (PyDict m).
Proof.
  unfold _decode_qbytearray.
  destruct (b64decode_value v); cbn [bind]; [|discriminate].
  destruct (has_pyqt5 h); discriminate.
Qed.

(** When the hook returns a mapping, it is the mapping it was given. *)
Lemma hook_dict (d : list (key * pyval)) (m : list (key * pyval)) :
  hook (PyDict d) = Ok (PyDict m) -> m = d.
Proof.
  unfold _json_custom_hook.
  destruct (dict_contains d (KStr "__ndarray__")).
  - destruct (getitem d "__ndarray__"); cbn [bind]; [|discriminate].
    destruct (b64decode_value _); cbn [bind]; [|discriminate].
    destruct (getitem d "dtype"); cbn [bind]; [|discriminate].
    destruct (Numpy.frombuffer _ _); cbn [bind]; [|discriminate].
    destruct (getitem d "shape"); cbn [bind]; [|discriminate].
    destruct (Numpy.reshape _ _); cbn [bind]; discriminate.
  - destruct (dict_contains d (KStr "__qbytearray__")).
    + destruct (getitem d "__qbytearray__"); cbn [bind]; [|discriminate].
      intros H. now apply decode_qbytearray_not_dict in H.
    + now intros [= <-].
Qed.

Lemma scan_number_not_dict (s r : string) (m : list (key * pyval)) :
  scan_number s <> Ok (PyDict m, r).
Proof.
  unfold scan_number.
  destruct (match s with
            | String c r => if (c =? "-")%char then (true, r) else (false, s)
            | EmptyString => (false, s)
            end) as [neg body].
  destruct (int_part body) as [[d r0]|].
  - destruct (frac_or_exp r0); [discriminate|]. destruct neg; discriminate.
  - destruct (strip_prefix "NaN" s), (strip_prefix "Infinity" s),
      (strip_prefix "-Infinity" s); discriminate.
Qed.

(** The keys of a mapping that the decoder returns are strings. *)
Lemma scan_once_dict_keys (fuel : nat) (s r : string) (m : list (key * pyval)) :
  scan_once hook fuel s = Ok (PyDict m, r) ->
  Forall (fun kv => string_key (fst kv)) m.
Proof.
  destruct fuel as [|fuel]; cbn [scan_once]; [discriminate|].
  destruct s as [|c s]; [discriminate|].
  destruct (c =? dquote)%char.
  { destruct (scanstring s) as [[str r1]|]; cbn [bind]; discriminate. }
  destruct (c =? "{")%char.
  { destruct (skip_ws s) as [|c' r1]; [discriminate|].
    destruct (c' =? "}")%char.
    - destruct (hook (PyDict [])) as [v|] eqn:E; cbn [bind]; [|discriminate].
      intros [= -> <-]. apply hook_dict in E as ->. constructor.
    - destruct (c' =? dquote)%char; [|discriminate].
      destruct (object_loop _ fuel r1) as [[pairs r2]|] eqn:E; cbn [bind];
        [|discriminate].
      destruct (hook (PyDict (dict_of_pairs pairs))) as [v|] eqn:E'; cbn [bind];
        [|discriminate].
      intros [= -> <-]. apply hook_dict in E' as ->.
      rewrite dict_of_pairs_setitems. apply setitems_Forall; [constructor|].
      apply object_loop_keys in E. revert E. apply Forall_impl. auto. }
  destruct (c =? "[")%char.
  { destruct (skip_ws s) as [|c' r1]; [discriminate|].
    destruct (c' =? "]")%char; [discriminate|].
    destruct (array_loop _ fuel _) as [[values r2]|]; cbn [bind]; discriminate. }
  destruct (strip_prefix "null" _); [discriminate|].
  destruct (strip_prefix "true" _); [discriminate|].
  destruct (strip_prefix "false" _); [discriminate|].
  intros H. now apply scan_number_not_dict in H.
Qed.
End Parsed.

(** X2.  Whatever the file holds, what [_load_json] returns is a mapping,
    and none of its keys is a string of digits: a key is an integer that is
    not negative or a string that [str.isdigit] refuses. *)
Theorem load_json_keys (h : host) (f : file) (v : pyval) :
  _load_json h f = Ok v ->
  exists m, v = PyDict m /\ Forall (fun kv => loaded_key (fst kv)) m.
Proof.
  unfold _load_json. destruct f as [contents|]; [|discriminate].
  destruct (contents =? "")%string.
  - intros [= <-]. exists []. split; [reflexivity | constructor].
  - unfold loads.
    destruct (scan_once _ _ _) as [[obj r]|] eqn:E; cbn [bind]; [|discriminate].
    destruct (skip_ws r); cbn [bind]; [|discriminate].
    destruct obj; cbn [_intify_keys]; try discriminate.
    apply scan_once_dict_keys in E.
    fold intify_step.
    destruct (fold_left intify_step d (Ok [])) as [out|] eqn:Ef; cbn [bind];
      [|discriminate].
    intros [= <-]. exists out. split; [reflexivity|].
    eapply intify_fold_loaded; [exact E | | exact Ef].
    intros a [= <-]. constructor.
Qed.

(** An instance. *)
Lemma load_json_keys_witness :
  exists m, PyDict [(KInt 3, PyInt 2)] = PyDict m /\
            Forall (fun kv => loaded_key (fst kv)) m.
Proof.
  apply (load_json_keys (mk_host false) (Some leading_zero_text)). reflexivity.
Defined.

(** ** Keys that do not come back *)

Lemma isdigit_not_tag (s : string) : isdigit s = true -> tag_key s = false.
Proof.
  intros H. unfold tag_key.
  destruct (String.eqb_spec s "__ndarray__") as [->|_]; [discriminate H|].
  destruct (String.eqb_spec s "__qbytearray__") as [->|_]; [discriminate H|].
  reflexivity.
Qed.

Lemma tag_key_inv (s : string) :
  tag_key s = false ->
  (s =? "__ndarray__")%string = false /\ (s =? "__qbytearray__")%string = false.
Proof. unfold tag_key. intros H. now apply orb_false_elim in H. Qed.

(** A mapping of one item whose value is storable saves, and loads as what
    [_intify_keys] makes of the item read back. *)
Lemma save_load_singleton (h : host) (f : file) (s : string) (v : pyval) :
  tag_key s = false -> storable v = true ->
  exists text v',
    _save_json f (PyDict [(KStr s, v)]) = (Some text, Ok tt) /\
    _load_json h (Some text) = _intify_keys (PyDict [(KStr s, v')]).
Proof.
  intros Ht Hv. apply tag_key_inv in Ht as [Ht1 Ht2].
  destruct (storable_reloaded h v Hv) as (v' & Ev & _).
  exists (fst (dump (PyDict [(KStr s, v)]))), v'.
  apply (save_load h f [(KStr s, v)] [(KStr s, v)] (PyDict [(KStr s, v')])).
  - reflexivity.
  - apply singleton_dump_ok. now apply storable_dump_ok.
  - now apply singleton_reloaded.
Qed.

(** X3.  A string key of digits that are not all decimal digits (the
    superscript two is one for [str.isdigit]) makes [_intify_keys] raise
    [ValueError]: a mapping with such a key saves, and the file that is
    written cannot be loaded. *)
Theorem superscript_key_not_loadable (s : string) :
  isdigit s = true -> string_forallb is_decimal s = false ->
  (forall d, In (KStr s) (map fst d) -> _intify_keys (PyDict d) = Raise ValueError) /\
  (forall h f v,
      storable v = true ->
      exists text,
        _save_json f (PyDict [(KStr s, v)]) = (Some text, Ok tt) /\
        _load_json h (Some text) = Raise ValueError).
Proof.
  intros Hd Hn.
  assert (Hk : intified (KStr s) = Raise ValueError).
  { cbn [intified]. rewrite Hd. unfold int_of_str. now rewrite Hn. }
  assert (H1 : forall d, In (KStr s) (map fst d) ->
                         _intify_keys (PyDict d) = Raise ValueError).
  { intros d Hin. apply in_map_iff in Hin as (kv & Ek & Hin).
    unfold _intify_keys. fold intify_step.
    destruct (intify_fold_bad d (Ok []) kv ValueError Hin) as (e & He);
      [now rewrite Ek|].
    rewrite He. cbn [bind]. f_equal.
    apply (intify_fold_raises d (Ok [])) in He; [exact He | discriminate]. }
  split; [exact H1|].
  intros h f v Hv.
  destruct (save_load_singleton h f s v (isdigit_not_tag s Hd) Hv)
    as (text & v' & Hs & Hl).
  exists text. split; [exact Hs|]. rewrite Hl. apply H1. now left.
Qed.

(** An instance. *)
Lemma superscript_key_not_loadable_witness :
  exists text,
    _save_json None (PyDict [(KStr superscript_two, PyNone)]) = (Some text, Ok tt) /\
    _load_json (mk_host true) (Some text) = Raise ValueError.
Proof.
  apply (proj2 (superscript_key_not_loadable superscript_two eq_refl eq_refl)
           (mk_host true) None PyNone eq_refl).
Defined.

Lemma intstr_negative (n : Z) :
  n < 0 -> exists r, intstr n = String "-" r.
Proof.
  destruct n as [|p|p]; try lia. intros _.
  unfold intstr. cbn. eauto.
Qed.

(** X4.  A negative integer key does not come back as an integer: its
    text starts with a minus sign, which [str.isdigit] refuses, so the key
    is loaded as the string of the integer. *)
Theorem negative_key_loads_as_string (h : host) (f : file) (n : Z) (v : pyval) :
  n < 0 -> storable v = true ->
  exists text v',
    _save_json f (PyDict [(KInt n, v)]) = (Some text, Ok tt) /\
    _load_json h (Some text) = Ok (PyDict [(KStr (intstr n), v')]).
Proof.
  intros Hn Hv. destruct (intstr_negative n Hn) as (r & Er).
  assert (Hd : isdigit (intstr n) = false) by now rewrite Er.
  assert (Ht : tag_key (intstr n) = false).
  { rewrite Er. unfold tag_key. reflexivity. }
  destruct (save_load_singleton h f (intstr n) v Ht Hv) as (text & v' & Hs & Hl).
  exists text, v'. split.
  - rewrite <- Hs. unfold _save_json. reflexivity.
  - rewrite Hl. unfold _intify_keys. cbn [fold_left fst snd intified bind].
    now rewrite Hd.
Qed.

(** An instance. *)
Lemma negative_key_loads_as_string_witness :
  exists text v',
    _save_json None (PyDict [(KInt (-3), PyInt 1)]) = (Some text, Ok tt) /\
    _load_json (mk_host true) (Some text) = Ok (PyDict [(KStr (intstr (-3)), v')]).
Proof.
  apply (negative_key_loads_as_string (mk_host true) None (-3) (PyInt 1));
    [lia | reflexivity].
Defined.

(** ** Keys that come back *)

Lemma isdigit_intstr (n : Z) : 0 <= n -> isdigit (intstr n) = true.
Proof.
  intros Hn. pose proof (intified_stringified_int n Hn) as H.
  cbn in H. destruct (isdigit (intstr n)); [reflexivity | discriminate].
Qed.

Lemma intstr_inj (n m : Z) : 0 <= n -> 0 <= m -> intstr n = intstr m -> n = m.
Proof.
  intros Hn Hm E. pose proof (int_of_intstr n Hn) as H1.
  rewrite E, (int_of_intstr m Hm) in H1. congruence.
Qed.

Lemma restorable_key_inj (a b : key) :
  restorable_key a = true -> restorable_key b = true ->
  key_str a = key_str b -> a = b.
Proof.
  destruct a as [n|s], b as [m|t]; cbn [restorable_key key_str]; intros Ha Hb E.
  - f_equal. apply Z.leb_le in Ha, Hb. now apply intstr_inj.
  - apply Z.leb_le in Ha. apply negb_true_iff in Hb.
    rewrite <- E, isdigit_intstr in Hb by exact Ha. discriminate.
  - apply Z.leb_le in Hb. apply negb_true_iff in Ha.
    rewrite E, isdigit_intstr in Ha by exact Hb. discriminate.
  - now f_equal.
Qed.

Lemma NoDup_map_inj {A B : Type} (f : A -> B) (l : list A) :
  (forall a b, In a l -> In b l -> f a = f b -> a = b) ->
  NoDup l -> NoDup (map f l).
Proof.
  intros Hinj Hn. induction Hn as [|x l Hx Hn IH]; cbn [map]; constructor.
  - intros Hin. apply in_map_iff in Hin as (y & Ey & Hy).
    apply Hinj in Ey; [subst; contradiction | now right | now left].
  - apply IH. intros a b Ha Hb. apply Hinj; now right.
Qed.

Lemma restorable_intified (k : key) :
  restorable_key k = true -> intified (stringified k) = Ok k.
Proof.
  destruct k as [n|s]; cbn [restorable_key]; intros H.
  - apply intified_stringified_int. now apply Z.leb_le.
  - apply intified_stringified_str. now apply negb_true_iff.
Qed.

(** The keys that come back have distinct texts. *)
Lemma restorable_keys_fresh (d : list (key * pyval)) :
  NoDup (map fst d) ->
  Forall (fun kv => restorable_key (fst kv) = true) d ->
  NoDup (map (fun kv => key_str (fst kv)) d).
Proof.
  intros Hn Hr. rewrite <- (map_map fst key_str).
  apply NoDup_map_inj; [|exact Hn].
  intros a b Ha Hb. rewrite Forall_forall in Hr.
  apply in_map_iff in Ha as (x & <- & Hx). apply in_map_iff in Hb as (y & <- & Hy).
  apply restorable_key_inj; auto.
Qed.

Lemma intify_restorable (d : list (key * pyval)) :
  NoDup (map fst d) ->
  Forall (fun kv => restorable_key (fst kv) = true) d ->
  _intify_keys (PyDict (map (fun kv => (stringified (fst kv), snd kv)) d))
  = Ok (PyDict d).
Proof.
  intros Hn Hr.
  set (g := fun k => match intified k with Ok k' => k' | Raise _ => k end).
  assert (Hg : forall kv, In kv d -> g (stringified (fst kv)) = fst kv).
  { intros kv Hin. rewrite Forall_forall in Hr. unfold g.
    now rewrite restorable_intified by auto. }
  unfold _intify_keys. rewrite (intify_fold g).
  - cbn [bind]. do 2 f_equal. rewrite setitems_fresh.
    + cbn [app]. rewrite map_map. cbn [fst snd].
      rewrite <- (map_id d) at 2. apply map_ext_in.
      intros [k v] Hin. cbn [fst snd]. f_equal. exact (Hg _ Hin).
    + cbn [map app]. rewrite !map_map. cbn [fst].
      erewrite map_ext_in; [exact Hn|]. exact Hg.
  - rewrite Forall_map. apply Forall_forall. intros kv Hin. cbn [fst].
    rewrite Forall_forall in Hr. unfold g.
    now rewrite restorable_intified by auto.
Qed.

(** X5.  [_intify_keys] undoes [_stringify_keys] on a mapping whose keys
    are integers that are not negative and strings that [str.isdigit]
    refuses: the same items come back, in the same order. *)
Theorem intify_stringify_inverse (d : list (key * pyval)) :
  NoDup (map fst d) ->
  forallb (fun kv => restorable_key (fst kv)) d = true ->
  exists d1,
    _stringify_keys (PyDict d) = Ok (PyDict d1) /\
    _intify_keys (PyDict d1) = Ok (PyDict d).
Proof.
  intros Hn Hr. rewrite forallb_forall in Hr. apply Forall_forall in Hr.
  destruct (stringify_fresh d (restorable_keys_fresh d Hn Hr)) as [Hs _].
  eexists. split; [exact Hs|]. now apply intify_restorable.
Qed.

(** An instance. *)
Lemma intify_stringify_inverse_witness :
  exists d1,
    _stringify_keys (PyDict [(KInt 10, PyNone); (KStr "a1", PyInt 0); (KInt 2, PyNone)])
    = Ok (PyDict d1) /\
    _intify_keys (PyDict d1)
    = Ok (PyDict [(KInt 10, PyNone); (KStr "a1", PyInt 0); (KInt 2, PyNone)]).
Proof.
  apply (intify_stringify_inverse
           [(KInt 10, PyNone); (KStr "a1", PyInt 0); (KInt 2, PyNone)]).
  - repeat constructor; cbn; intuition discriminate.
  - reflexivity.
Defined.

(** ** Keys that collide *)

Section Collide.
Context {V : Type}.

Lemma setitem_NoDup (d : list (key * V)) (k : key) (v : V) :
  NoDup (map fst d) -> NoDup (map fst (dict_setitem d k v)).
Proof.
  induction d as [|[k' v'] d IH]; cbn [dict_setitem map fst]; intros Hn.
  - repeat constructor. intros [].
  - inversion Hn as [|? ? Hk' Hd]; subst.
    destruct (key_eqb k' k) eqn:E; cbn [map fst]; [exact Hn|].
    constructor; [|now apply IH].
    intros Hin. apply setitem_keys in Hin as [Hin | ->]; [contradiction|].
    assert (key_eqb k k = true) by now apply key_eqb_eq. congruence.
Qed.

Lemma setitems_NoDup (f : key -> key) (l acc : list (key * V)) :
  NoDup (map fst acc) -> NoDup (map fst (setitems f acc l)).
Proof.
  revert acc. induction l as [|kv l IH]; intros acc Hn; [exact Hn|].
  apply IH. now apply setitem_NoDup.
Qed.

(** When two keys of a mapping get the same key, the mapping built has fewer
    items. *)
Lemma setitems_collide (f : key -> key) (l : list (key * V)) (a b : key) :
  In a (map fst l) -> In b (map fst l) -> a <> b -> f a = f b ->
  (List.length (setitems f [] l) < List.length l)%nat.
Proof.
  intros Ha Hb Hab Hf.
  set (out := setitems f [] l).
  assert (Hn : NoDup (map fst out)) by (apply setitems_NoDup; constructor).
  assert (Hi : incl (map fst out) (map f (map fst l))).
  { intros k Hk. apply setitems_keys in Hk as [[] | (k0 & Hk0 & ->)].
    now apply in_map. }
  destruct (Nat.lt_ge_cases (List.length out) (List.length l)) as [Hlt|Hge];
    [exact Hlt|].
  exfalso.
  assert (Hn' : NoDup (map f (map fst l))).
  { eapply NoDup_incl_NoDup; [exact Hn | | exact Hi].
    now rewrite !length_map. }
  clear - Ha Hb Hab Hf Hn'.
  induction (map fst l) as [|x ks IH]; [destruct Ha|].
  cbn [map] in Hn'. inversion Hn' as [|? ? Hx Hks]; subst.
  destruct Ha as [->|Ha], Hb as [->|Hb].
  - contradiction.
  - apply Hx. rewrite Hf. now apply in_map.
  - apply Hx. rewrite <- Hf. now apply in_map.
  - now apply IH.
Qed.
End Collide.

(** X6.  [_stringify_keys] gives an integer key and the string of its
    decimal text the same key: of a mapping that holds both, only one item
    is kept for the two, and the other value is lost before anything is
    written. *)
Theorem stringify_keys_collide (d : list (key * pyval)) (n : Z) :
  In (KInt n) (map fst d) -> In (KStr (intstr n)) (map fst d) ->
  exists out,
    _stringify_keys (PyDict d) = Ok (PyDict out) /\
    (List.length out < List.length d)%nat /\
    forall k, In k (map fst out) -> k <> KInt n.
Proof.
  intros Hi Hs. exists (setitems stringified [] d). split; [reflexivity|]. split.
  - apply (setitems_collide stringified d (KInt n) (KStr (intstr n)));
      [exact Hi | exact Hs | discriminate | reflexivity].
  - intros k Hk. apply setitems_keys in Hk as [[] | (k0 & _ & ->)].
    rewrite stringified_str. discriminate.
Qed.

(** An instance. *)
Lemma stringify_keys_collide_witness :
  exists out,
    _stringify_keys (PyDict [(KInt 1, PyStr "a"); (KStr "1", PyStr "b")])
    = Ok (PyDict out) /\
    (List.length out < List.length [(KInt 1, PyStr "a"); (KStr "1", PyStr "b")])%nat /\
    forall k, In k (map fst out) -> k <> KInt 1.
Proof.
  apply (stringify_keys_collide [(KInt 1, PyStr "a"); (KStr "1", PyStr "b")] 1).
  - now left.
  - right. now left.
Defined.

(** ** Blobs *)

Lemma fromBase64_step (buf nbits : N) (n : N) (r : list byte) :
  (n < 64)%N ->
  Base64.fromBase64_loop buf nbits (byte_of_ascii (Base64.char_of_sextet n) :: r)
  = if (8 <=? nbits + 6)%N
    then Base64.byte_of_N ((buf * 64 + n) / 2 ^ (nbits + 6 - 8))
           :: Base64.fromBase64_loop ((buf * 64 + n) mod 2 ^ (nbits + 6 - 8))
                (nbits + 6 - 8) r
    else Base64.fromBase64_loop (buf * 64 + n) (nbits + 6) r.
Proof.
  intros Hn. cbn [Base64.fromBase64_loop]. rewrite ascii_of_byte_of_ascii.
  now destruct (sextet_of_char_of_sextet n Hn) as (-> & _ & _).
Qed.

Lemma fromBase64_pad (buf nbits : N) (r : list byte) :
  Base64.fromBase64_loop buf nbits (byte_of_ascii Base64.pad :: r)
  = Base64.fromBase64_loop buf nbits r.
Proof. reflexivity. Qed.

Lemma fromBase64_toBase64 (b : list byte) :
  Base64.fromBase64 (Base64.toBase64 b) = b.
Proof.
  unfold Base64.fromBase64, Base64.toBase64.
  induction b as [|x|x y|x y z r IH] using list_ind3.
  - reflexivity.
  - pose proof (to_N_lt x).
    unfold list_byte_of_string; cbn [Base64.b64encode list_ascii_of_string map].
    rewrite !fromBase64_step by lia.
    change (8 <=? 0 + 6)%N with false. change (8 <=? 0 + 6 + 6)%N with true.
    cbv iota.
    change (0 + 6 + 6 - 8)%N with 4%N. change (2 ^ 4)%N with 16%N.
    rewrite !fromBase64_pad.
    cbn [Base64.fromBase64_loop]. bytes_eq.
  - pose proof (to_N_lt x). pose proof (to_N_lt y).
    unfold list_byte_of_string; cbn [Base64.b64encode list_ascii_of_string map].
    rewrite !fromBase64_step by lia.
    change (8 <=? 0 + 6)%N with false. change (8 <=? 0 + 6 + 6)%N with true.
    cbv iota.
    change (0 + 6 + 6 - 8)%N with 4%N. change (8 <=? 4 + 6)%N with true. cbv iota.
    change (4 + 6 - 8)%N with 2%N.
    change (2 ^ 4)%N with 16%N. change (2 ^ 2)%N with 4%N.
    rewrite !fromBase64_pad. cbn [Base64.fromBase64_loop]. bytes_eq.
  - pose proof (to_N_lt x). pose proof (to_N_lt y). pose proof (to_N_lt z).
    unfold list_byte_of_string in *; cbn [Base64.b64encode list_ascii_of_string map].
    rewrite !fromBase64_step by lia.
    change (8 <=? 0 + 6)%N with false. change (8 <=? 0 + 6 + 6)%N with true.
    cbv iota.
    change (0 + 6 + 6 - 8)%N with 4%N. change (8 <=? 4 + 6)%N with true. cbv iota.
    change (4 + 6 - 8)%N with 2%N. change (8 <=? 2 + 6)%N with true. cbv iota.
    change (2 + 6 - 8)%N with 0%N.
    change (2 ^ 4)%N with 16%N. change (2 ^ 2)%N with 4%N. change (2 ^ 0)%N with 1%N.
    replace ((((((0 * 64 + Byte.to_N x / 4) * 64
                 + (Byte.to_N x mod 4 * 16 + Byte.to_N y / 16)) mod 16 * 64
                + (Byte.to_N y mod 16 * 4 + Byte.to_N z / 64)) mod 4 * 64
               + Byte.to_N z mod 64) mod 1)%N) with 0%N by lia.
    rewrite IH. bytes_eq.
Qed.

Lemma qbytearray_dump_ok (lvl : nat) (b : list byte) :
  snd (_iterencode lvl (PyQByteArray b)) = None.
Proof. reflexivity. Qed.

Lemma qbytearray_reloaded (h : host) (b : list byte) :
  has_pyqt5 h = true ->
  reloaded (_json_custom_hook h) (PyQByteArray b) = Ok (PyQByteArray b).
Proof.
  intros Hq. unfold reloaded. cbn [reloaded_with default bind].
  unfold reloaded_again. rewrite reloaded_with_dict.
  cbn [map on_value fst snd reloaded_with sorted insert_item bind sequence key_str].
  unfold _json_custom_hook, dict_of_pairs.
  cbn [fold_left dict_setitem fst snd].
  change (dict_contains [(KStr "__qbytearray__", _)] (KStr "__ndarray__")) with false.
  change (dict_contains [(KStr "__qbytearray__", ?v)] (KStr "__qbytearray__")) with true.
  cbv iota. unfold getitem. cbn [dict_get key_eqb].
  change ("__qbytearray__" =? "__qbytearray__")%string with true. cbv iota.
  cbn [bind]. unfold _decode_qbytearray, _encode_qbytearray, b64decode_value.
  rewrite b64decode_b64encode. cbn [bind]. rewrite Hq.
  now rewrite fromBase64_toBase64.
Qed.

(** A mapping of one item saves, and loads as the same mapping, when its key
    is one that comes back and its value reads back as it was. *)
Lemma save_load_item (h : host) (f : file) (k : key) (v : pyval) :
  restorable_key k = true -> tag_key (key_str k) = false ->
  (forall lvl, snd (_iterencode lvl v) = None) ->
  reloaded (_json_custom_hook h) v = Ok v ->
  exists text,
    _save_json f (PyDict [(k, v)]) = (Some text, Ok tt) /\
    _load_json h (Some text) = Ok (PyDict [(k, v)]).
Proof.
  intros Hk Ht Hd Hr. apply tag_key_inv in Ht as [Ht1 Ht2].
  exists (fst (dump (PyDict [(KStr (key_str k), v)]))).
  assert (H : _save_json f (PyDict [(k, v)])
               = (Some (fst (dump (PyDict [(KStr (key_str k), v)]))), Ok tt) /\
               _load_json h (Some (fst (dump (PyDict [(KStr (key_str k), v)]))))
               = _intify_keys (PyDict [(KStr (key_str k), v)])).
  { apply save_load.
    - unfold _stringify_keys. cbn [fold_left dict_setitem fst snd].
      now rewrite stringified_str.
    - now apply singleton_dump_ok.
    - now apply singleton_reloaded. }
  destruct H as [Hs Hl].
  split; [exact Hs|]. rewrite Hl.
  unfold _intify_keys. cbn [fold_left fst snd bind].
  rewrite <- (stringified_str k), restorable_intified by exact Hk.
  reflexivity.
Qed.

(** X7.  With PyQt5 a [QByteArray] saved under a key that comes back is
    loaded as the same [QByteArray]: the two layers of base64 of
    [_encode_qbytearray] are undone by [_decode_qbytearray]. *)
Theorem qbytearray_roundtrip (h : host) (f : file) (k : key) (b : list byte) :
  has_pyqt5 h = true ->
  restorable_key k = true -> tag_key (key_str k) = false ->
  _decode_qbytearray h (PyStr (_encode_qbytearray b)) = Ok (PyQByteArray b) /\
  exists text,
    _save_json f (PyDict [(k, PyQByteArray b)]) = (Some text, Ok tt) /\
    _load_json h (Some text) = Ok (PyDict [(k, PyQByteArray b)]).
Proof.
  intros Hq Hk Ht. split.
  - unfold _decode_qbytearray, _encode_qbytearray, b64decode_value.
    rewrite b64decode_b64encode. cbn [bind]. rewrite Hq.
    now rewrite fromBase64_toBase64.
  - apply save_load_item; auto using qbytearray_reloaded, qbytearray_dump_ok.
Qed.

(** An instance. *)
Lemma qbytearray_roundtrip_witness :
  _decode_qbytearray (mk_host true) (PyStr (_encode_qbytearray [x41; x00; xff]))
  = Ok (PyQByteArray [x41; x00; xff]) /\
  exists text,
    _save_json None (PyDict [(KStr "state", PyQByteArray [x41; x00; xff])])
    = (Some text, Ok tt) /\
    _load_json (mk_host true) (Some text)
    = Ok (PyDict [(KStr "state", PyQByteArray [x41; x00; xff])]).
Proof.
  apply (qbytearray_roundtrip (mk_host true) None (KStr "state") [x41; x00; xff]);
    reflexivity.
Defined.

(** ** The items of a mapping that come back *)

Lemma faithful_storable (o : pyval) : faithful o = true -> storable o = true.
Proof.
  induction o as [ | b | n | t bits | s | l IH | l IH | d IH | a | t b | b | b | t bits ]
    using pyval_ind; cbn [faithful storable]; intros H;
    try reflexivity; try discriminate.
  - rewrite forallb_forall in *. rewrite Forall_forall in IH. auto.
  - apply andb_prop in H as [-> ->]. reflexivity.
Qed.

Section Faithful.
Variable h : host.

Local Abbreviation rel := (reloaded (_json_custom_hook h)).

Lemma sequence_faithful (l : list pyval) :
  Forall (fun o => rel o = Ok o) l -> sequence (map rel l) = Ok l.
Proof.
  induction 1 as [|o l Ho Hl IH]; cbn [map sequence]; [reflexivity|].
  now rewrite Ho, IH.
Qed.

Lemma faithful_reloaded (o : pyval) : faithful o = true -> rel o = Ok o.
Proof.
  induction o as [ | b | n | t bits | s | l IH | l IH | d IH | a | t b | b | b | t bits ]
    using pyval_ind; cbn [faithful]; intros H;
    try reflexivity; try discriminate.
  - unfold reloaded in *. cbn [reloaded_with].
    rewrite sequence_faithful; [reflexivity|].
    rewrite forallb_forall in H. rewrite Forall_forall in *.
    intros x Hx. exact (IH x Hx (H x Hx)).
  - apply andb_prop in H as [Hw Hs]. apply negb_true_iff in Hs.
    unfold reloaded. cbn [reloaded_with]. rewrite default_tagged by exact Hs.
    cbn [bind]. apply tagged_reloaded. now apply wf_ndarrayb_wf.
Qed.

Lemma sequence_string_items (sd : list (key * pyval)) :
  Forall (fun kv => string_key (fst kv) /\ rel (snd kv) = Ok (snd kv)) sd ->
  sequence (map (fun kr => v <- snd kr ;; Ok (KStr (key_str (fst kr)), v))
              (map (on_value rel) sd)) = Ok sd.
Proof.
  induction 1 as [|[k v] sd [Hk Hv] Hl IH]; cbn [map sequence]; [reflexivity|].
  unfold on_value at 1. cbn [fst snd] in *. rewrite Hv, IH. cbn [bind].
  destruct k; [destruct Hk | reflexivity].
Qed.

(** The hook leaves a mapping with no tag as it is. *)
Lemma hook_no_tag (m : list (key * pyval)) :
  Forall (fun kv => tag_key (key_str (fst kv)) = false) m ->
  _json_custom_hook h (PyDict m) = Ok (PyDict m).
Proof.
  intros Hm.
  assert (Hno : forall s, tag_key s = true -> dict_contains m (KStr s) = false).
  { intros s Hs. unfold dict_contains.
    destruct (dict_get m (KStr s)) as [v|] eqn:Eg; [|reflexivity].
    apply dict_get_In, in_map_iff in Eg as (kv & Ek & Hin).
    rewrite Forall_forall in Hm. specialize (Hm kv Hin).
    rewrite Ek in Hm. cbn [key_str] in Hm. congruence. }
  unfold _json_custom_hook. now rewrite !Hno.
Qed.

(** A mapping with string keys, no tag among them, whose values read back
    as they were, reads back as its items in the order of the keys. *)
Lemma faithful_dict_reloaded (d sd : list (key * pyval)) :
  NoDup (map fst d) ->
  Forall (fun kv => string_key (fst kv) /\ tag_key (key_str (fst kv)) = false /\
                    rel (snd kv) = Ok (snd kv)) d ->
  sorted d = Ok sd ->
  rel (PyDict d) = Ok (PyDict sd).
Proof.
  intros Hn Hd Es. pose proof (sorted_perm _ _ Es) as Hp.
  rewrite Hp in Hd.
  unfold reloaded. rewrite reloaded_with_dict. fold (reloaded (_json_custom_hook h)).
  rewrite sorted_map, Es. cbn [bind].
  rewrite sequence_string_items
    by (revert Hd; apply Forall_impl; tauto).
  cbn [bind]. rewrite dict_of_pairs_setitems, setitems_fresh.
  - cbn [app]. rewrite map_ext with (g := fun kv => kv) by (now intros []).
    rewrite map_id. apply hook_no_tag. revert Hd. apply Forall_impl. tauto.
  - cbn [map app]. rewrite map_id. now rewrite <- Hp.
Qed.
End Faithful.

Lemma intify_permuted (d sd : list (key * pyval)) :
  NoDup (map fst d) ->
  Forall (fun kv => restorable_key (fst kv) = true) d ->
  Permutation (map (fun kv => (stringified (fst kv), snd kv)) d) sd ->
  exists out, _intify_keys (PyDict sd) = Ok (PyDict out) /\ Permutation d out.
Proof.
  intros Hn Hr Hp.
  apply Permutation_sym, Permutation_map_inv in Hp as (d' & -> & Hp).
  exists d'. split; [|exact Hp].
  apply intify_restorable.
  - now rewrite <- Hp.
  - now rewrite <- Hp.
Qed.

(** X8.  A mapping saves and loads as a mapping with exactly the same
    items, keys and values, when its keys are integers that are not
    negative or strings that [str.isdigit] refuses and that are no tag, and
    its values are [None], booleans, integers, strings, lists of these, or
    arrays stored with dtype and shape. *)
Theorem save_load_items (h : host) (f : file) (d : list (key * pyval)) :
  NoDup (map fst d) ->
  forallb restorable_item d = true ->
  exists text out,
    _save_json f (PyDict d) = (Some text, Ok tt) /\
    _load_json h (Some text) = Ok (PyDict out) /\
    Permutation d out.
Proof.
  intros Hn Hd. rewrite forallb_forall in Hd.
  assert (Hd' : Forall (fun kv => restorable_key (fst kv) = true /\
                                  tag_key (key_str (fst kv)) = false /\
                                  faithful (snd kv) = true) d).
  { apply Forall_forall. intros kv Hin. specialize (Hd kv Hin).
    unfold restorable_item in Hd.
    apply andb_prop in Hd as [Hd H3]. apply andb_prop in Hd as [H1 H2].
    apply negb_true_iff in H2. auto. }
  clear Hd.
  assert (Hr : Forall (fun kv => restorable_key (fst kv) = true) d)
    by (revert Hd'; apply Forall_impl; tauto).
  destruct (stringify_fresh d (restorable_keys_fresh d Hn Hr)) as [Hs Hn1].
  set (d1 := map (fun kv => (stringified (fst kv), snd kv)) d) in *.
  assert (H1 : Forall (fun kv => string_key (fst kv) /\
                                 tag_key (key_str (fst kv)) = false /\
                                 faithful (snd kv) = true) d1).
  { unfold d1. rewrite Forall_map. revert Hd'. apply Forall_impl.
    intros [k v] (_ & Ht & Hv). cbn [fst snd] in *.
    rewrite stringified_str. cbn [string_key key_str]. auto. }
  assert (Hk : one_kind (map fst d1) = true).
  { unfold one_kind. apply orb_true_iff. right. apply forallb_forall.
    intros k Hin. apply in_map_iff in Hin as (kv & <- & Hin).
    rewrite Forall_forall in H1. destruct (H1 kv Hin) as (Hk & _).
    now destruct (fst kv). }
  destruct (sorted_one_kind_ok d1 Hk) as (sd & Es).
  assert (Hst : storable (PyDict d1) = true).
  { cbn [storable]. rewrite Hk. cbn [andb]. apply forallb_forall.
    intros kv Hin. rewrite Forall_forall in H1.
    destruct (H1 kv Hin) as (_ & -> & Hv). now rewrite faithful_storable. }
  destruct (save_load h f d d1 (PyDict sd) Hs (storable_dump_ok _ Hst 0%nat))
    as [Hsave Hload].
  { apply faithful_dict_reloaded; [exact Hn1 | | exact Es].
    revert H1. apply Forall_impl. intros kv (Ha & Hb & Hc).
    auto using faithful_reloaded. }
  destruct (intify_permuted d sd Hn Hr (sorted_perm _ _ Es)) as (out & Hi & Hp).
  exists (fst (dump (PyDict d1))), out.
  split; [exact Hsave|]. split; [now rewrite Hload | exact Hp].
Qed.

(** An instance. *)
Lemma save_load_items_witness :
  exists text out,
    _save_json None
      (PyDict [(KInt 10, PyList [PyInt 1; PyNone]); (KStr "name", PyStr "a");
               (KInt 2, PyNdarray float_row)])
    = (Some text, Ok tt) /\
    _load_json (mk_host false) (Some text) = Ok (PyDict out) /\
    Permutation
      [(KInt 10, PyList [PyInt 1; PyNone]); (KStr "name", PyStr "a");
       (KInt 2, PyNdarray float_row)] out.
Proof.
  apply (save_load_items (mk_host false) None
           [(KInt 10, PyList [PyInt 1; PyNone]); (KStr "name", PyStr "a");
            (KInt 2, PyNdarray float_row)]).
  - repeat constructor; cbn; intuition discriminate.
  - reflexivity.
Defined.

(** ** The characters of the file *)

Lemma string_forallb_impl (p q : ascii -> bool) (s : string) :
  (forall c, p c = true -> q c = true) ->
  string_forallb p s = true -> string_forallb q s = true.
Proof.
  intros Hpq. induction s as [|c s IH]; cbn [string_forallb]; [reflexivity|].
  intros H. apply andb_prop in H as [Hc Hs]. now rewrite (Hpq c Hc), IH.
Qed.

Lemma escape_char_ascii (c : ascii) : string_forallb is_ascii (escape_char c) = true.
Proof.
  apply (ascii_forall (fun c => string_forallb is_ascii (escape_char c))).
  vm_compute. reflexivity.
Qed.

Lemma escape_ascii (s : string) : string_forallb is_ascii (escape s) = true.
Proof.
  induction s as [|c s IH]; cbn [escape]; [reflexivity|].
  now rewrite string_forallb_append, escape_char_ascii, IH.
Qed.

Lemma encode_basestring_ascii_ascii (s : string) :
  string_forallb is_ascii (encode_basestring_ascii s) = true.
Proof.
  unfold encode_basestring_ascii. cbn [string_forallb].
  now rewrite string_forallb_append, escape_ascii.
Qed.

Lemma decimal_ascii (c : ascii) : is_decimal c = true -> is_ascii c = true.
Proof.
  unfold is_decimal, in_range, is_ascii. intros H.
  apply andb_prop in H as [_ H]. apply N.leb_le in H. apply N.ltb_lt. lia.
Qed.

Lemma intstr_ascii (n : Z) : string_forallb is_ascii (intstr n) = true.
Proof.
  unfold intstr. destruct (Z.to_int n) as [d|d]; cbn [NilEmpty.string_of_int].
  - apply (string_forallb_impl is_decimal); [exact decimal_ascii|].
    apply string_of_uint_decimal.
  - cbn [string_forallb]. change (is_ascii "-") with true. cbn [andb].
    apply (string_forallb_impl is_decimal); [exact decimal_ascii|].
    apply string_of_uint_decimal.
Qed.

Lemma spaces_ascii (n : nat) : string_forallb is_ascii (spaces n) = true.
Proof. induction n as [|n IH]; [reflexivity | exact IH]. Qed.

Lemma newline_indent_ascii (lvl : nat) :
  string_forallb is_ascii (newline_indent lvl) = true.
Proof. unfold newline_indent. cbn [string_forallb]. apply spaces_ascii. Qed.

Lemma item_separator_ascii (lvl : nat) :
  string_forallb is_ascii (item_separator lvl) = true.
Proof. unfold item_separator. cbn [string_forallb]. apply newline_indent_ascii. Qed.

Lemma andthen_ascii (a b : emit) :
  string_forallb is_ascii (fst a) = true -> string_forallb is_ascii (fst b) = true ->
  string_forallb is_ascii (fst (a >> b)) = true.
Proof.
  intros Ha Hb. unfold andthen. destruct (snd a); [exact Ha|].
  cbn [fst]. now rewrite string_forallb_append, Ha, Hb.
Qed.

Lemma emit_join_ascii (sep : string) (first : bool) (l : list emit) :
  string_forallb is_ascii sep = true ->
  Forall (fun e => string_forallb is_ascii (fst e) = true) l ->
  string_forallb is_ascii (fst (emit_join sep first l)) = true.
Proof.
  intros Hsep Hl. revert first.
  induction Hl as [|e l He Hl IH]; intros first; cbn [emit_join]; [reflexivity|].
  apply andthen_ascii; [|apply IH].
  apply andthen_ascii; [|exact He].
  now destruct first.
Qed.

Lemma entry_ascii (kc : key * emit) :
  string_forallb is_ascii (fst (snd kc)) = true ->
  string_forallb is_ascii (fst (entry kc)) = true.
Proof.
  intros H. unfold entry. apply andthen_ascii; [|exact H].
  apply andthen_ascii; [|reflexivity].
  apply encode_basestring_ascii_ascii.
Qed.

Section Ascii.
Variable other : nat -> pyval -> emit.
Hypothesis other_ascii :
  forall lvl o, string_forallb is_ascii (fst (other lvl o)) = true.

Lemma brackets_ascii (o c : string) (lvl : nat) (m : emit) :
  string_forallb is_ascii o = true -> string_forallb is_ascii c = true ->
  string_forallb is_ascii (fst m) = true ->
  string_forallb is_ascii
    (fst (yield o >> yield (newline_indent (S lvl)) >> m
            >> yield (newline_indent lvl) >> yield c)) = true.
Proof.
  intros Ho Hc Hm.
  apply andthen_ascii; [|exact Hc].
  apply andthen_ascii; [|apply newline_indent_ascii].
  apply andthen_ascii; [|exact Hm].
  apply andthen_ascii; [exact Ho | apply newline_indent_ascii].
Qed.

Lemma iterencode_with_ascii (o : pyval) :
  forall lvl, string_forallb is_ascii (fst (_iterencode_with other lvl o)) = true.
Proof.
  induction o as [ | b | n | t bits | s | l IH | l IH | d IH | a | t b | b | b | t bits ]
    using pyval_ind; intros lvl; cbn [_iterencode_with];
    try reflexivity; try apply other_ascii.
  - now destruct b.
  - apply intstr_ascii.
  - apply encode_basestring_ascii_ascii.
  - destruct l as [|x l]; [reflexivity|].
    apply brackets_ascii; try reflexivity.
    apply emit_join_ascii; [apply item_separator_ascii|].
    rewrite Forall_map. revert IH. apply Forall_impl. auto.
  - destruct l as [|x l]; [reflexivity|].
    apply brackets_ascii; try reflexivity.
    apply emit_join_ascii; [apply item_separator_ascii|].
    rewrite Forall_map. revert IH. apply Forall_impl. auto.
  - destruct d as [|x d]; [reflexivity|].
    apply brackets_ascii; try reflexivity.
    rewrite sorted_map. destruct (sorted (x :: d)) as [sd|e] eqn:Es; [|reflexivity].
    apply emit_join_ascii; [apply item_separator_ascii|].
    rewrite !Forall_map. rewrite <- (sorted_perm _ _ Es).
    revert IH. apply Forall_impl. intros kv Hkv. apply entry_ascii.
    unfold on_value. cbn [fst snd]. apply Hkv.
Qed.
End Ascii.

Lemma iterencode_ascii (lvl : nat) (o : pyval) :
  string_forallb is_ascii (fst (_iterencode lvl o)) = true.
Proof.
  apply iterencode_with_ascii. intros lvl' o'.
  destruct (default o') as [o''|e]; [|reflexivity].
  apply iterencode_with_ascii. intros lvl2 o2.
  destruct (default o2) as [o3|e]; [|reflexivity].
  apply iterencode_with_ascii. reflexivity.
Qed.

(** X9.  Whatever the mapping holds, and whether the dump succeeds or is cut
    short by an exception, the file that [_save_json] leaves holds ASCII
    characters only. *)
Theorem save_json_ascii (f : file) (d : list (key * pyval)) :
  exists text,
    fst (_save_json f (PyDict d)) = Some text /\
    string_forallb is_ascii text = true.
Proof.
  unfold _save_json.
  destruct (_stringify_keys (PyDict d)) as [data|e] eqn:E; [|discriminate E].
  eexists. split; [reflexivity|]. apply iterencode_ascii.
Qed.

(** ** A mapping that looks like a tag *)

(** The text of a mapping of one item whose value is a string. *)
Lemma singleton_text (k s : string) :
  dump (PyDict [(KStr k, PyStr s)])
  = (String "{" (newline_indent 1 ++ entry_text k (encode_basestring_ascii s)
                   ++ newline_indent 0 ++ "}"), None).
Proof.
  unfold dump, _iterencode.
  cbn [_iterencode_with map on_value fst snd sorted insert_item bind].
  rewrite bracket_text by (repeat constructor).
  cbn [map join_rest append].
  unfold entry, on_value, entry_text. cbn [fst snd _iterencode_with key_str].
  unfold andthen, yield. cbn [fst snd]. now rewrite !append_assoc.
Qed.

(** What the decoder makes of it: the hook on the mapping. *)
Lemma singleton_loads (hook : pyval -> result pyval) (k s : string) :
  loads hook (fst (dump (PyDict [(KStr k, PyStr s)])))
  = hook (PyDict [(KStr k, PyStr s)]).
Proof.
  rewrite singleton_text. cbn [fst]. unfold loads.
  cbn [skip_ws]. change (is_ws "{") with false. cbv iota.
  rewrite scan_once_object, skip_ws_newline_indent.
  unfold entry_text at 1. unfold encode_basestring_ascii at 1.
  cbn [append skip_ws].
  change (is_ws dquote) with false. cbv iota.
  change (Ascii.eqb dquote "}") with false. cbv iota.
  rewrite Ascii.eqb_refl. rewrite !append_assoc. cbn [append].
  set (t := encode_basestring_ascii s).
  match goal with
  | |- context [object_loop (scan_once hook ?f) ?n _] =>
      pose proof (object_loop_reads hook 0 EmptyString [] (Forall_nil _)
                    k t (PyStr s) f n (reads_str hook s)) as Hl
  end.
  cbn [map join_rest append] in Hl. rewrite Hl.
  - cbn [bind map]. unfold dict_of_pairs.
    cbn [fold_left dict_setitem fst snd].
    destruct (hook _); reflexivity.
  - clear Hl. unfold entry_text. cbn [String.length]. rewrite !length_append. cbn [String.length]. lia.
  - cbn [List.length String.length]. lia.
Qed.

(** X10.  A mapping with the key [__ndarray__] and no key [dtype] is taken
    for the tag of an array when it is loaded: it saves, and loading the
    file raises [KeyError]. *)
Theorem ndarray_key_without_dtype (h : host) (f : file) (s : string)
        (data : list byte) :
  Base64.b64decode s = Ok data ->
  exists text,
    _save_json f (PyDict [(KStr "__ndarray__", PyStr s)]) = (Some text, Ok tt) /\
    _load_json h (Some text) = Raise KeyError.
Proof.
  intros Hs. exists (fst (dump (PyDict [(KStr "__ndarray__", PyStr s)]))). split.
  - unfold _save_json. cbn [_stringify_keys fold_left dict_setitem fst snd].
    change (stringified (KStr "__ndarray__")) with (KStr "__ndarray__").
    now rewrite singleton_text.
  - unfold _load_json. rewrite singleton_loads. rewrite singleton_text. cbn [fst].
    cbn [String.eqb]. unfold _json_custom_hook.
    change (dict_contains [(KStr "__ndarray__", PyStr s)] (KStr "__ndarray__"))
      with true.
    cbv iota. unfold getitem at 1. cbn [dict_get key_eqb].
    change ("__ndarray__" =? "__ndarray__")%string with true. cbv iota.
    cbn [bind b64decode_value]. rewrite Hs. cbn [bind]. reflexivity.
Qed.

(** An instance. *)
Lemma ndarray_key_without_dtype_witness :
  exists text,
    _save_json None (PyDict [(KStr "__ndarray__", PyStr "AAAA")]) = (Some text, Ok tt) /\
    _load_json (mk_host true) (Some text) = Raise KeyError.
Proof.
  apply (ndarray_key_without_dtype (mk_host true) None "AAAA" [x00; x00; x00]).
  reflexivity.
Defined.

(** * Names of objects *)

Lemma rsplit_at_none (sep : ascii) (s : string) :
  contains sep s = false -> rsplit_at sep s = None.
Proof.
  induction s as [|c s IH]; cbn [contains rsplit_at]; [reflexivity|].
  intros H. apply orb_false_elim in H as [Hc Hs]. now rewrite IH, Hc.
Qed.

Lemma rsplit_at_last (sep : ascii) (a b : string) :
  contains sep b = false ->
  rsplit_at sep (a ++ String sep b) = Some (a, b).
Proof.
  intros Hb. induction a as [|c a IH]; cbn [append rsplit_at].
  - now rewrite rsplit_at_none, Ascii.eqb_refl.
  - now rewrite IH.
Qed.

(** X11.  [_load_from_fullname] undoes [_fullname] for an object that can be
    found under its name in its module, when the name holds no dot:
    the name is split at its last dot, whatever dots the module has. *)
Theorem load_from_fullname_of_fullname (env : modules) (o : object)
        (m : string) (attrs : string -> option object) :
  __module__ o = Some m -> m <> EmptyString -> startswith m "." = false ->
  contains "." (__name__ o) = false ->
  env m = Some attrs -> attrs (__name__ o) = Some o ->
  _load_from_fullname env (Name (_fullname o)) = Done o.
Proof.
  intros Hm Hne Hrel Hname Henv Hattr.
  unfold _fullname, _load_from_fullname. rewrite Hm.
  destruct m as [|c m]; [contradiction|].
  unfold rsplit. cbn [append].
  change (String c m ++ String "." (__name__ o))
    with (String c (m ++ String "." (__name__ o))).
  change (String c (m ++ String "." (__name__ o)))
    with (String c m ++ String "." (__name__ o)).
  rewrite rsplit_at_last by exact Hname.
  cbn [index nth_error and_then]. unfold import_module.
  rewrite Hrel. cbn [String.eqb]. rewrite Henv. cbn [and_then].
  unfold getattr. now rewrite Hattr.
Qed.

(** An instance. *)
Lemma load_from_fullname_of_fullname_witness :
  _load_from_fullname phylib_modules (Name (_fullname Bunch)) = Done Bunch.
Proof.
  apply (load_from_fullname_of_fullname phylib_modules Bunch "phylib.utils"
           (fun a => if (a =? "Bunch")%string then Some Bunch else None));
    try reflexivity.
  discriminate.
Defined.

(** X12.  The full name of an object with no module is its bare name, and
    [_load_from_fullname] never returns an object for it: with no dot in
    the name there is no [parts[1]], so the name is taken for a module and
    the call ends in an exception. *)
Theorem load_from_fullname_without_module (env : modules) (o : object) :
  __module__ o = None \/ __module__ o = Some EmptyString ->
  contains "." (__name__ o) = false ->
  _fullname o = __name__ o /\
  exists e, _load_from_fullname env (Name (_fullname o)) = Fail e /\
            (e = IndexError \/ e = ModuleNotFoundError \/ e = Builtin ValueError).
Proof.
  intros Hm Hname.
  assert (Hf : _fullname o = __name__ o)
    by (unfold _fullname; destruct Hm as [-> | ->]; reflexivity).
  split; [exact Hf|]. rewrite Hf.
  unfold _load_from_fullname, rsplit. rewrite rsplit_at_none by exact Hname.
  cbn [index nth_error and_then]. unfold import_module.
  destruct (__name__ o) as [|c n] eqn:En.
  - cbn. eauto.
  - assert (Hdot : startswith (String c n) "." = false).
    { cbn [contains] in Hname. apply orb_false_elim in Hname as [Hc _].
      unfold startswith. cbn [strip_prefix].
      rewrite Ascii.eqb_sym. now rewrite Hc. }
    rewrite Hdot. cbn [String.eqb].
    destruct (env (String c n)); cbn [and_then]; eauto.
Qed.

(** An instance. *)
Lemma load_from_fullname_without_module_witness :
  _fullname (mk_object None "f" 1) = "f" /\
  exists e, _load_from_fullname phylib_modules (Name (_fullname (mk_object None "f" 1)))
            = Fail e /\
            (e = IndexError \/ e = ModuleNotFoundError \/ e = Builtin ValueError).
Proof.
  apply (load_from_fullname_without_module phylib_modules (mk_object None "f" 1));
    [now left | reflexivity].
Defined.

(** * Directories *)

Lemma path_eqb_eq (p q : path) : path_eqb p q = true <-> p = q.
Proof.
  revert q. induction p as [|p IH a]; intros [|q b]; cbn [path_eqb];
    try (split; [discriminate | discriminate]); [tauto|].
  rewrite andb_true_iff, String.eqb_eq, IH. split.
  - now intros [-> ->].
  - now intros [= -> ->].
Qed.

Lemma path_eqb_refl (p : path) : path_eqb p p = true.
Proof. now apply path_eqb_eq. Qed.

Lemma path_eqb_neq (p q : path) : path_eqb p q = false <-> p <> q.
Proof.
  rewrite <- path_eqb_eq. destruct (path_eqb p q); split; congruence.
Qed.

Lemma below_depth (p q : path) : below p q = true -> (depth p <= depth q)%nat.
Proof.
  induction q as [|q IH a]; cbn [below]; intros H; apply orb_prop in H as [H|H].
  - apply path_eqb_eq in H as <-. lia.
  - discriminate.
  - apply path_eqb_eq in H as <-. lia.
  - apply IH in H. cbn [depth]. lia.
Qed.

Lemma below_refl (p : path) : below p p = true.
Proof. destruct p; cbn [below]; now rewrite path_eqb_refl. Qed.

Lemma not_below_child (q : path) (a : string) : below (child q a) q = false.
Proof.
  destruct (below (child q a) q) eqn:E; [|reflexivity].
  apply below_depth in E. cbn [depth] in E. lia.
Qed.

Lemma below_child (x q : path) (a : string) :
  below x (child q a) = path_eqb (child q a) x || below x q.
Proof. reflexivity. Qed.

Lemma no_file_here (t : fs) (p : path) (s : string) :
  no_file_above t p = true -> t p <> Some (File s).
Proof.
  intros Hn H. destruct p; cbn [no_file_above] in Hn; rewrite H in Hn; discriminate.
Qed.

Lemma no_file_parent (t : fs) (q : path) (a : string) :
  no_file_above t (child q a) = true -> no_file_above t q = true.
Proof.
  cbn [no_file_above]. now destruct (t (child q a)) as [[s|]|].
Qed.

Section WellFormed.
Variable t : fs.
Hypothesis Hwf : wf_fs t.

Lemma wf_parent (p : path) (a : string) (n : node) :
  t (child p a) = Some n -> t p = Some Dir.
Proof. intros H. apply (proj2 Hwf p a). congruence. Qed.

Lemma stat_some (p : path) (n : node) : t p = Some n -> stat t p = inr n.
Proof.
  revert n. induction p as [|q IH a]; intros n H; cbn [stat].
  - now rewrite H.
  - rewrite (IH Dir) by (eapply wf_parent; eauto). now rewrite H.
Qed.

Lemma stat_inr (p : path) (n : node) : stat t p = inr n -> t p = Some n.
Proof.
  destruct p as [|q a]; cbn [stat].
  - destruct (t root); congruence.
  - destruct (stat t q) as [e|[s|]]; try discriminate.
    destruct (t (child q a)); congruence.
Qed.

Lemma stat_none (p : path) :
  t p = None -> no_file_above t p = true -> stat t p = inl ENOENT.
Proof.
  induction p as [|q IH a]; intros H Hn; cbn [stat].
  - now rewrite H.
  - apply no_file_parent in Hn.
    destruct (t q) as [[s|]|] eqn:Eq.
    + now apply no_file_here in Eq.
    + rewrite (stat_some q Dir Eq). now rewrite H.
    + now rewrite IH.
Qed.

Lemma stat_under_file (p : path) :
  no_file_above t p = false ->
  (exists s, t p = Some (File s)) \/ stat t p = inl ENOTDIR.
Proof.
  induction p as [|q IH a]; cbn [no_file_above]; intros H.
  - left. destruct (t root) as [[s|]|]; try discriminate. eauto.
  - destruct (t (child q a)) as [[s|]|] eqn:E; [eauto | |];
      right; cbn [stat]; destruct (IH H) as [(s & Hs) | ->]; try reflexivity;
      now rewrite (stat_some q _ Hs).
Qed.

Lemma is_dir_spec (p : path) : is_dir t p = true <-> t p = Some Dir.
Proof.
  unfold is_dir. split.
  - destruct (stat t p) as [e|[s|]] eqn:E; try discriminate.
    intros _. now apply stat_inr.
  - intros H. now rewrite (stat_some p Dir H).
Qed.

Lemma exists_spec (p : path) : exists_ t p = true <-> t p <> None.
Proof.
  unfold exists_. split.
  - destruct (stat t p) as [e|n] eqn:E; [discriminate|].
    intros _. apply stat_inr in E. congruence.
  - destruct (t p) as [n|] eqn:E; [|congruence].
    intros _. now rewrite (stat_some p n E).
Qed.
End WellFormed.

Lemma with_dirs_wf (t : fs) (p : path) :
  wf_fs t -> no_file_above t p = true -> wf_fs (with_dirs t p).
Proof.
  intros [Hr Hc] Hn. split.
  - unfold with_dirs. now rewrite Hr.
  - intros x a. unfold with_dirs.
    destruct (t (child x a)) as [n|] eqn:E.
    + intros _. rewrite (Hc x a) by congruence. reflexivity.
    + destruct (below (child x a) p) eqn:Eb; [|congruence]. intros _.
      assert (Hb : below x p = true /\ forall s, t x <> Some (File s)).
      { clear E. induction p as [|q IH b]; cbn [below] in Eb.
        - rewrite orb_false_r in Eb. discriminate.
        - apply orb_prop in Eb as [Eb|Eb].
          + apply path_eqb_eq in Eb. injection Eb as -> ->. split.
            * cbn [below]. now rewrite below_refl, orb_true_r.
            * intros s. apply no_file_here. now apply no_file_parent in Hn.
          + destruct (IH (no_file_parent _ _ _ Hn) Eb) as [H1 H2].
            split; [|exact H2]. cbn [below]. now rewrite H1, orb_true_r. }
      destruct Hb as [Hb Hf]. rewrite Hb.
      destruct (t x) as [[s|]|]; [now elim (Hf s) | reflexivity | reflexivity].
Qed.

Lemma stat_ext (t1 t2 : fs) (p : path) :
  (forall x, t1 x = t2 x) -> stat t1 p = stat t2 p.
Proof.
  intros H. induction p as [|q IH a]; cbn [stat]; now rewrite ?IH, H.
Qed.

Lemma wf_fs_ext (t1 t2 : fs) : (forall x, t1 x = t2 x) -> wf_fs t2 -> wf_fs t1.
Proof.
  intros H [Hr Hc]. split; [now rewrite H|].
  intros p n. rewrite !H. apply Hc.
Qed.

Lemma update_eq (t : fs) (p : path) (n : node) : update t p n p = Some n.
Proof. unfold update. now rewrite path_eqb_refl. Qed.

Lemma update_neq (t : fs) (p x : path) (n : node) : x <> p -> update t p n x = t x.
Proof. intros H. unfold update. apply path_eqb_neq in H. now rewrite H. Qed.

(** A file made or written in a directory leaves the file system
    well-formed. *)
Lemma wf_update_file (t : fs) (q : path) (a s : string) :
  wf_fs t -> t q = Some Dir -> t (child q a) <> Some Dir ->
  wf_fs (update t (child q a) (File s)).
Proof.
  intros Hwf Hq Hp. split.
  - rewrite update_neq by discriminate. apply Hwf.
  - intros x b. destruct (path_eqb (child x b) (child q a)) eqn:E.
    + apply path_eqb_eq in E. injection E as -> ->. intros _.
      rewrite update_neq; [exact Hq|].
      intros E. apply (f_equal depth) in E. cbn [depth] in E. lia.
    + apply path_eqb_neq in E. rewrite update_neq by exact E. intros H.
      destruct (path_eqb x (child q a)) eqn:E'.
      * apply path_eqb_eq in E' as ->. exfalso. apply Hp.
        destruct (t (child (child q a) b)) as [n|] eqn:En; [|congruence].
        now apply (wf_parent t Hwf) in En.
      * apply path_eqb_neq in E'. rewrite update_neq by exact E'.
        now apply (proj2 Hwf x b).
Qed.

Lemma empty_fs_wf : wf_fs empty_fs.
Proof. split; [reflexivity|]. intros p n H. now elim H. Qed.

(** What is above something that is there is there. *)
Lemma above_exists (t : fs) (p x : path) :
  wf_fs t -> t p <> None -> below x p = true -> t x <> None.
Proof.
  intros Hwf. induction p as [|q IH a]; cbn [below]; intros Hp Hb;
    apply orb_prop in Hb as [Hb|Hb]; try discriminate.
  - now apply path_eqb_eq in Hb as <-.
  - now apply path_eqb_eq in Hb as <-.
  - apply IH; [|exact Hb]. destruct (t (child q a)) as [n|] eqn:E; [|congruence].
    rewrite (wf_parent t Hwf q a n E). discriminate.
Qed.

Lemma with_dirs_there (t : fs) (p : path) :
  wf_fs t -> t p <> None -> forall x, t x = with_dirs t p x.
Proof.
  intros Hwf Hp x. unfold with_dirs. destruct (t x) as [n|] eqn:E; [reflexivity|].
  destruct (below x p) eqn:Eb; [|reflexivity].
  now apply (above_exists t p x Hwf Hp) in Eb.
Qed.

Lemma with_dirs_child (t : fs) (q : path) (a : string) (t1 : fs) :
  t (child q a) = None ->
  (forall x, t1 x = with_dirs t q x) ->
  forall x, update t1 (child q a) Dir x = with_dirs t (child q a) x.
Proof.
  intros Hp H1 x. destruct (path_eqb x (child q a)) eqn:E.
  - apply path_eqb_eq in E as ->. rewrite update_eq. unfold with_dirs.
    now rewrite Hp, below_refl.
  - apply path_eqb_neq in E. rewrite update_neq by exact E. rewrite H1.
    unfold with_dirs. rewrite below_child.
    replace (path_eqb (child q a) x) with false; [reflexivity|].
    symmetry. apply path_eqb_neq. congruence.
Qed.

(** [mkdir(parents=True, exist_ok=True)] makes the directories that are
    missing down to the path, when no regular file is in the way. *)
Lemma mkdir_parents_ok (t : fs) (p : path) :
  wf_fs t -> no_file_above t p = true ->
  exists t', mkdir_parents t p true = (t', Done tt) /\
             forall x, t' x = with_dirs t p x.
Proof.
  intros Hwf. induction p as [|q IH a]; intros Hn.
  - exists t. cbn [mkdir_parents os_mkdir].
    rewrite (proj2 (is_dir_spec t Hwf root) (proj1 Hwf)). cbn.
    split; [reflexivity|]. apply with_dirs_there; [exact Hwf|].
    rewrite (proj1 Hwf). discriminate.
  - pose proof (no_file_parent _ _ _ Hn) as Hq.
    cbn [mkdir_parents os_mkdir].
    destruct (t q) as [[s|]|] eqn:Eq.
    + now apply no_file_here in Eq.
    + rewrite (stat_some t Hwf q Dir Eq).
      destruct (t (child q a)) as [[s|]|] eqn:Ep.
      * now apply no_file_here in Ep.
      * exists t. rewrite (proj2 (is_dir_spec t Hwf _) Ep). cbn.
        split; [reflexivity|]. apply with_dirs_there; [exact Hwf | congruence].
      * eexists. split; [reflexivity|].
        apply with_dirs_child; [exact Ep|].
        apply with_dirs_there; [exact Hwf | congruence].
    + rewrite (stat_none t Hwf q Eq Hq).
      destruct (IH Hq) as (t1 & -> & H1).
      assert (Hwf1 : wf_fs t1)
        by (apply (wf_fs_ext _ _ H1); now apply with_dirs_wf).
      assert (Ep : t (child q a) = None).
      { destruct (t (child q a)) as [n|] eqn:Ep; [|reflexivity].
        apply (wf_parent t Hwf) in Ep. congruence. }
      assert (E1q : t1 q = Some Dir).
      { rewrite H1. unfold with_dirs. now rewrite Eq, below_refl. }
      assert (E1p : t1 (child q a) = None).
      { rewrite H1. unfold with_dirs. now rewrite Ep, not_below_child. }
      unfold mkdir. cbn [os_mkdir].
      rewrite (stat_some t1 Hwf1 q Dir E1q), E1p.
      eexists. split; [reflexivity|]. now apply with_dirs_child.
Qed.

(** [_ensure_dir_exists] when no regular file is in the way. *)
Lemma ensure_dir_exists_ok (t : fs) (p : path) :
  wf_fs t -> no_file_above t p = true ->
  exists t',
    _ensure_dir_exists t p = (t', Done tt) /\
    (forall x, t' x = with_dirs t p x) /\
    wf_fs t' /\ t' p = Some Dir.
Proof.
  intros Hwf Hn.
  assert (Hdone : forall t', wf_fs t' -> t' p = Some Dir ->
                             exists_ t' p = true /\ is_dir t' p = true).
  { intros t' Hwf' Hp. split.
    - apply (exists_spec t' Hwf'). congruence.
    - now apply (is_dir_spec t' Hwf'). }
  destruct (t p) as [[s|]|] eqn:Ep.
  - now apply no_file_here in Ep.
  - exists t. destruct (Hdone t Hwf Ep) as [He Hd].
    repeat split; try apply Hwf; auto.
    + unfold _ensure_dir_exists. rewrite He, Hd. cbn. rewrite ?He, ?Hd. reflexivity.
    + apply (with_dirs_there t p Hwf). congruence.
  - destruct (mkdir_parents_ok t p Hwf Hn) as (t' & Hm & H').
    assert (Hwf' : wf_fs t')
      by (apply (wf_fs_ext _ _ H'); now apply with_dirs_wf).
    assert (Hp : t' p = Some Dir).
    { rewrite H'. unfold with_dirs. now rewrite Ep, below_refl. }
    destruct (Hdone t' Hwf' Hp) as [He Hd].
    exists t'. repeat split; try apply Hwf'; auto.
    unfold _ensure_dir_exists.
    replace (exists_ t p) with false.
    + rewrite Hm, He, Hd. reflexivity.
    + symmetry. destruct (exists_ t p) eqn:E; [|reflexivity].
      apply (exists_spec t Hwf) in E. congruence.
Qed.

(** X13.  When no regular file is at the path or above it,
    [_ensure_dir_exists] succeeds: it makes the directory and the
    directories that are missing above it, changes nothing that was
    there, and calling it again changes nothing. *)
Theorem ensure_dir_exists_makes_dirs (t : fs) (p : path) :
  wf_fs t -> no_file_above t p = true ->
  exists t',
    _ensure_dir_exists t p = (t', Done tt) /\
    (forall x, t' x = match t x with
                      | Some n => Some n
                      | None => if below x p then Some Dir else None
                      end) /\
    is_dir t' p = true /\
    _ensure_dir_exists t' p = (t', Done tt).
Proof.
  intros Hwf Hn.
  destruct (ensure_dir_exists_ok t p Hwf Hn) as (t' & He & H' & Hwf' & Hp).
  exists t'. split; [exact He|]. split; [exact H'|].
  assert (Hd : is_dir t' p = true) by now apply (is_dir_spec t' Hwf').
  split; [exact Hd|].
  unfold _ensure_dir_exists.
  rewrite (proj2 (exists_spec t' Hwf' p)) by congruence.
  rewrite Hd. cbn. rewrite ?(proj2 (exists_spec t' Hwf' p)) by congruence.
  rewrite ?Hd. reflexivity.
Qed.

(** An instance. *)
Lemma ensure_dir_exists_makes_dirs_witness :
  exists t',
    _ensure_dir_exists empty_fs (child (child root "a") "b") = (t', Done tt) /\
    (forall x, t' x = match empty_fs x with
                      | Some n => Some n
                      | None => if below x (child (child root "a") "b")
                                then Some Dir else None
                      end) /\
    is_dir t' (child (child root "a") "b") = true /\
    _ensure_dir_exists t' (child (child root "a") "b") = (t', Done tt).
Proof.
  apply (ensure_dir_exists_makes_dirs empty_fs (child (child root "a") "b")).
  - exact empty_fs_wf.
  - reflexivity.
Defined.

(** X14.  [_ensure_dir_exists] fails and changes nothing when a regular file
    is in the way: with [AssertionError] when the file is at the path
    itself, with [NotADirectoryError] when it is above the path. *)
Theorem ensure_dir_exists_file_in_the_way (t : fs) (p : path) :
  wf_fs t -> no_file_above t p = false ->
  _ensure_dir_exists t p
  = (t, Fail (match t p with
              | Some (File _) => Builtin AssertionError
              | _ => NotADirectoryError
              end)).
Proof.
  intros Hwf Hn. unfold _ensure_dir_exists.
  destruct (stat_under_file t Hwf p Hn) as [(s & Hs) | Hs].
  - rewrite Hs.
    rewrite (proj2 (exists_spec t Hwf p)) by congruence.
    replace (is_dir t p) with false; [reflexivity|].
    symmetry. destruct (is_dir t p) eqn:E; [|reflexivity].
    apply (is_dir_spec t Hwf) in E. congruence.
  - assert (Hp : t p = None \/ t p = Some Dir).
    { destruct (t p) as [[s|]|] eqn:E; auto.
      rewrite (stat_some t Hwf p _ E) in Hs. discriminate. }
    assert (He : exists_ t p = false) by (unfold exists_; now rewrite Hs).
    assert (Hd : is_dir t p = false) by (unfold is_dir; now rewrite Hs).
    rewrite He.
    assert (Hm : mkdir_parents t p true = (t, Fail NotADirectoryError)).
    { destruct p as [|q a].
      - cbn [stat] in Hs. destruct (t root); discriminate.
      - cbn [mkdir_parents os_mkdir]. cbn [stat] in Hs.
        destruct (stat t q) as [e|[s|]] eqn:Eq.
        + injection Hs as ->. now rewrite Hd.
        + now rewrite Hd.
        + destruct (t (child q a)); discriminate. }
    rewrite Hm. now destruct Hp as [-> | ->].
Qed.

(** An instance. *)
Lemma ensure_dir_exists_file_in_the_way_witness :
  _ensure_dir_exists (update empty_fs (child root "f") (File "x"))
    (child (child root "f") "d")
  = (update empty_fs (child root "f") (File "x"), Fail NotADirectoryError).
Proof.
  apply (ensure_dir_exists_file_in_the_way
           (update empty_fs (child root "f") (File "x")) (child (child root "f") "d")).
  - apply wf_update_file; [exact empty_fs_wf | reflexivity | discriminate].
  - reflexivity.
Defined.

(** * Text files *)

(** [_write_text] in a directory that can be made, at a path that is no
    directory. *)
Lemma write_text_ok (t : fs) (q : path) (a contents : string) :
  wf_fs t -> no_file_above t q = true -> t (child q a) <> Some Dir ->
  exists t1,
    _ensure_dir_exists t q = (t1, Done tt) /\
    wf_fs t1 /\ t1 q = Some Dir /\ t1 (child q a) <> Some Dir /\
    (forall x, t1 x = with_dirs t q x) /\
    write_text t1 (child q a) contents
    = (update (update t1 (child q a) (File EmptyString)) (child q a) (File contents),
       Done tt) /\
    open_r (update (update t1 (child q a) (File EmptyString)) (child q a)
              (File contents)) (child q a) = Done contents.
Proof.
  intros Hwf Hn Hp.
  destruct (ensure_dir_exists_ok t q Hwf Hn) as (t1 & He & H1 & Hwf1 & Hq).
  assert (Hp1 : t1 (child q a) <> Some Dir).
  { rewrite H1. unfold with_dirs. rewrite not_below_child.
    now destruct (t (child q a)). }
  exists t1. repeat split; try apply Hwf1; auto.
  - unfold write_text, open_w. rewrite (stat_some t1 Hwf1 q Dir Hq).
    destruct (t1 (child q a)) as [[s|]|]; try reflexivity. congruence.
  - unfold open_r.
    rewrite (stat_some _ (wf_update_file _ q a contents
                            (wf_update_file t1 q a EmptyString Hwf1 Hq Hp1)
                            ltac:(rewrite update_neq; [exact Hq|];
                                  intros E; apply (f_equal depth) in E;
                                  cbn [depth] in E; lia)
                            ltac:(rewrite update_eq; discriminate))
               (child q a) (File contents) (update_eq _ _ _)).
    reflexivity.
Qed.

(** X15.  In a directory that can be made, at a path that is no directory,
    [_write_text] writes the text without its common indentation, and
    [_read_text] reads it back with every line end a line feed; the
    directories that were missing are made and nothing else changes. *)
Theorem write_text_read_text (t : fs) (q : path) (a contents : string) :
  wf_fs t -> no_file_above t q = true -> t (child q a) <> Some Dir ->
  exists t',
    _write_text t (child q a) contents = (t', Done tt) /\
    _read_text t' (child q a)
    = Done (universal_newlines (Textwrap.dedent contents)) /\
    forall x, x <> child q a ->
              t' x = match t x with
                     | Some n => Some n
                     | None => if below x q then Some Dir else None
                     end.
Proof.
  intros Hwf Hn Hp.
  destruct (write_text_ok t q a (Textwrap.dedent contents) Hwf Hn Hp)
    as (t1 & He & _ & _ & _ & H1 & Hw & Hr).
  eexists. split; [|split].
  - unfold _write_text. cbn [parent]. rewrite He. exact Hw.
  - unfold _read_text, read_text. now rewrite Hr.
  - intros x Hx. rewrite !update_neq by exact Hx. apply H1.
Qed.

(** An instance. *)
Lemma write_text_read_text_witness :
  exists t',
    _write_text empty_fs (child (child root "a") "f") "  x" = (t', Done tt) /\
    _read_text t' (child (child root "a") "f")
    = Done (universal_newlines (Textwrap.dedent "  x")) /\
    forall x, x <> child (child root "a") "f" ->
              t' x = match empty_fs x with
                     | Some n => Some n
                     | None => if below x (child root "a") then Some Dir else None
                     end.
Proof.
  apply (write_text_read_text empty_fs (child root "a") "f" "  x").
  - exact empty_fs_wf.
  - reflexivity.
  - discriminate.
Defined.

(** * [dedent] *)

Import Textwrap.

(** ** Lines *)

Lemma split_lines_plain (l : string) :
  contains newline l = false -> split_lines l = [l].
Proof.
  induction l as [|c l IH]; cbn [contains split_lines]; [reflexivity|].
  intros H. apply orb_false_elim in H as [-> H]. now rewrite IH.
Qed.

Lemma split_lines_app (l s : string) :
  contains newline l = false ->
  split_lines (l ++ String newline s) = l :: split_lines s.
Proof.
  induction l as [|c l IH]; cbn [contains append split_lines].
  - now rewrite Ascii.eqb_refl.
  - intros H. apply orb_false_elim in H as [-> H]. now rewrite IH.
Qed.

Lemma split_join (ls : list string) :
  ls <> [] -> Forall (fun l => contains newline l = false) ls ->
  split_lines (join_lines ls) = ls.
Proof.
  intros Hne H. induction H as [|l ls Hl Hls IH]; [contradiction|].
  destruct ls as [|l2 ls].
  - cbn [join_lines]. now apply split_lines_plain.
  - cbn [join_lines]. rewrite split_lines_app by exact Hl.
    f_equal. apply IH. discriminate.
Qed.

Lemma split_lines_nonempty (s : string) : split_lines s <> [].
Proof.
  induction s as [|c s IH]; cbn [split_lines]; [discriminate|].
  destruct (c =? newline)%char; [discriminate|].
  destruct (split_lines s); discriminate.
Qed.

Lemma split_lines_no_newline (s : string) :
  Forall (fun l => contains newline l = false) (split_lines s).
Proof.
  induction s as [|c s IH]; cbn [split_lines]; [repeat constructor|].
  destruct (c =? newline)%char eqn:E; [now constructor|].
  destruct (split_lines s) as [|l ls]; [repeat constructor; cbn [contains]; now rewrite E|].
  inversion IH; subst. constructor; [|assumption].
  cbn [contains]. now rewrite E.
Qed.

(** ** Prefixes *)

Lemma startswith_app (p r : string) : startswith (p ++ r) p = true.
Proof.
  unfold startswith. induction p as [|c p IH]; cbn [append strip_prefix];
    [reflexivity|].
  now rewrite Ascii.eqb_refl.
Qed.

Lemma startswith_refl (s : string) : startswith s s = true.
Proof. rewrite <- (append_nil_r s) at 1. apply startswith_app. Qed.

Lemma strip_prefix_app (p r : string) : strip_prefix p (p ++ r) = Some r.
Proof.
  induction p as [|c p IH]; cbn [append strip_prefix]; [reflexivity|].
  now rewrite Ascii.eqb_refl.
Qed.

Lemma strip_prefix_some (p s r : string) : strip_prefix p s = Some r -> s = p ++ r.
Proof.
  revert s. induction p as [|c p IH]; intros s; cbn [strip_prefix].
  - now intros [= ->].
  - destruct s as [|d s]; [discriminate|].
    destruct (Ascii.eqb_spec c d) as [->|]; [|discriminate].
    intros H. cbn [append]. f_equal. now apply IH.
Qed.

Lemma startswith_inv (s p : string) :
  startswith s p = true -> exists r, s = p ++ r.
Proof.
  unfold startswith. destruct (strip_prefix p s) as [r|] eqn:E; [|discriminate].
  intros _. exists r. now apply strip_prefix_some.
Qed.

Lemma startswith_trans (a b c : string) :
  startswith a b = true -> startswith b c = true -> startswith a c = true.
Proof.
  intros H1 H2. apply startswith_inv in H1 as (r1 & ->).
  apply startswith_inv in H2 as (r2 & ->).
  rewrite append_assoc. apply startswith_app.
Qed.

Lemma startswith_antisym (a b : string) :
  startswith a b = true -> startswith b a = true -> a = b.
Proof.
  intros H1 H2. apply startswith_inv in H1 as (r1 & E1).
  apply startswith_inv in H2 as (r2 & E2).
  assert (Hl : String.length r1 = 0%nat).
  { apply (f_equal String.length) in E1, E2.
    rewrite length_append in E1, E2. lia. }
  destruct r1; [|discriminate]. now rewrite append_nil_r in E1.
Qed.

Lemma up_to_difference_prefix (m i : string) :
  startswith m (up_to_difference m i) = true /\
  startswith i (up_to_difference m i) = true.
Proof.
  unfold startswith. revert i. induction m as [|x m IH]; intros [|y i];
    cbn [up_to_difference strip_prefix]; auto.
  destruct (Ascii.eqb_spec x y) as [->|]; cbn [strip_prefix]; auto.
  rewrite Ascii.eqb_refl. apply IH.
Qed.

Lemma up_to_difference_greatest (m i p : string) :
  startswith m p = true -> startswith i p = true ->
  startswith (up_to_difference m i) p = true.
Proof.
  unfold startswith. revert m i. induction p as [|c p IH]; intros m i;
    cbn [strip_prefix]; [reflexivity|].
  destruct m as [|x m]; [discriminate|]. destruct i as [|y i]; [discriminate|].
  destruct (Ascii.eqb_spec c x) as [->|]; [|discriminate].
  destruct (Ascii.eqb_spec x y) as [->|]; [|discriminate].
  cbn [up_to_difference]. rewrite Ascii.eqb_refl. cbn [strip_prefix].
  rewrite Ascii.eqb_refl. apply IH.
Qed.

(** The three cases of the loop give the same margin: what the margin and
    the indent have in common. *)
Lemma narrow_some (m i : string) : narrow (Some m) i = Some (up_to_difference m i).
Proof.
  cbn [narrow]. destruct (up_to_difference_prefix m i) as [H1 H2].
  destruct (startswith i m) eqn:E1.
  - f_equal. apply startswith_antisym; [exact H1|].
    apply up_to_difference_greatest; [apply startswith_refl | exact E1].
  - destruct (startswith m i) eqn:E2; [|reflexivity].
    f_equal. apply startswith_antisym; [exact H2|].
    apply up_to_difference_greatest; [exact E2 | apply startswith_refl].
Qed.

(** ** Margins *)

Lemma up_to_difference_app (m a b : string) :
  up_to_difference (m ++ a) (m ++ b) = m ++ up_to_difference a b.
Proof.
  induction m as [|c m IH]; cbn [append up_to_difference]; [reflexivity|].
  now rewrite Ascii.eqb_refl, IH.
Qed.

Lemma fold_narrow_app (m : string) (I : list string) (a : string) :
  fold_left narrow (map (append m) I) (Some (m ++ a))
  = option_map (append m) (fold_left narrow I (Some a)).
Proof.
  revert a. induction I as [|i I IH]; intros a; cbn [map fold_left]; [reflexivity|].
  rewrite !narrow_some, up_to_difference_app. apply IH.
Qed.

(** The margin of lines with a margin before each is this margin before
    the margin of the lines. *)
Lemma margin_app (m : string) (I : list string) :
  fold_left narrow (map (append m) I) None
  = option_map (append m) (fold_left narrow I None).
Proof.
  destruct I as [|i I]; [reflexivity|]. cbn [map fold_left narrow].
  apply fold_narrow_app.
Qed.

Lemma fold_narrow_empty (I : list string) :
  fold_left narrow I (Some EmptyString) = Some EmptyString.
Proof.
  induction I as [|i I IH]; [reflexivity|]. cbn [fold_left].
  now rewrite narrow_some.
Qed.

Lemma up_to_difference_nil_r (m : string) : up_to_difference m EmptyString = EmptyString.
Proof. now destruct m. Qed.

Lemma fold_narrow_with_empty (I : list string) (m : string) :
  In EmptyString I -> fold_left narrow I (Some m) = Some EmptyString.
Proof.
  revert m. induction I as [|i I IH]; intros m Hin; [destruct Hin|].
  destruct Hin as [->|Hin]; cbn [fold_left]; rewrite narrow_some.
  - rewrite up_to_difference_nil_r. apply fold_narrow_empty.
  - now apply IH.
Qed.

(** With a line that is not indented among them, the lines have no
    margin. *)
Lemma margin_with_empty (I : list string) :
  In EmptyString I -> fold_left narrow I None = Some EmptyString.
Proof.
  destruct I as [|i I]; intros Hin; [destruct Hin|].
  destruct Hin as [->|Hin]; cbn [fold_left narrow].
  - apply fold_narrow_empty.
  - now apply fold_narrow_with_empty.
Qed.

Lemma fold_narrow_prefix (I : list string) (m m' : string) :
  fold_left narrow I (Some m) = Some m' ->
  startswith m m' = true /\ Forall (fun i => startswith i m' = true) I.
Proof.
  revert m. induction I as [|i I IH]; intros m; cbn [fold_left].
  - intros [= <-]. split; [apply startswith_refl | constructor].
  - rewrite narrow_some. intros H. apply IH in H as [H1 H2].
    destruct (up_to_difference_prefix m i) as [Hm Hi].
    split; [eauto using startswith_trans|].
    constructor; eauto using startswith_trans.
Qed.

(** The margin is at the head of every indent. *)
Lemma margin_prefix (I : list string) (m : string) :
  fold_left narrow I None = Some m -> Forall (fun i => startswith i m = true) I.
Proof.
  destruct I as [|i I]; [discriminate|]. cbn [fold_left narrow]. intros H.
  apply fold_narrow_prefix in H as [H1 H2]. now constructor.
Qed.

(** ** Lines and their indents *)

Lemma leading_blank (l : string) : string_forallb is_blank (leading l) = true.
Proof.
  induction l as [|c l IH]; cbn [leading]; [reflexivity|].
  destruct (is_blank c) eqn:E; [|reflexivity]. cbn [string_forallb].
  now rewrite E, IH.
Qed.

Lemma leading_prefix (l : string) : startswith l (leading l) = true.
Proof.
  unfold startswith. induction l as [|c l IH]; cbn [leading]; [reflexivity|].
  destruct (is_blank c); [|reflexivity]. cbn [strip_prefix].
  now rewrite Ascii.eqb_refl.
Qed.

Lemma blank_prefix (m r : string) :
  string_forallb is_blank (m ++ r) = true -> string_forallb is_blank m = true.
Proof. rewrite string_forallb_append. intros H. now apply andb_prop in H. Qed.

Lemma leading_app (m l : string) :
  string_forallb is_blank m = true -> leading (m ++ l) = m ++ leading l.
Proof.
  induction m as [|c m IH]; cbn [string_forallb append leading]; [reflexivity|].
  intros H. apply andb_prop in H as [-> H]. now rewrite IH.
Qed.

Lemma has_indent_app (m l : string) :
  string_forallb is_blank m = true -> has_indent (m ++ l) = has_indent l.
Proof.
  intros H. unfold has_indent. now rewrite string_forallb_append, H.
Qed.

Lemma not_has_indent (l : string) :
  whitespace_only l = false -> has_indent l = false -> l = EmptyString.
Proof.
  unfold whitespace_only, has_indent. intros H1 H2.
  apply negb_false_iff in H2. rewrite H2, andb_true_r in H1.
  apply negb_false_iff, String.eqb_eq in H1. exact H1.
Qed.

Lemma has_indent_nonempty (l : string) : has_indent l = true -> l <> EmptyString.
Proof. intros H ->. discriminate H. Qed.

Lemma has_indent_settled (l : string) : has_indent l = true -> whitespace_only l = false.
Proof.
  unfold has_indent, whitespace_only. intros H. apply negb_true_iff in H.
  now rewrite H, andb_false_r.
Qed.

Lemma blanked_settled (l : string) : whitespace_only (blanked l) = false.
Proof. unfold blanked. destruct (whitespace_only l) eqn:E; [reflexivity | exact E]. Qed.

Lemma blanked_id (l : string) : whitespace_only l = false -> blanked l = l.
Proof. unfold blanked. now intros ->. Qed.

Lemma blanked_no_newline (l : string) :
  contains newline l = false -> contains newline (blanked l) = false.
Proof. unfold blanked. now destruct (whitespace_only l). Qed.

Lemma contains_app (c : ascii) (a b : string) :
  contains c (a ++ b) = contains c a || contains c b.
Proof.
  induction a as [|x a IH]; cbn [append contains]; [reflexivity|].
  now rewrite IH, orb_assoc.
Qed.

Lemma blank_no_newline (m : string) :
  string_forallb is_blank m = true -> contains newline m = false.
Proof.
  induction m as [|c m IH]; cbn [string_forallb contains]; [reflexivity|].
  intros H. apply andb_prop in H as [Hc H]. rewrite (IH H), orb_false_r.
  unfold is_blank in Hc. apply orb_prop in Hc as [Hc|Hc];
    apply Ascii.eqb_eq in Hc; subst; reflexivity.
Qed.

Lemma indented_line (m l : string) :
  string_forallb is_blank m = true ->
  text_line l = true -> text_line (indented m l) = true.
Proof.
  intros Hm. unfold text_line, indented. intros H.
  destruct (String.eqb_spec l "") as [->|Hne]; [reflexivity|].
  apply andb_prop in H as [H1 H2]. apply negb_true_iff in H1, H2.
  rewrite contains_app, (blank_no_newline m Hm), H1. cbn [orb negb andb].
  apply negb_true_iff. apply has_indent_settled.
  rewrite has_indent_app by exact Hm.
  destruct (has_indent l) eqn:E; [reflexivity|].
  now apply not_has_indent in E.
Qed.

Lemma indented_nonempty (m l : string) : l <> EmptyString -> indented m l = m ++ l.
Proof. unfold indented. intros H. apply String.eqb_neq in H. now rewrite H. Qed.

Lemma indents_indented (m : string) (L : list string) :
  string_forallb is_blank m = true ->
  Forall (fun l => text_line l = true) L ->
  indents (map (indented m) L) = map (append m) (indents L).
Proof.
  intros Hm H. unfold indents.
  induction H as [|l L Hl HL IH]; cbn [map filter]; [reflexivity|].
  destruct (String.eqb_spec l "") as [->|Hne].
  - exact IH.
  - rewrite indented_nonempty by exact Hne.
    rewrite has_indent_app by exact Hm.
    destruct (has_indent l); cbn [map]; [|exact IH].
    now rewrite leading_app, IH.
Qed.

Lemma unindent_indented (m l : string) : unindent m (indented m l) = l.
Proof.
  unfold unindent, indented. destruct (String.eqb_spec l "") as [->|Hne].
  - now destruct m.
  - now rewrite strip_prefix_app.
Qed.

Lemma indented_nil (l : string) : indented EmptyString l = l.
Proof. unfold indented. now destruct (l =? "")%string. Qed.

(** [dedent] on a text given by its lines. *)
Lemma dedent_lines (L : list string) :
  L <> [] -> Forall (fun l => text_line l = true) L ->
  dedent (join_lines L)
  = match fold_left narrow (indents L) None with
    | None | Some EmptyString => join_lines L
    | Some m => join_lines (map (unindent m) L)
    end.
Proof.
  intros Hne HL. unfold dedent. rewrite split_join.
  - rewrite (map_ext_in blanked (fun l => l)), map_id; [reflexivity|].
    intros l Hl. rewrite Forall_forall in HL. specialize (HL l Hl).
    unfold text_line in HL. apply andb_prop in HL as [_ HL].
    apply negb_true_iff in HL. now apply blanked_id.
  - exact Hne.
  - revert HL. apply Forall_impl. intros l Hl. unfold text_line in Hl.
    apply andb_prop in Hl as [Hl _]. now apply negb_true_iff in Hl.
Qed.

(** X16.  [dedent] takes away a margin of blanks that was put before every
    line that is not empty, when one of the lines had no indentation. *)
Theorem dedent_indented (m : string) (L : list string) :
  string_forallb is_blank m = true ->
  forallb text_line L = true -> existsb starts_unindented L = true ->
  dedent (join_lines (map (indented m) L)) = join_lines L.
Proof.
  intros Hm HL Hex. rewrite forallb_forall in HL. apply Forall_forall in HL.
  apply existsb_exists in Hex as (l0 & Hin & Hl0).
  assert (Hne : L <> []) by (intros ->; destruct Hin).
  rewrite dedent_lines.
  - rewrite indents_indented, margin_app by assumption.
    rewrite margin_with_empty.
    + cbn [option_map]. rewrite append_nil_r.
      destruct m as [|c m].
      * rewrite (map_ext _ (fun l => l)) by apply indented_nil. now rewrite map_id.
      * rewrite map_map, (map_ext _ (fun l => l)) by (intros; apply unindent_indented).
        now rewrite map_id.
    + unfold indents. apply in_map_iff. exists l0.
      destruct l0 as [|c l0]; [discriminate|]. cbn [starts_unindented] in Hl0.
      apply negb_true_iff in Hl0. split.
      * cbn [leading]. now rewrite Hl0.
      * apply filter_In. split; [exact Hin|].
        unfold has_indent. cbn [string_forallb]. now rewrite Hl0.
  - destruct L; [contradiction | discriminate].
  - rewrite Forall_map. revert HL. apply Forall_impl.
    intros l. now apply indented_line.
Qed.

(** An instance. *)
Lemma dedent_indented_witness :
  dedent (join_lines (map (indented "  ") ["def f():"; "    pass"; ""]))
  = join_lines ["def f():"; "    pass"; ""].
Proof.
  apply (dedent_indented "  " ["def f():"; "    pass"; ""]); reflexivity.
Defined.

Lemma blanked_lines (text : string) :
  map blanked (split_lines text) <> [] /\
  Forall (fun l => text_line l = true) (map blanked (split_lines text)).
Proof.
  split.
  - pose proof (split_lines_nonempty text). now destruct (split_lines text).
  - rewrite Forall_map. pose proof (split_lines_no_newline text) as H.
    revert H. apply Forall_impl. intros l Hl. unfold text_line.
    now rewrite (blanked_no_newline l Hl), blanked_settled.
Qed.

(** A line of a text without a margin that is at the head of its
    indent. *)
Lemma unindent_line (m l : string) :
  m <> EmptyString -> string_forallb is_blank m = true ->
  text_line l = true ->
  (has_indent l = true -> startswith (leading l) m = true) ->
  text_line (unindent m l) = true /\ indented m (unindent m l) = l.
Proof.
  intros Hne Hm Hl Hp. destruct (has_indent l) eqn:E.
  - pose proof (startswith_trans _ _ _ (leading_prefix l) (Hp eq_refl)) as Hs.
    apply startswith_inv in Hs as (r & ->).
    unfold unindent. rewrite strip_prefix_app.
    rewrite has_indent_app in E by exact Hm.
    rewrite indented_nonempty by now apply has_indent_nonempty.
    split; [|reflexivity]. unfold text_line in *.
    apply andb_prop in Hl as [Hl _]. apply negb_true_iff in Hl.
    rewrite contains_app in Hl. apply orb_false_elim in Hl as [_ ->].
    now rewrite (has_indent_settled r E).
  - unfold text_line in Hl. apply andb_prop in Hl as [_ Hl].
    apply negb_true_iff in Hl. apply (not_has_indent l Hl) in E as ->.
    destruct m; [contradiction|]. split; reflexivity.
Qed.

(** A text that went through [dedent] has no common indentation left and
    no line of blanks, so a second pass changes nothing. *)
Lemma dedent_dedent (text : string) : dedent (dedent text) = dedent text.
Proof.
  destruct (blanked_lines text) as [Hne HL].
  unfold dedent at 2 3. set (L0 := map blanked (split_lines text)) in *.
  destruct (fold_left narrow (indents L0) None) as [m|] eqn:Em.
  - destruct m as [|c m'].
    + rewrite dedent_lines by assumption. now rewrite Em.
    + set (m := String c m') in *.
      pose proof (margin_prefix _ _ Em) as Hp.
      assert (Hm : string_forallb is_blank m = true).
      { destruct (indents L0) as [|i I] eqn:Ei; [discriminate Em|].
        inversion Hp as [|? ? Hi _]; subst.
        apply startswith_inv in Hi as (r & Hi).
        assert (Hb : string_forallb is_blank i = true).
        { assert (Hin : In i (indents L0)) by (rewrite Ei; now left).
          unfold indents in Hin. apply in_map_iff in Hin as (l & <- & _).
          apply leading_blank. }
        rewrite Hi in Hb. now apply blank_prefix in Hb. }
      assert (H1 : Forall (fun l => text_line (unindent m l) = true /\
                                    indented m (unindent m l) = l) L0).
      { apply Forall_forall. intros l Hl. apply unindent_line; try assumption.
        - discriminate.
        - rewrite Forall_forall in HL. now apply HL.
        - intros Hi. rewrite Forall_forall in Hp. apply Hp.
          unfold indents. apply in_map, filter_In. now split. }
      set (L1 := map (unindent m) L0).
      assert (HL1 : Forall (fun l => text_line l = true) L1).
      { unfold L1. rewrite Forall_map. revert H1. apply Forall_impl. tauto. }
      assert (E01 : L0 = map (indented m) L1).
      { unfold L1. rewrite map_map. rewrite <- (map_id L0) at 1.
        apply map_ext_in. intros l Hl. rewrite Forall_forall in H1.
        symmetry. now apply H1. }
      assert (Hne1 : L1 <> []) by (unfold L1; now destruct L0).
      rewrite dedent_lines by assumption.
      rewrite E01, indents_indented, margin_app in Em by assumption.
      destruct (fold_left narrow (indents L1) None) as [m1|]; [|reflexivity].
      cbn [option_map] in Em. injection Em as Em.
      assert (E1 : m1 = EmptyString).
      { apply (f_equal String.length) in Em. rewrite length_append in Em.
        destruct m1; [reflexivity | cbn [String.length] in Em; lia]. }
      now rewrite E1.
  - rewrite dedent_lines by assumption. now rewrite Em.
Qed.

(** X17.  [dedent] is idempotent, so [_write_text] does with a text that
    went through [dedent] what it does with the text itself: the same
    outcome, and the same text in the file. *)
Theorem dedent_idempotent (t : fs) (p : path) (text : string) :
  dedent (dedent text) = dedent text /\
  _write_text t p (dedent text) = _write_text t p text.
Proof.
  split; [apply dedent_dedent|]. unfold _write_text. now rewrite dedent_dedent.
Qed.

(** * Tables *)

Import Csv.

(** ** The reader, character by character *)

Lemma lines_of_nonempty (s : string) :
  s <> EmptyString -> exists l ls, lines_of s = l :: ls.
Proof.
  destruct s as [|c s]; [contradiction|]. intros _. cbn [lines_of].
  destruct (c =? newline)%char; [eauto|].
  destruct (lines_of s); eauto.
Qed.

Lemma and_then_assoc {A B C : Type} (r : outcome A) (f : A -> outcome B)
      (g : B -> outcome C) :
  and_then (and_then r f) g = and_then r (fun a => and_then (f a) g).
Proof. now destruct r. Qed.

Section Reader.
Variable d : ascii.

(** A character that is not a line feed, with more text after it, is
    given to the parser and the reading goes on. *)
Lemma read_record_char (p : parser) (c : ascii) (s : string) :
  (c =? newline)%char = false -> s <> EmptyString ->
  read_record d p (lines_of (String c s))
  = (p1 <-- parse_process_char d p (Some c) ;; read_record d p1 (lines_of s)).
Proof.
  intros Hc Hs. cbn [lines_of]. rewrite Hc.
  destruct (lines_of_nonempty s Hs) as (l & ls & ->).
  cbn [read_record parse_line]. rewrite and_then_assoc. reflexivity.
Qed.

(** A line feed ends the line: the parser is given the line feed and the
    end of the line, and the record is over when the parser is back at
    the start of a record. *)
Lemma read_record_newline (p : parser) (s : string) :
  read_record d p (lines_of (String newline s))
  = (p1 <-- parse_process_char d p (Some newline) ;;
     p2 <-- parse_process_char d p1 None ;;
     if state_eqb (p_state p2) START_RECORD then Done (p_fields p2, lines_of s)
     else read_record d p2 (lines_of s)).
Proof.
  cbn [lines_of]. rewrite Ascii.eqb_refl.
  cbn [read_record parse_line]. rewrite and_then_assoc. reflexivity.
Qed.

Lemma add_char_ok (p : parser) (st : state) (c : ascii) :
  (N.of_nat (String.length (p_field p)) < field_limit)%N ->
  parse_add_char p st c
  = Done (mk_parser st (p_fields p) (p_field p ++ String c EmptyString)).
Proof.
  intros H. unfold parse_add_char.
  destruct (N.leb_spec field_limit (N.of_nat (String.length (p_field p))));
    [lia | reflexivity].
Qed.

Lemma append_char (a : string) (c : ascii) (f : string) :
  (a ++ String c EmptyString) ++ f = a ++ String c f.
Proof. now rewrite append_assoc. Qed.

Lemma append_nonempty (a b : string) : b <> EmptyString -> a ++ b <> EmptyString.
Proof. destruct a; [auto | discriminate]. Qed.

Lemma length_snoc (a : string) (c : ascii) :
  String.length (a ++ String c EmptyString) = S (String.length a).
Proof. rewrite length_append. cbn [String.length]. lia. Qed.

Ltac parser_step :=
  cbn [parse_process_char p_state and_then];
  unfold set_state, parse_save_field;
  cbn [p_state p_fields p_field and_then is_eol after_line_end state_eqb].

(** The characters of a field between quotes. *)
Lemma read_quoted (f : string) :
  forall (fs : list string) (acc s : string),
    s <> EmptyString ->
    (N.of_nat (String.length (acc ++ f)) <= field_limit)%N ->
    read_record d (mk_parser IN_QUOTED_FIELD fs acc)
      (lines_of (fst (field_data d f) ++ s))
    = read_record d (mk_parser IN_QUOTED_FIELD fs (acc ++ f)) (lines_of s).
Proof.
  induction f as [|c f IH]; intros fs acc s Hs Hlen.
  - cbn [field_data fst append]. now rewrite append_nil_r.
  - assert (Hacc : (N.of_nat (String.length acc) < field_limit)%N).
    { rewrite length_append in Hlen. cbn [String.length] in Hlen. lia. }
    assert (Hlen' : (N.of_nat (String.length ((acc ++ String c EmptyString) ++ f))
                     <= field_limit)%N) by now rewrite append_char.
    assert (Hne : fst (field_data d f) ++ s <> EmptyString).
    { destruct (fst (field_data d f)); [exact Hs | discriminate]. }
    cbn [field_data]. destruct (field_data d f) as [copied quoted] eqn:Ef.
    cbn [fst] in IH, Hne.
    destruct (Ascii.eqb_spec c dquote) as [->|Hq].
    + cbn [fst append].
      rewrite read_record_char by (reflexivity || discriminate).
      parser_step. change (dquote =? dquote)%char with true. cbv iota.
      parser_step.
      rewrite read_record_char by (reflexivity || exact Hne).
      parser_step. change (dquote =? dquote)%char with true. cbv iota.
      rewrite add_char_ok by exact Hacc. parser_step.
      rewrite IH by assumption. now rewrite append_char.
    + cbn [fst append].
      destruct (Ascii.eqb_spec c newline) as [->|Hn].
      * rewrite read_record_newline.
        parser_step. change (newline =? dquote)%char with false. cbv iota.
        rewrite add_char_ok by exact Hacc. parser_step.
        rewrite IH by assumption. now rewrite append_char.
      * rewrite read_record_char; [|now apply Ascii.eqb_neq | exact Hne].
        parser_step. apply Ascii.eqb_neq in Hq. rewrite Hq.
        rewrite add_char_ok by exact Hacc. parser_step.
        rewrite IH by assumption. now rewrite append_char.
Qed.

Hypothesis Hd : is_delimiter d = true.

Lemma delimiter_cases : d = tab \/ d = ","%char.
Proof.
  unfold is_delimiter in Hd. apply orb_prop in Hd as [H|H];
    apply Ascii.eqb_eq in H; auto.
Qed.

Lemma delimiter_not_special :
  (d =? dquote)%char = false /\ (d =? newline)%char = false /\
  (d =? carriage_return)%char = false.
Proof. destruct delimiter_cases as [-> | ->]; repeat split. Qed.

Lemma special_false (c : ascii) :
  special d c = false ->
  (c =? d)%char = false /\ (c =? dquote)%char = false /\
  (c =? carriage_return)%char = false /\ (c =? newline)%char = false.
Proof.
  unfold special. intros H.
  apply orb_false_elim in H as [H H4]. apply orb_false_elim in H as [H H3].
  apply orb_false_elim in H as [H1 H2]. auto.
Qed.

(** A field that needs no quotes is written as it is, and none of its
    characters is special. *)
Lemma field_data_plain (f : string) :
  snd (field_data d f) = false ->
  fst (field_data d f) = f /\ string_forallb (fun c => negb (special d c)) f = true.
Proof.
  induction f as [|c f IH]; cbn [field_data]; [auto|].
  destruct (field_data d f) as [copied quoted].
  destruct (c =? dquote)%char; [discriminate|]. cbn [fst snd] in *.
  intros H. apply orb_false_elim in H as [Hc Hq].
  destruct (IH Hq) as [-> IH2]. cbn [string_forallb]. now rewrite Hc, IH2.
Qed.

(** The characters of a field without quotes, after the first. *)
Lemma read_plain (f : string) :
  forall (fs : list string) (acc s : string),
    s <> EmptyString ->
    string_forallb (fun c => negb (special d c)) f = true ->
    (N.of_nat (String.length (acc ++ f)) <= field_limit)%N ->
    read_record d (mk_parser IN_FIELD fs acc) (lines_of (f ++ s))
    = read_record d (mk_parser IN_FIELD fs (acc ++ f)) (lines_of s).
Proof.
  induction f as [|c f IH]; intros fs acc s Hs Hf Hlen.
  - cbn [append]. now rewrite append_nil_r.
  - assert (Hacc : (N.of_nat (String.length acc) < field_limit)%N).
    { rewrite length_append in Hlen. cbn [String.length] in Hlen. lia. }
    cbn [string_forallb] in Hf. apply andb_prop in Hf as [Hc Hf].
    apply negb_true_iff, special_false in Hc as (H1 & H2 & H3 & H4).
    cbn [append]. rewrite read_record_char; [|exact H4|].
    + parser_step. rewrite H4, H3, H1. cbn [orb].
      rewrite add_char_ok by exact Hacc. parser_step.
      rewrite IH; [now rewrite append_char | exact Hs | exact Hf |].
      now rewrite append_char.
    + destruct f; [exact Hs | discriminate].
Qed.

(** The first character of a field without quotes. *)
Lemma read_first (st : state) (fs : list string) (c : ascii) (s : string) :
  st = START_RECORD \/ st = START_FIELD ->
  special d c = false -> s <> EmptyString ->
  read_record d (mk_parser st fs EmptyString) (lines_of (String c s))
  = read_record d (mk_parser IN_FIELD fs (String c EmptyString)) (lines_of s).
Proof.
  intros Hst Hc Hs. apply special_false in Hc as (H1 & H2 & H3 & H4).
  rewrite read_record_char by assumption.
  destruct Hst as [-> | ->]; parser_step; rewrite H4, H3, H2, H1; cbn [orb];
    now rewrite add_char_ok by (cbn; unfold field_limit; lia).
Qed.

(** The opening quote of a field. *)
Lemma read_open_quote (st : state) (fs : list string) (s : string) :
  st = START_RECORD \/ st = START_FIELD -> s <> EmptyString ->
  read_record d (mk_parser st fs EmptyString) (lines_of (String dquote s))
  = read_record d (mk_parser IN_QUOTED_FIELD fs EmptyString) (lines_of s).
Proof.
  intros Hst Hs. rewrite read_record_char by (reflexivity || assumption).
  destruct Hst as [-> | ->]; parser_step; reflexivity.
Qed.

(** A field and the delimiter after it. *)
Lemma read_field (st : state) (fs : list string) (f s : string) :
  st = START_RECORD \/ st = START_FIELD -> s <> EmptyString ->
  (N.of_nat (String.length f) <= field_limit)%N ->
  read_record d (mk_parser st fs EmptyString)
    (lines_of (field_written d f ++ String d s))
  = read_record d (mk_parser START_FIELD (fs ++ [f]) EmptyString) (lines_of s).
Proof.
  intros Hst Hs Hlen. destruct delimiter_not_special as (D1 & D2 & D3).
  unfold field_written.
  destruct (field_data d f) as [copied quoted] eqn:Ef. destruct quoted.
  - cbn [append]. rewrite append_assoc. cbn [append].
    rewrite read_open_quote
      by (assumption || (apply append_nonempty; discriminate)).
    pose proof (read_quoted f fs EmptyString (String dquote (String d s))) as Hq.
    rewrite Ef in Hq. cbn [fst append] in Hq.
    cbn [append]. rewrite Hq by (discriminate || assumption).
    rewrite read_record_char by (reflexivity || discriminate).
    parser_step. change (dquote =? dquote)%char with true. cbv iota. parser_step.
    rewrite read_record_char by assumption.
    parser_step. rewrite D1, Ascii.eqb_refl. parser_step. reflexivity.
  - pose proof (field_data_plain f) as Hp. rewrite Ef in Hp.
    destruct (Hp eq_refl) as [Hc Hf]. cbn [fst] in Hc. subst copied.
    destruct f as [|c f].
    + cbn [append]. rewrite read_record_char by assumption.
      destruct Hst as [-> | ->]; parser_step;
        rewrite D2, D3, D1, Ascii.eqb_refl; cbn [orb]; reflexivity.
    + cbn [string_forallb] in Hf. apply andb_prop in Hf as [Hc Hf].
      apply negb_true_iff in Hc. cbn [append].
      rewrite read_first; [|exact Hst | exact Hc |].
      * rewrite read_plain; [|discriminate | exact Hf | exact Hlen].
        rewrite read_record_char by assumption.
        parser_step. rewrite D2, D3, Ascii.eqb_refl. cbn [orb]. reflexivity.
      * destruct f; discriminate.
Qed.

(** The last field of a record and the line feed after it. *)
Lemma read_last_field (fs : list string) (f s : string) :
  (N.of_nat (String.length f) <= field_limit)%N ->
  read_record d (mk_parser START_FIELD fs EmptyString)
    (lines_of (field_written d f ++ String newline s))
  = Done ((fs ++ [f])%list, lines_of s).
Proof.
  intros Hlen. unfold field_written.
  destruct (field_data d f) as [copied quoted] eqn:Ef. destruct quoted.
  - cbn [append]. rewrite append_assoc. cbn [append].
    rewrite read_open_quote
      by (auto || (apply append_nonempty; discriminate)).
    pose proof (read_quoted f fs EmptyString (String dquote (String newline s))) as Hq.
    rewrite Ef in Hq. cbn [fst append] in Hq.
    cbn [append]. rewrite Hq by (discriminate || assumption).
    rewrite read_record_char by (reflexivity || discriminate).
    parser_step. change (dquote =? dquote)%char with true. cbv iota. parser_step.
    rewrite read_record_newline.
    parser_step. change (newline =? dquote)%char with false. cbv iota.
    destruct delimiter_not_special as (D1 & D2 & D3).
    rewrite Ascii.eqb_sym, D2. change (newline =? newline)%char with true.
    cbn [orb]. parser_step. reflexivity.
  - pose proof (field_data_plain f) as Hp. rewrite Ef in Hp.
    destruct (Hp eq_refl) as [Hc Hf]. cbn [fst] in Hc. subst copied.
    destruct f as [|c f].
    + cbn [append]. rewrite read_record_newline. parser_step.
      change (newline =? newline)%char with true. cbn [orb]. parser_step.
      reflexivity.
    + cbn [string_forallb] in Hf. apply andb_prop in Hf as [Hc Hf].
      apply negb_true_iff in Hc. cbn [append].
      rewrite read_first; [|now right | exact Hc |].
      * rewrite read_plain; [|discriminate | exact Hf | exact Hlen].
        rewrite read_record_newline. parser_step.
        change (newline =? newline)%char with true. cbn [orb]. parser_step.
        reflexivity.
      * destruct f; discriminate.
Qed.

(** A line of two fields is read as its two fields. *)
Lemma next_line (a b s : string) :
  (N.of_nat (String.length a) <= field_limit)%N ->
  (N.of_nat (String.length b) <= field_limit)%N ->
  next d (lines_of (line_of d lf a b ++ s)) = Done ([a; b], lines_of s).
Proof.
  intros Ha Hb. unfold next, parse_reset, line_of, lf.
  rewrite !append_assoc. cbn [append].
  rewrite read_field; [|now left | | exact Ha].
  - rewrite append_assoc. cbn [append]. now rewrite read_last_field.
  - destruct (field_written d b); discriminate.
Qed.
End Reader.

(** ** [int] of the text of an integer *)

Lemma transform_decimal (s : string) :
  string_forallb is_decimal s = true -> Builtins.transform s = Some s.
Proof.
  induction s as [|c s IH]; cbn [string_forallb Builtins.transform]; [reflexivity|].
  intros H. apply andb_prop in H as [Hc Hs]. rewrite (IH Hs).
  unfold Builtins.to_ascii.
  replace (code c <? 127)%N with true; [reflexivity|].
  symmetry. unfold is_decimal, in_range in Hc. apply andb_prop in Hc as [_ Hc].
  apply N.leb_le in Hc. apply N.ltb_lt. lia.
Qed.

Lemma scan_digits_decimal (s : string) :
  string_forallb is_decimal s = true ->
  Builtins.scan_digits false s = Some (list_ascii_of_string s, EmptyString).
Proof.
  induction s as [|c s IH];
    cbn [string_forallb Builtins.scan_digits list_ascii_of_string]; [reflexivity|].
  intros H. apply andb_prop in H as [-> Hs]. now rewrite (IH Hs).
Qed.

Lemma number_of_uint_acc (u : uint) (acc : positive) :
  fold_left (fun n c => 10 * n + Builtins.digit_value c)
    (list_ascii_of_string (NilEmpty.string_of_uint u)) (Z.pos acc)
  = Z.pos (Pos.of_uint_acc u acc).
Proof.
  revert acc.
  induction u as [|u IH|u IH|u IH|u IH|u IH|u IH|u IH|u IH|u IH|u IH]; intros acc;
    cbn [NilEmpty.string_of_uint list_ascii_of_string fold_left Pos.of_uint_acc];
    [reflexivity | rewrite <- IH; f_equal ..];
    match goal with
    | |- context [Builtins.digit_value ?c] =>
        let v := eval vm_compute in (Builtins.digit_value c) in
        change (Builtins.digit_value c) with v
    end; lia.
Qed.

Lemma number_of_uint (u : uint) :
  Builtins.number (list_ascii_of_string (NilEmpty.string_of_uint u)) = Z.of_uint u.
Proof.
  unfold Builtins.number, Z.of_uint.
  induction u as [|u IH|u IH|u IH|u IH|u IH|u IH|u IH|u IH|u IH|u IH];
    cbn [NilEmpty.string_of_uint list_ascii_of_string fold_left Pos.of_uint];
    [reflexivity | exact IH | ..];
    cbn [Z.of_N]; rewrite <- number_of_uint_acc; f_equal.
Qed.

Lemma skip_spaces_decimal (s : string) :
  string_forallb is_decimal s = true -> Builtins.skip_spaces s = s.
Proof.
  destruct s as [|c s]; [reflexivity|]. cbn [string_forallb Builtins.skip_spaces].
  intros H. apply andb_prop in H as [Hc _].
  replace (Builtins.is_space c) with false; [reflexivity|].
  symmetry. unfold is_decimal, in_range in Hc. apply andb_prop in Hc as [H1 H2].
  apply N.leb_le in H1, H2. unfold Builtins.is_space, in_range.
  apply orb_false_iff. split.
  - apply andb_false_iff. right. apply N.leb_gt. lia.
  - apply N.eqb_neq. lia.
Qed.

(** [int] of a string of decimal digits. *)
Lemma int_decimal (u : uint) :
  u <> Nil ->
  Builtins.int (NilEmpty.string_of_uint u) = Ok (Z.of_uint u) /\
  Builtins.int (String "-" (NilEmpty.string_of_uint u)) = Ok (- Z.of_uint u).
Proof.
  intros Hu. pose proof (string_of_uint_decimal u) as Hd.
  assert (Hs : exists c r, NilEmpty.string_of_uint u = String c r /\ is_decimal c = true).
  { destruct u; try contradiction; cbn [NilEmpty.string_of_uint]; eauto. }
  destruct Hs as (c & r & Ec & Hc).
  assert (Hsign : (c =? "+")%char = false /\ (c =? "-")%char = false /\
                  (c =? "_")%char = false).
  { unfold is_decimal, in_range in Hc. apply andb_prop in Hc as [H1 H2].
    apply N.leb_le in H1, H2.
    repeat split; apply Ascii.eqb_neq; intros ->; cbn in H1, H2; lia. }
  destruct Hsign as (S1 & S2 & S3).
  assert (Hl : list_ascii_of_string (NilEmpty.string_of_uint u) <> []).
  { rewrite Ec. discriminate. }
  split; unfold Builtins.int.
  - rewrite transform_decimal, skip_spaces_decimal by exact Hd.
    rewrite Ec. cbv iota beta. rewrite S1, S2. cbv iota beta. rewrite <- Ec.
    replace (startswith (NilEmpty.string_of_uint u) "_") with false.
    + rewrite scan_digits_decimal by exact Hd.
      destruct (list_ascii_of_string (NilEmpty.string_of_uint u)) eqn:El;
        [contradiction|].
      cbn [Builtins.skip_spaces]. rewrite <- El. now rewrite number_of_uint.
    + rewrite Ec. unfold startswith. cbn [strip_prefix].
      rewrite Ascii.eqb_sym. now rewrite S3.
  - cbn [Builtins.transform]. change (Builtins.to_ascii "-") with (Some "-"%char).
    rewrite transform_decimal by exact Hd.
    cbn [Builtins.skip_spaces]. change (Builtins.is_space "-") with false. cbv iota.
    change ("-" =? "+")%char with false. change ("-" =? "-")%char with true. cbv iota.
    replace (startswith (NilEmpty.string_of_uint u) "_") with false.
    + rewrite scan_digits_decimal by exact Hd.
      destruct (list_ascii_of_string (NilEmpty.string_of_uint u)) eqn:El;
        [contradiction|].
      cbn [Builtins.skip_spaces]. rewrite <- El. now rewrite number_of_uint.
    + rewrite Ec. unfold startswith. cbn [strip_prefix].
      rewrite Ascii.eqb_sym. now rewrite S3.
Qed.

(** [int] undoes [str] on an integer. *)
Lemma int_intstr (n : Z) : Builtins.int (intstr n) = Ok n.
Proof.
  unfold intstr. destruct n as [|p|p]; cbn [Z.to_int NilEmpty.string_of_int].
  - reflexivity.
  - destruct (int_decimal (Pos.to_uint p)) as [H _].
    + pose proof (pos_to_uint_head p). now destruct (Pos.to_uint p).
    + rewrite H. f_equal. apply of_uint_pos_to_uint.
  - destruct (int_decimal (Pos.to_uint p)) as [_ H].
    + pose proof (pos_to_uint_head p). now destruct (Pos.to_uint p).
    + rewrite H. f_equal. now rewrite of_uint_pos_to_uint.
Qed.

(** ** The writer *)

Lemma cell_field (d : ascii) (rec : string) (n : nat) (v : pyval) (s : string) :
  cell v = Some s ->
  exists field,
    field_text v = Ok field /\
    join_append d rec n field false
    = rec ++ (if (0 <? n)%nat then String d EmptyString else EmptyString)
          ++ field_written d s.
Proof.
  unfold cell. destruct (field_text v) as [[t|]|] eqn:E; [| |discriminate].
  - intros [= ->]. exists (Some s). split; [reflexivity|].
    unfold join_append, field_written. now destruct (field_data d s).
  - intros [= <-]. exists None. split; reflexivity.
Qed.

Lemma eqb_append_char (a : string) (c : ascii) (b : string) :
  (a ++ String c b =? "")%string = false.
Proof. now destruct a. Qed.

(** The line that is written for a record of two values. *)
Lemma writerow_two (d : ascii) (v1 v2 : pyval) (a b : string) :
  cell v1 = Some a -> cell v2 = Some b ->
  writerow d [v1; v2] = Ok (line_of d crlf a b).
Proof.
  intros H1 H2. unfold writerow. cbn [join_fields].
  destruct (cell_field d EmptyString 0 v1 a H1) as (f1 & -> & E1). cbn [bind].
  rewrite E1. cbn [Nat.ltb Nat.leb append].
  destruct (cell_field d (field_written d a) 1 v2 b H2) as (f2 & -> & E2).
  cbn [bind]. rewrite E2. cbn [Nat.ltb Nat.leb append bind].
  rewrite eqb_append_char, andb_false_r.
  unfold line_of. now rewrite append_assoc.
Qed.

(** The lines that are written for records of two values. *)
Lemma writerows_two (d : ascii) (rows : list (list pyval))
      (cells : list (string * string)) (text : string) :
  Forall2 (fun row ab => exists v1 v2, row = [v1; v2] /\
                                       cell v1 = Some (fst ab) /\
                                       cell v2 = Some (snd ab)) rows cells ->
  writerows d text rows = (text ++ lines_written d crlf cells, Ok tt).
Proof.
  intros H. revert text.
  induction H as [|row [a b] rows cells (v1 & v2 & -> & H1 & H2) _ IH]; intros text;
    cbn [writerows lines_written].
  - now rewrite append_nil_r.
  - cbn [fst snd] in *. rewrite (writerow_two d v1 v2 a b H1 H2).
    rewrite IH. now rewrite append_assoc.
Qed.

(** ** Line ends *)

Lemma universal_newlines_crlf (a b : string) :
  contains carriage_return a = false ->
  universal_newlines (a ++ crlf ++ b) = a ++ lf ++ universal_newlines b.
Proof.
  induction a as [|c a IH]; cbn [contains append universal_newlines].
  - intros _. unfold crlf, lf. cbn [append universal_newlines].
    change (carriage_return =? carriage_return)%char with true.
    change (newline =? newline)%char with true. reflexivity.
  - intros H. apply orb_false_elim in H as [-> H]. now rewrite IH.
Qed.

Lemma field_data_no_cr (d : ascii) (s : string) :
  contains carriage_return s = false ->
  contains carriage_return (fst (field_data d s)) = false.
Proof.
  induction s as [|c s IH]; cbn [contains field_data]; [reflexivity|].
  intros H. apply orb_false_elim in H as [Hc Hs]. specialize (IH Hs).
  destruct (field_data d s) as [copied quoted]. cbn [fst] in IH.
  destruct (c =? dquote)%char eqn:E; cbn [fst contains]; rewrite ?Hc, IH; reflexivity.
Qed.

Lemma field_written_no_cr (d : ascii) (s : string) :
  contains carriage_return s = false ->
  contains carriage_return (field_written d s) = false.
Proof.
  intros H. apply (field_data_no_cr d) in H. unfold field_written.
  destruct (field_data d s) as [copied [|]]; cbn [fst] in H; [|exact H].
  cbn [contains]. now rewrite contains_app, H.
Qed.

Lemma line_of_crlf (d : ascii) (a b : string) :
  line_of d crlf a b = (field_written d a ++ String d (field_written d b)) ++ crlf.
Proof. unfold line_of. rewrite !append_assoc. reflexivity. Qed.

Lemma line_of_lf (d : ascii) (a b : string) :
  line_of d lf a b = (field_written d a ++ String d (field_written d b)) ++ lf.
Proof. unfold line_of. rewrite !append_assoc. reflexivity. Qed.

(** What is read of the lines of a table whose texts hold no carriage
    return: the same lines, each with a line feed at its end. *)
Lemma universal_newlines_lines (d : ascii) (cells : list (string * string)) :
  is_delimiter d = true ->
  Forall (fun ab => contains carriage_return (fst ab) = false /\
                    contains carriage_return (snd ab) = false) cells ->
  universal_newlines (lines_written d crlf cells) = lines_written d lf cells.
Proof.
  intros Hd H. induction H as [|[a b] cells [Ha Hb] _ IH]; [reflexivity|].
  cbn [lines_written fst snd] in *.
  rewrite line_of_crlf, line_of_lf, !(append_assoc _ _ (lines_written _ _ _)).
  rewrite universal_newlines_crlf; [now rewrite IH|].
  rewrite contains_app. cbn [contains].
  rewrite (field_written_no_cr d a Ha), (field_written_no_cr d b Hb).
  destruct (delimiter_not_special d Hd) as (_ & _ & ->). reflexivity.
Qed.

(** ** The first line *)

Lemma readline_cons (c : ascii) (s : string) :
  (c =? newline)%char = false -> readline (String c s) = String c (readline s).
Proof.
  intros H. unfold readline. cbn [lines_of]. rewrite H.
  now destruct (lines_of s).
Qed.

Lemma readline_plain (a s : string) :
  contains newline a = false -> readline (a ++ s) = a ++ readline s.
Proof.
  induction a as [|c a IH]; cbn [contains append]; [reflexivity|].
  intros H. apply orb_false_elim in H as [Hc H].
  now rewrite readline_cons, IH.
Qed.

Lemma readline_no_tab (s : string) :
  contains tab s = false -> contains tab (readline s) = false.
Proof.
  induction s as [|c s IH]; [reflexivity|]. cbn [contains].
  intros H. apply orb_false_elim in H as [Hc H].
  destruct (c =? newline)%char eqn:E.
  - unfold readline. cbn [lines_of]. rewrite E. cbn [hd contains].
    now rewrite Hc.
  - rewrite readline_cons by exact E. cbn [contains]. now rewrite Hc, IH.
Qed.

Lemma field_data_no_tab (s : string) :
  contains tab s = false -> contains tab (fst (field_data "," s)) = false.
Proof.
  induction s as [|c s IH]; cbn [contains field_data]; [reflexivity|].
  intros H. apply orb_false_elim in H as [Hc Hs]. specialize (IH Hs).
  destruct (field_data "," s) as [copied quoted]. cbn [fst] in IH.
  destruct (Ascii.eqb_spec c dquote) as [->|]; cbn [fst contains];
    rewrite ?Hc, IH; reflexivity.
Qed.

Lemma field_written_no_tab (s : string) :
  contains tab s = false -> contains tab (field_written "," s) = false.
Proof.
  intros H. apply field_data_no_tab in H. unfold field_written.
  destruct (field_data "," s) as [copied [|]]; cbn [fst] in H; [|exact H].
  cbn [contains]. now rewrite contains_app, H.
Qed.

Lemma readline_line (c : ascii) (a s : string) :
  (newline =? c)%char = false -> contains c a = false ->
  contains c (readline (a ++ String newline s)) = false.
Proof.
  intros Hc. induction a as [|x a IH]; cbn [append contains].
  - intros _. unfold readline. cbn [lines_of].
    change (newline =? newline)%char with true. cbn [hd contains].
    now rewrite Hc.
  - intros H. apply orb_false_elim in H as [Hx H].
    destruct (x =? newline)%char eqn:E.
    + unfold readline. cbn [lines_of]. rewrite E. cbn [hd contains].
      now rewrite Hx.
    + rewrite readline_cons by exact E. cbn [contains]. now rewrite Hx, IH.
Qed.

Lemma contains_here (c : ascii) (a s : string) : contains c (a ++ String c s) = true.
Proof.
  rewrite contains_app. cbn [contains]. rewrite Ascii.eqb_refl.
  now rewrite orb_true_r.
Qed.

(** The delimiter that [_read_tsv] finds in the first line of a table is
    the one it was written with, when with a comma the name of the field
    holds no tab. *)
Lemma delimiter_found (d : ascii) (fn rest : string) :
  d = tab \/ (d = ","%char /\ contains tab fn = false) ->
  (if contains tab (readline (line_of d lf "cluster_id" fn ++ rest))
   then tab else ","%char) = d.
Proof.
  intros [-> | [-> Hfn]].
  - unfold line_of. change (field_written tab "cluster_id") with "cluster_id".
    cbn [append]. rewrite !readline_cons by reflexivity.
    change (contains tab ?x)
      with (contains tab ("cluster_id" ++ String tab (readline ((field_written tab fn ++ lf) ++ rest)))).
    now rewrite contains_here.
  - unfold line_of. change (field_written "," "cluster_id") with "cluster_id".
    cbn [append]. rewrite !readline_cons by reflexivity.
    unfold lf. rewrite append_assoc. cbn [append].
    change (contains tab ?x)
      with (contains tab (readline (field_written "," fn ++ String newline rest))).
    rewrite readline_line; [reflexivity | reflexivity |].
    now apply field_written_no_tab.
Qed.

(** ** The rows *)

Lemma dict_get_NoDup {V : Type} (d : list (key * V)) (k : key) (v : V) :
  NoDup (map fst d) -> In (k, v) d -> dict_get d k = Some v.
Proof.
  induction d as [|[k1 v1] d IH]; cbn [map fst dict_get]; intros Hn Hin;
    [destruct Hin|].
  inversion Hn as [|? ? Hk Hn']; subst.
  destruct Hin as [[= -> ->]|Hin].
  - now rewrite (proj2 (key_eqb_eq k k) eq_refl).
  - destruct (key_eqb k1 k) eqn:E; [|now apply IH].
    apply key_eqb_eq in E as ->. elim Hk.
    apply in_map_iff. now exists (k, v).
Qed.

Lemma sequence_map_ok {A B : Type} (f : A -> result B) (g : A -> B) (l : list A) :
  (forall x, In x l -> f x = Ok (g x)) ->
  sequence (map f l) = Ok (map g l).
Proof.
  induction l as [|x l IH]; intros H; cbn [map sequence]; [reflexivity|].
  rewrite (H x) by now left. cbn [bind].
  rewrite IH by (intros y Hy; apply H; now right). reflexivity.
Qed.

(** The rows that [_write_tsv] writes: one for each item, by increasing
    key. *)
Lemma sorted_rows_ok (d sd : list (key * pyval)) :
  NoDup (map fst d) -> sorted d = Ok sd ->
  sorted_rows d = Ok (map item_row sd).
Proof.
  intros Hn Hs. unfold sorted_rows.
  change (map (fun kv : key * pyval => (fst kv, tt)) d)
    with (map (on_value (fun _ : pyval => tt)) d).
  rewrite sorted_map, Hs. cbn [bind]. rewrite map_map.
  apply sequence_map_ok. intros [k v] Hin. cbn [on_value fst snd].
  unfold data_item, item_row.
  rewrite (dict_get_NoDup d k v Hn); [reflexivity|].
  eapply Permutation_in; [symmetry; apply sorted_perm; exact Hs | exact Hin].
Qed.

Lemma cell_ok_cell (v : pyval) :
  cell_ok v = true -> cell v = Some (cell_text v) /\ cell_text_ok (cell_text v) = true.
Proof. unfold cell_ok, cell_text. destruct (cell v); [auto | discriminate]. Qed.

Lemma table_item_inv (kv : key * pyval) :
  table_item kv = true ->
  exists n, fst kv = KInt n /\ cell_text (key_value (fst kv)) = intstr n /\
            cell_ok (key_value (fst kv)) = true /\ cell_ok (snd kv) = true.
Proof.
  unfold table_item. intros H. apply andb_prop in H as [H Hv].
  apply andb_prop in H as [Hk Hc]. destruct kv as [[n|s] v]; [|discriminate].
  exists n. repeat split; assumption.
Qed.

Lemma rows_cells (l : list (key * pyval)) :
  forallb table_item l = true ->
  Forall2 (fun row ab => exists v1 v2, row = [v1; v2] /\
                                       cell v1 = Some (fst ab) /\
                                       cell v2 = Some (snd ab))
          (map item_row l) (map item_cells l).
Proof.
  induction l as [|kv l IH]; cbn [forallb map]; intros H; constructor.
  - apply andb_prop in H as [H _].
    apply table_item_inv in H as (n & _ & _ & Hk & Hv).
    exists (key_value (fst kv)), (snd kv). cbn [item_cells fst snd].
    repeat split; now apply cell_ok_cell.
  - apply andb_prop in H as [_ H]. auto.
Qed.

Lemma cell_text_ok_inv (s : string) :
  cell_text_ok s = true ->
  contains carriage_return s = false /\ (N.of_nat (String.length s) <= field_limit)%N.
Proof.
  unfold cell_text_ok. intros H. apply andb_prop in H as [H1 H2].
  apply negb_true_iff in H1. apply N.leb_le in H2. auto.
Qed.

Lemma cells_no_cr (l : list (key * pyval)) :
  forallb table_item l = true ->
  Forall (fun ab : string * string =>
            contains carriage_return (fst ab) = false /\
            contains carriage_return (snd ab) = false) (map item_cells l).
Proof.
  induction l as [|kv l IH]; cbn [forallb map]; intros H; constructor.
  - apply andb_prop in H as [H _].
    apply table_item_inv in H as (n & _ & _ & Hk & Hv).
    apply cell_ok_cell in Hk as [_ Hk], Hv as [_ Hv].
    apply cell_text_ok_inv in Hk as [Hk _], Hv as [Hv _]. now split.
  - apply andb_prop in H as [_ H]. auto.
Qed.

(** ** The reader on the lines of a table *)

Lemma lines_of_line (a s : string) :
  (S (List.length (lines_of s)) <= List.length (lines_of (a ++ String newline s)))%nat.
Proof.
  induction a as [|c a IH]; cbn [append lines_of].
  - change (newline =? newline)%char with true. cbn [List.length]. lia.
  - destruct (c =? newline)%char; cbn [List.length]; [lia|].
    destruct (lines_of (a ++ String newline s)); cbn [List.length] in *; lia.
Qed.

Lemma lines_of_written (d : ascii) (cells : list (string * string)) :
  (List.length cells <= List.length (lines_of (lines_written d lf cells)))%nat.
Proof.
  induction cells as [|[a b] cells IH]; cbn [lines_written List.length]; [lia|].
  rewrite line_of_lf, append_assoc. unfold lf. cbn [append].
  pose proof (lines_of_line (field_written d a ++ String d (field_written d b))
                (lines_written d lf cells)). unfold lf in *. lia.
Qed.

(** The loop of [_read_tsv] over the lines of a table sets the items one
    after the other. *)
Lemma read_rows_written (d : ascii) (l : list (key * pyval)) :
  is_delimiter d = true ->
  forallb table_item l = true ->
  forall fuel data,
    (List.length l < fuel)%nat ->
    read_rows fuel d (lines_of (lines_written d lf (map item_cells l))) data
    = Done (setitems (fun k => k) data (map (on_value as_cell) l)).
Proof.
  intros Hd. induction l as [|kv l IH]; cbn [forallb map lines_written];
    intros H fuel data Hf.
  - destruct fuel as [|fuel]; [cbn [List.length] in Hf; lia|]. reflexivity.
  - apply andb_prop in H as [Hkv H].
    destruct fuel as [|fuel]; [lia|]. cbn [List.length] in Hf.
    apply table_item_inv in Hkv as (n & Ek & Et & Hk & Hv).
    apply cell_ok_cell in Hk as [_ Hk], Hv as [_ Hv].
    apply cell_text_ok_inv in Hk as [_ Hk], Hv as [_ Hv].
    cbn [read_rows]. unfold item_cells at 1. cbn [fst snd] in *.
    rewrite (next_line d Hd) by assumption.
    cbn [unpack2 and_then]. rewrite Et, int_intstr. cbn [lift and_then].
    rewrite IH by (assumption || lia).
    unfold setitems. cbn [fold_left on_value fst snd]. now rewrite Ek.
Qed.

(** ** Tables written and read *)

Lemma delimiter_of_is_delimiter (p : path) : is_delimiter (delimiter_of p) = true.
Proof. unfold delimiter_of. now destruct (suffix p =? ".tsv")%string. Qed.

(** What [_write_tsv] leaves in the file: the line of the header and a
    line for each item, by increasing key. *)
Lemma write_tsv_ok (t : fs) (q : path) (a fn : string) (d sd : list (key * pyval)) :
  wf_fs t -> no_file_above t q = true -> t (child q a) <> Some Dir ->
  NoDup (map fst d) -> sorted d = Ok sd -> forallb table_item d = true ->
  exists t',
    _write_tsv t (child q a) (PyStr fn) d = (t', Done tt) /\
    wf_fs t' /\
    open_r t' (child q a)
    = Done (lines_written (delimiter_of (child q a)) crlf
              (("cluster_id", fn) :: map item_cells sd)) /\
    forall x, x <> child q a -> t' x = with_dirs t q x.
Proof.
  intros Hwf Hn Hp Hnd Hs Hd.
  set (text := lines_written (delimiter_of (child q a)) crlf
                 (("cluster_id", fn) :: map item_cells sd)).
  destruct (write_text_ok t q a text Hwf Hn Hp)
    as (t1 & He & Hwf1 & Hq & Hp1 & H1 & Hw & Hr).
  exists (update (update t1 (child q a) (File EmptyString)) (child q a) (File text)).
  assert (Hsd : forallb table_item sd = true).
  { rewrite forallb_forall in *. intros x Hx. apply Hd.
    eapply Permutation_in; [symmetry; apply sorted_perm; exact Hs | exact Hx]. }
  split; [|split; [|split]].
  - unfold _write_tsv. cbn [parent]. rewrite He.
    fold (delimiter_of (child q a)).
    unfold write_text in Hw.
    destruct (open_w t1 (child q a)) as [e|t2] eqn:Eo; [discriminate|].
    assert (Et2 : t2 = update t1 (child q a) (File EmptyString)).
    { unfold open_w in Eo. rewrite (stat_some t1 Hwf1 q Dir Hq) in Eo.
      destruct (t1 (child q a)) as [[s|]|]; congruence. }
    subst t2.
    rewrite (writerow_two _ (PyStr "cluster_id") (PyStr fn) "cluster_id" fn)
      by reflexivity.
    rewrite (sorted_rows_ok d sd Hnd Hs).
    rewrite (writerows_two _ _ (map item_cells sd)) by now apply rows_cells.
    unfold text. cbn [lines_written lift]. reflexivity.
  - apply wf_update_file.
    + now apply wf_update_file.
    + rewrite update_neq; [exact Hq|].
      intros E. apply (f_equal depth) in E. cbn [depth] in E. lia.
    + rewrite update_eq. discriminate.
  - exact Hr.
  - intros x Hx. rewrite !update_neq by exact Hx. apply H1.
Qed.

(** X18.  A table of items with integer keys, written by [_write_tsv] in a
    directory that can be made, is read back by [_read_tsv]: the name of
    the field, and the items by increasing key, each value as the text it
    was written as.  With a path that does not end in [.tsv] the name of
    the field must hold no tab, or the reader takes the tab for the
    delimiter. *)
Theorem write_tsv_read_tsv (t : fs) (q : path) (a fn : string)
        (d : list (key * pyval)) :
  wf_fs t -> no_file_above t q = true -> t (child q a) <> Some Dir ->
  NoDup (map fst d) -> forallb table_item d = true ->
  cell_text_ok fn = true ->
  suffix (child q a) = ".tsv" \/ contains tab fn = false ->
  exists t' sd,
    _write_tsv t (child q a) (PyStr fn) d = (t', Done tt) /\
    sorted d = Ok sd /\
    _read_tsv t' (child q a)
    = Done (PyTuple [PyStr fn; PyDict (map (on_value as_cell) sd)]).
Proof.
  intros Hwf Hn Hp Hnd Hd Hfn Hdel.
  destruct (sorted_one_kind_ok d) as (sd & Hs).
  { unfold one_kind. apply orb_true_iff. left. rewrite forallb_forall in *.
    intros k Hk. apply in_map_iff in Hk as (kv & <- & Hkv).
    apply Hd, table_item_inv in Hkv as (n & -> & _). reflexivity. }
  destruct (write_tsv_ok t q a fn d sd Hwf Hn Hp Hnd Hs Hd)
    as (t' & Hw & Hwf' & Hr & _).
  exists t', sd. split; [exact Hw|]. split; [exact Hs|].
  assert (Hsd : forallb table_item sd = true).
  { rewrite forallb_forall in *. intros x Hx. apply Hd.
    eapply Permutation_in; [symmetry; apply sorted_perm; exact Hs | exact Hx]. }
  assert (Hnd' : NoDup (map fst sd)).
  { eapply Permutation_NoDup; [|exact Hnd]. apply Permutation_map.
    now apply sorted_perm. }
  pose proof (delimiter_of_is_delimiter (child q a)) as Hdl.
  apply cell_text_ok_inv in Hfn as [Hcr Hlen].
  unfold _read_tsv.
  assert (He : exists_ t' (child q a) = true).
  { apply (exists_spec t' Hwf'). unfold open_r in Hr.
    destruct (stat t' (child q a)) as [e|n] eqn:E; [discriminate|].
    apply stat_inr in E. congruence. }
  rewrite He. cbn [negb]. unfold read_text. rewrite Hr. cbn [and_then].
  rewrite universal_newlines_lines; [|exact Hdl|].
  2:{ constructor; [now split | now apply cells_no_cr]. }
  cbn [lines_written].
  rewrite delimiter_found.
  2:{ unfold delimiter_of. destruct Hdel as [-> | Hdel]; [now left|].
      destruct (suffix (child q a) =? ".tsv")%string; auto. }
  rewrite (next_line _ Hdl) by (assumption || (vm_compute; discriminate)).
  cbn [and_then unpack2].
  rewrite (read_rows_written _ sd Hdl Hsd).
  2:{ pose proof (lines_of_written (delimiter_of (child q a)) (map item_cells sd)) as Hl.
      rewrite length_map in Hl. lia. }
  cbn [and_then]. rewrite setitems_fresh.
  - cbn [List.app]. rewrite map_map.
    rewrite (map_ext _ (on_value as_cell)) by now intros [k v]. reflexivity.
  - cbn [map List.app]. rewrite !map_map. cbn [on_value fst].
    exact Hnd'.
Qed.

(** An instance. *)
Lemma write_tsv_read_tsv_witness :
  exists t' sd,
    _write_tsv empty_fs (child (child root "a") "cluster_group.tsv") (PyStr "group")
               [(KInt 2, PyStr "good"); (KInt 1, PyNone)]
    = (t', Done tt) /\
    sorted [(KInt 2, PyStr "good"); (KInt 1, PyNone)] = Ok sd /\
    _read_tsv t' (child (child root "a") "cluster_group.tsv")
    = Done (PyTuple [PyStr "group"; PyDict (map (on_value as_cell) sd)]).
Proof.
  apply (write_tsv_read_tsv empty_fs (child root "a") "cluster_group.tsv" "group"
           [(KInt 2, PyStr "good"); (KInt 1, PyNone)]).
  - exact empty_fs_wf.
  - reflexivity.
  - discriminate.
  - repeat constructor; cbn [In]; intuition discriminate.
  - reflexivity.
  - reflexivity.
  - left. reflexivity.
Defined.

(** ** Tables that are not there, or not read *)

(** X19.  [_read_tsv] returns the empty dict, alone and not in a pair,
    exactly when nothing is at the path. *)
Theorem read_tsv_empty_dict (t : fs) (p : path) :
  wf_fs t ->
  _read_tsv t p = Done (PyDict []) <-> t p = None.
Proof.
  intros Hwf. unfold _read_tsv. destruct (exists_ t p) eqn:E; cbn [negb].
  - apply (exists_spec t Hwf) in E. split; [|contradiction].
    destruct (read_text t p) as [text|e]; cbn [and_then]; [|discriminate].
    destruct (next _ _) as [[header rest]|e]; cbn [and_then]; [|discriminate].
    destruct (unpack2 header) as [[x fn]|e]; cbn [and_then]; [|discriminate].
    destruct (read_rows _ _ _ _); cbn [and_then]; discriminate.
  - split; [|reflexivity]. intros _.
    destruct (t p) as [n|] eqn:Ep; [|reflexivity].
    assert (H : exists_ t p = true) by (apply (exists_spec t Hwf); congruence).
    congruence.
Qed.

(** An instance. *)
Lemma read_tsv_empty_dict_witness :
  _read_tsv empty_fs (child root "cluster_group.tsv") = Done (PyDict [])
  <-> empty_fs (child root "cluster_group.tsv") = None.
Proof.
  apply (read_tsv_empty_dict empty_fs (child root "cluster_group.tsv")).
  exact empty_fs_wf.
Defined.

(** X20.  A file that is there and empty is not read as an empty table:
    [next] finds no header and [_read_tsv] raises [StopIteration]. *)
Theorem read_tsv_empty_file (t : fs) (p : path) :
  wf_fs t -> t p = Some (File EmptyString) ->
  _read_tsv t p = Fail StopIteration.
Proof.
  intros Hwf Hp. unfold _read_tsv.
  assert (E : exists_ t p = true) by (apply (exists_spec t Hwf); congruence).
  rewrite E. cbn [negb]. unfold read_text, open_r.
  rewrite (stat_some t Hwf p _ Hp). reflexivity.
Qed.

(** An instance. *)
Lemma read_tsv_empty_file_witness :
  _read_tsv (update empty_fs (child root "f.tsv") (File EmptyString))
            (child root "f.tsv")
  = Fail StopIteration.
Proof.
  apply (read_tsv_empty_file
           (update empty_fs (child root "f.tsv") (File EmptyString))
           (child root "f.tsv")).
  - apply wf_update_file.
    + exact empty_fs_wf.
    + reflexivity.
    + discriminate.
  - reflexivity.
Defined.

(** X21.  A row whose first field is no integer for [int] makes [_read_tsv]
    raise [ValueError], whatever follows the row; no part of the table is
    returned. *)
Theorem read_tsv_not_an_integer (t : fs) (p : path) (d : ascii)
        (contents fn a b rest : string) :
  wf_fs t -> t p = Some (File contents) ->
  d = tab \/ (d = ","%char /\ contains tab fn = false) ->
  universal_newlines contents
  = line_of d lf "cluster_id" fn ++ line_of d lf a b ++ rest ->
  (N.of_nat (String.length fn) <= field_limit)%N ->
  (N.of_nat (String.length a) <= field_limit)%N ->
  (N.of_nat (String.length b) <= field_limit)%N ->
  Builtins.int a = Raise ValueError ->
  _read_tsv t p = Fail (Builtin ValueError).
Proof.
  intros Hwf Hp Hd Ht Hfn Ha Hb Hint. unfold _read_tsv.
  assert (E : exists_ t p = true) by (apply (exists_spec t Hwf); congruence).
  rewrite E. cbn [negb]. unfold read_text, open_r.
  rewrite (stat_some t Hwf p _ Hp). cbn [and_then]. rewrite Ht.
  rewrite delimiter_found by exact Hd.
  assert (Hdl : is_delimiter d = true).
  { destruct Hd as [-> | [-> _]]; reflexivity. }
  rewrite (next_line d Hdl) by (assumption || (vm_compute; discriminate)).
  cbn [and_then unpack2 read_rows].
  rewrite (next_line d Hdl) by assumption.
  cbn [and_then unpack2]. rewrite Hint. reflexivity.
Qed.

(** An instance: a key that was written as a string. *)
Lemma read_tsv_not_an_integer_witness :
  _read_tsv (update empty_fs (child root "f.tsv")
               (File ("cluster_id" ++ String tab ("group" ++ crlf)
                      ++ "one" ++ String tab ("good" ++ crlf))))
            (child root "f.tsv")
  = Fail (Builtin ValueError).
Proof.
  apply (read_tsv_not_an_integer
           (update empty_fs (child root "f.tsv")
              (File ("cluster_id" ++ String tab ("group" ++ crlf)
                     ++ "one" ++ String tab ("good" ++ crlf))))
           (child root "f.tsv") tab
           ("cluster_id" ++ String tab ("group" ++ crlf)
            ++ "one" ++ String tab ("good" ++ crlf))
           "group" "one" "good" EmptyString).
  - apply wf_update_file.
    + exact empty_fs_wf.
    + reflexivity.
    + discriminate.
  - reflexivity.
  - now left.
  - reflexivity.
  - vm_compute. discriminate.
  - vm_compute. discriminate.
  - vm_compute. discriminate.
  - reflexivity.
Defined.

(** X22.  With keys that are not all integers or all strings [sorted]
    raises [TypeError] after the header is written: [_write_tsv] leaves a
    file with the header alone, and what the file held before is lost. *)
Theorem write_tsv_mixed_keys (t : fs) (q : path) (a fn : string)
        (d : list (key * pyval)) (n : Z) (s : string) :
  wf_fs t -> no_file_above t q = true -> t (child q a) <> Some Dir ->
  In (KInt n) (map fst d) -> In (KStr s) (map fst d) ->
  exists t',
    _write_tsv t (child q a) (PyStr fn) d = (t', Fail (Builtin TypeError)) /\
    open_r t' (child q a)
    = Done (line_of (delimiter_of (child q a)) crlf "cluster_id" fn).
Proof.
  intros Hwf Hn Hp Hi Hs.
  set (text := line_of (delimiter_of (child q a)) crlf "cluster_id" fn).
  destruct (write_text_ok t q a text Hwf Hn Hp)
    as (t1 & He & Hwf1 & Hq & Hp1 & H1 & Hw & Hr).
  exists (update (update t1 (child q a) (File EmptyString)) (child q a) (File text)).
  split; [|exact Hr].
  unfold _write_tsv. cbn [parent]. rewrite He.
  fold (delimiter_of (child q a)).
  unfold write_text in Hw.
  destruct (open_w t1 (child q a)) as [e|t2] eqn:Eo; [discriminate|].
  assert (Et2 : t2 = update t1 (child q a) (File EmptyString)).
  { unfold open_w in Eo. rewrite (stat_some t1 Hwf1 q Dir Hq) in Eo.
    destruct (t1 (child q a)) as [[s0|]|]; congruence. }
  subst t2.
  rewrite (writerow_two _ (PyStr "cluster_id") (PyStr fn) "cluster_id" fn)
    by reflexivity.
  unfold sorted_rows.
  rewrite (sorted_mixed _ n s); [reflexivity | | ];
    rewrite map_map; cbn [fst]; assumption.
Qed.

(** An instance. *)
Lemma write_tsv_mixed_keys_witness :
  exists t',
    _write_tsv empty_fs (child root "f.csv") (PyStr "group")
               [(KInt 1, PyStr "good"); (KStr "two", PyStr "mua")]
    = (t', Fail (Builtin TypeError)) /\
    open_r t' (child root "f.csv")
    = Done (line_of (delimiter_of (child root "f.csv")) crlf "cluster_id" "group").
Proof.
  apply (write_tsv_mixed_keys empty_fs root "f.csv" "group"
           [(KInt 1, PyStr "good"); (KStr "two", PyStr "mua")] 1 "two").
  - exact empty_fs_wf.
  - reflexivity.
  - discriminate.
  - cbn. auto.
  - cbn. auto.
Defined.
